(** * ip-resolver: the resolution engine, embedded in Rocq

    The development follows the packages of the repository:
    - [GoInt], [Utf8], [Unicode], [Strings], [Netip]: the pieces of the Go
      runtime and standard library the program relies on;
    - [Model]: package model, the trie based tag normalizer;
    - [CachePkg]: package cache, the sharded cache with write-behind
      persistence;
    - [Worker]: package worker, the inflight set, the request handler and
      the worker pool;
    - [Persistence]: the background tasks of the cache and its SQLite
      store; [Statistics]: the statistics page; [Dotted], [WorkerLoop]:
      dotted addresses and the loop of one worker;
    - [Monitor]: package monitor; [Provider]: package provider;
      [ModelV1]: the map based normalizer the trie replaced.
    Strings are Go strings: sequences of bytes, here [string] whose
    characters are the bytes. *)

From stdpp Require Import gmap strings list fin_maps pretty sorting.
From Stdlib Require Import ZArith Ascii Lia.
From Stdlib Require Import Floats.SpecFloat.

Open Scope string_scope.
Open Scope list_scope.
Open Scope Z_scope.

(** ** Fixed width integers *)

Module GoInt.

Definition minInt64 : Z := - 2 ^ 63.
Definition maxInt64 : Z := 2 ^ 63 - 1.

(** Two's complement wrap-around of a mathematical integer to int64. *)
Definition wrap64 (z : Z) : Z := (z + 2 ^ 63) mod 2 ^ 64 - 2 ^ 63.

Definition add64 (a b : Z) : Z := wrap64 (a + b).
Definition sub64 (a b : Z) : Z := wrap64 (a - b).

Definition isInt64 (z : Z) : Prop := minInt64 <= z <= maxInt64.

(** uint64 arithmetic, as used by the FNV-1a hash. *)
Definition wrapU64 (z : Z) : Z := z mod 2 ^ 64.
Definition mulU64 (a b : Z) : Z := wrapU64 (a * b).

End GoInt.

(** ** Bytes and strings *)

Definition byteZ (a : ascii) : Z := Z.of_N (N_of_ascii a).
Definition byteOfZ (z : Z) : ascii := ascii_of_N (Z.to_N (z mod 256)).

(** [s[n:]] and [s[:n]] on byte strings. *)
Fixpoint sdrop (n : nat) (s : string) : string :=
  match n, s with
  | O, _ => s
  | S n', String _ s' => sdrop n' s'
  | S _, EmptyString => EmptyString
  end.

Fixpoint stake (n : nat) (s : string) : string :=
  match n, s with
  | O, _ => EmptyString
  | S n', String a s' => String a (stake n' s')
  | S _, EmptyString => EmptyString
  end.

Fixpoint sbytes (s : string) : list Z :=
  match s with
  | EmptyString => []
  | String a s' => byteZ a :: sbytes s'
  end.

Fixpoint ofBytes (l : list Z) : string :=
  match l with
  | [] => EmptyString
  | b :: l' => String (byteOfZ b) (ofBytes l')
  end.

Definition seqb (a b : string) : bool := bool_decide (a = b).

(** ** unicode/utf8 *)

Module Utf8.

Definition RuneError : Z := 0xFFFD.
Definition RuneSelf : Z := 0x80.
Definition MaxRune : Z := 0x10FFFF.
Definition UTFMax : nat := 4.

Definition inRange (lo hi b : Z) : bool := (lo <=? b) && (b <=? hi).
Definition isCont (b : Z) : bool := inRange 0x80 0xBF b.

(** The [first] table of the library: for a leading byte, the length of
    the sequence and the range accepted for the second byte; [None] for
    a byte that cannot start a multi-byte sequence. *)
Definition first (b0 : Z) : option (nat * Z * Z) :=
  if inRange 0xC2 0xDF b0 then Some (2%nat, 0x80, 0xBF)
  else if b0 =? 0xE0 then Some (3%nat, 0xA0, 0xBF)
  else if inRange 0xE1 0xEC b0 then Some (3%nat, 0x80, 0xBF)
  else if b0 =? 0xED then Some (3%nat, 0x80, 0x9F)
  else if inRange 0xEE 0xEF b0 then Some (3%nat, 0x80, 0xBF)
  else if b0 =? 0xF0 then Some (4%nat, 0x90, 0xBF)
  else if inRange 0xF1 0xF3 b0 then Some (4%nat, 0x80, 0xBF)
  else if b0 =? 0xF4 then Some (4%nat, 0x80, 0x8F)
  else None.

(** utf8.DecodeRuneInString on the bytes of a string: the rune and its
    width; an invalid or short sequence is (RuneError, 1), the empty
    string (RuneError, 0). *)
Definition decodeBytes (l : list Z) : Z * nat :=
  match l with
  | [] => (RuneError, 0%nat)
  | b0 :: l1 =>
      if b0 <? RuneSelf then (b0, 1%nat)
      else
        match first b0 with
        | None => (RuneError, 1%nat)
        | Some (sz, lo, hi) =>
            match l1 with
            | [] => (RuneError, 1%nat)
            | b1 :: l2 =>
                if negb (inRange lo hi b1) then (RuneError, 1%nat)
                else if (sz <=? 2)%nat
                then (Z.lor (Z.shiftl (Z.land b0 0x1F) 6) (Z.land b1 0x3F), 2%nat)
                else
                  match l2 with
                  | [] => (RuneError, 1%nat)
                  | b2 :: l3 =>
                      if negb (isCont b2) then (RuneError, 1%nat)
                      else if (sz <=? 3)%nat
                      then (Z.lor (Z.lor (Z.shiftl (Z.land b0 0x0F) 12)
                                         (Z.shiftl (Z.land b1 0x3F) 6))
                                  (Z.land b2 0x3F), 3%nat)
                      else
                        match l3 with
                        | [] => (RuneError, 1%nat)
                        | b3 :: _ =>
                            if negb (isCont b3) then (RuneError, 1%nat)
                            else (Z.lor (Z.lor (Z.lor (Z.shiftl (Z.land b0 0x07) 18)
                                                      (Z.shiftl (Z.land b1 0x3F) 12))
                                               (Z.shiftl (Z.land b2 0x3F) 6))
                                        (Z.land b3 0x3F), 4%nat)
                        end
                  end
            end
        end
  end.

Definition DecodeRuneInString (s : string) : Z * nat := decodeBytes (sbytes s).

Definition RuneStart (b : Z) : bool := negb (Z.land b 0xC0 =? 0x80).

(** The backward scan of utf8.DecodeLastRuneInString: from [start] down
    to [lim], stopping at the first byte that can start a rune. *)
Fixpoint scanBack (fuel : nat) (bs : list Z) (lim start : Z) : Z :=
  match fuel with
  | O => start
  | S fuel' =>
      if start <? lim then start
      else if RuneStart (nth (Z.to_nat start) bs 0) then start
      else scanBack fuel' bs lim (start - 1)
  end.

(** utf8.DecodeLastRuneInString. *)
Definition decodeLastBytes (bs : list Z) : Z * nat :=
  let e := Z.of_nat (length bs) in
  if e =? 0 then (RuneError, 0%nat)
  else
    let r := nth (Z.to_nat (e - 1)) bs 0 in
    if r <? RuneSelf then (r, 1%nat)
    else
      let lim := Z.max (e - Z.of_nat UTFMax) 0 in
      let start := scanBack (S UTFMax) bs lim (e - 2) in
      let start := if start <? 0 then 0 else start in
      let '(r', size) := decodeBytes (drop (Z.to_nat start) bs) in
      if start + Z.of_nat size =? e then (r', size) else (RuneError, 1%nat).

Definition DecodeLastRuneInString (s : string) : Z * nat :=
  decodeLastBytes (sbytes s).

(** utf8.AppendRune: the encoding of a rune; surrogates and values out
    of range are encoded as RuneError. *)
Definition encodeRune (r : Z) : list Z :=
  if (0 <=? r) && (r <=? 0x7F) then [r]
  else if (0 <=? r) && (r <=? 0x7FF)
  then [Z.lor 0xC0 (Z.shiftr r 6); Z.lor 0x80 (Z.land r 0x3F)]
  else
    let r := if (r <? 0) || (MaxRune <? r) || ((0xD800 <=? r) && (r <=? 0xDFFF))
             then RuneError else r in
    if r <=? 0xFFFF
    then [Z.lor 0xE0 (Z.shiftr r 12);
          Z.lor 0x80 (Z.land (Z.shiftr r 6) 0x3F);
          Z.lor 0x80 (Z.land r 0x3F)]
    else [Z.lor 0xF0 (Z.shiftr r 18);
          Z.lor 0x80 (Z.land (Z.shiftr r 12) 0x3F);
          Z.lor 0x80 (Z.land (Z.shiftr r 6) 0x3F);
          Z.lor 0x80 (Z.land r 0x3F)].

(** The runes a [for _, r := range s] loop yields. *)
Fixpoint runesFuel (fuel : nat) (bs : list Z) : list Z :=
  match fuel with
  | O => []
  | S fuel' =>
      match bs with
      | [] => []
      | _ => let '(r, w) := decodeBytes bs in r :: runesFuel fuel' (drop w bs)
      end
  end.

Definition runes (s : string) : list Z := runesFuel (String.length s) (sbytes s).

End Utf8.

(** ** unicode *)

Module Unicode.

Definition MaxASCII : Z := 0x7F.
Definition MaxLatin1 : Z := 0xFF.

(** unicode.ToUpper and unicode.ToLower. The ASCII branch is the
    library's own. Outside ASCII the case tables are reproduced where
    they meet ASCII (U+0131 and U+017F upward, U+0130 and U+212A
    downward); every other rune is left fixed. The rest of the tables
    sends runes outside ASCII to runes outside ASCII and fixes the CJK
    ideographs, so it cannot change a match against the keywords and trie
    keys of package model, whose runes are ASCII letters and CJK
    ideographs. *)
Definition ToUpper (r : Z) : Z :=
  if r <=? MaxASCII then
    if (0x61 <=? r) && (r <=? 0x7A) then r - 0x20 else r
  else if r =? 0x131 then 0x49
  else if r =? 0x17F then 0x53
  else r.

Definition ToLower (r : Z) : Z :=
  if r <=? MaxASCII then
    if (0x41 <=? r) && (r <=? 0x5A) then r + 0x20 else r
  else if r =? 0x130 then 0x69
  else if r =? 0x212A then 0x6B
  else r.

(** unicode.IsSpace: the Latin-1 switch, then the White_Space table. *)
Definition IsSpace (r : Z) : bool :=
  if (0 <=? r) && (r <=? MaxLatin1) then
    (r =? 0x09) || (r =? 0x0A) || (r =? 0x0B) || (r =? 0x0C) || (r =? 0x0D)
    || (r =? 0x20) || (r =? 0x85) || (r =? 0xA0)
  else
    (r =? 0x1680) || ((0x2000 <=? r) && (r <=? 0x200A))
    || (r =? 0x2028) || (r =? 0x2029) || (r =? 0x202F) || (r =? 0x205F)
    || (r =? 0x3000).

End Unicode.

(** ** strings *)

Module Strings.

Fixpoint HasPrefix (s prefix : string) {struct prefix} : bool :=
  match prefix, s with
  | EmptyString, _ => true
  | String a p', String b s' => Ascii.eqb a b && HasPrefix s' p'
  | String _ _, EmptyString => false
  end.

Definition TrimPrefix (s prefix : string) : string :=
  if HasPrefix s prefix then sdrop (String.length prefix) s else s.

(** strings.Contains: [substr] occurs in [s] as a run of bytes. *)
Fixpoint Contains (s substr : string) : bool :=
  HasPrefix s substr
  || match s with
     | EmptyString => false
     | String _ s' => Contains s' substr
     end.

Definition isASCII (bs : list Z) : bool := forallb (fun b => b <? Utf8.RuneSelf) bs.

(** strings.Map: every rune of [s] (an invalid byte counts as
    RuneError) is replaced by the encoding of its image; a negative image
    drops the rune. *)
Definition Map (mapping : Z -> Z) (s : string) : string :=
  ofBytes (concat (map (fun c => let r := mapping c in
                                 if r <? 0 then [] else Utf8.encodeRune r)
                       (Utf8.runes s))).

(** strings.ToUpper and strings.ToLower: byte-wise on an ASCII string,
    through [Map] otherwise. *)
Definition ToUpper (s : string) : string :=
  if isASCII (sbytes s) then ofBytes (map Unicode.ToUpper (sbytes s))
  else Map Unicode.ToUpper s.

Definition ToLower (s : string) : string :=
  if isASCII (sbytes s) then ofBytes (map Unicode.ToLower (sbytes s))
  else Map Unicode.ToLower s.

Fixpoint trimLeft (fuel : nat) (bs : list Z) : list Z :=
  match fuel with
  | O => bs
  | S fuel' =>
      match bs with
      | [] => []
      | _ =>
          let '(r, w) := Utf8.decodeBytes bs in
          if Unicode.IsSpace r then trimLeft fuel' (drop w bs) else bs
      end
  end.

Fixpoint trimRight (fuel : nat) (bs : list Z) : list Z :=
  match fuel with
  | O => bs
  | S fuel' =>
      match bs with
      | [] => []
      | _ =>
          let '(r, w) := Utf8.decodeLastBytes bs in
          if Unicode.IsSpace r then trimRight fuel' (take (length bs - w) bs) else bs
      end
  end.

(** strings.TrimSpace: the leading and the trailing runes that are
    Unicode white space are removed (the ASCII fast paths of the library
    compute the same string). *)
Definition TrimSpace (s : string) : string :=
  let bs := sbytes s in
  let l := trimLeft (length bs) bs in
  ofBytes (trimRight (length l) l).

End Strings.

(** ** package model: the tag normalizer *)

Module Model.

Record IPInfo := mkIPInfo {
  Province : string;
  ISP : string;
  ProvinceCode : string;
  ISPCode : string
}.

(** [&model.IPInfo{Province: p, ISP: s}], as the providers build it. *)
Definition newIPInfo (p s : string) : IPInfo := mkIPInfo p s "" "".

(** A trie node: the children map, keyed by rune, and the code. The
    map is kept as an association list with one entry per rune. *)
#[warnings="-register-all"]
Inductive trieNode := Node (children : list (Z * trieNode)) (code : string).

Definition children (t : trieNode) : list (Z * trieNode) :=
  match t with Node cs _ => cs end.
Definition code (t : trieNode) : string :=
  match t with Node _ c => c end.

Definition newTrieNode : trieNode := Node [] "".

Fixpoint child (cs : list (Z * trieNode)) (r : Z) : option trieNode :=
  match cs with
  | [] => None
  | (r', n) :: cs' => if r' =? r then Some n else child cs' r
  end.

Fixpoint setChild (cs : list (Z * trieNode)) (r : Z) (n : trieNode)
  : list (Z * trieNode) :=
  match cs with
  | [] => [(r, n)]
  | (r', n') :: cs' =>
      if r' =? r then (r, n) :: cs' else (r', n') :: setChild cs' r n
  end.

Fixpoint insertRunes (t : trieNode) (key : list Z) (c : string) : trieNode :=
  match key with
  | [] => Node (children t) c
  | r :: key' =>
      let sub := match child (children t) r with
                 | Some n => n
                 | None => newTrieNode
                 end in
      Node (setChild (children t) r (insertRunes sub key' c)) (code t)
  end.

Definition insert (t : trieNode) (key c : string) : trieNode :=
  insertRunes t (Utf8.runes key) c.

Fixpoint matchRunes (t : trieNode) (input : list Z) : string :=
  match input with
  | [] => ""
  | r :: rest =>
      match child (children t) r with
      | None => ""
      | Some next =>
          if seqb (code next) "" then matchRunes next rest else code next
      end
  end.

Definition matchPrefix (t : trieNode) (input : string) : string :=
  matchRunes t (Utf8.runes input).

Definition cnMap : list (string * string) :=
  [ ("北京", "beijing"); ("天津", "tianjin"); ("河北", "hebei"); ("山西", "shanxi");
    ("内蒙古", "neimenggu"); ("辽宁", "liaoning"); ("吉林", "jilin");
    ("黑龙江", "heilongjiang");
    ("上海", "shanghai"); ("江苏", "jiangsu"); ("浙江", "zhejiang"); ("安徽", "anhui");
    ("福建", "fujian"); ("江西", "jiangxi"); ("山东", "shandong"); ("河南", "henan");
    ("湖北", "hubei"); ("湖南", "hunan"); ("广东", "guangdong"); ("广西", "guangxi");
    ("海南", "hainan"); ("重庆", "chongqing"); ("四川", "sichuan"); ("贵州", "guizhou");
    ("云南", "yunnan"); ("西藏", "xizang"); ("陕西", "shaanxi"); ("甘肃", "gansu");
    ("青海", "qinghai"); ("宁夏", "ningxia"); ("新疆", "xinjiang");
    ("香港", "hk"); ("澳门", "mo"); ("台湾", "tw") ].

(** The body of the loop of [init], for one entry of [cnMap]. *)
Definition initStep (t : trieNode) (kv : string * string) : trieNode :=
  insert (insert t kv.1 kv.2) kv.2 kv.2.

(** The trie [init] builds when the map is ranged over in the order
    [entries]. *)
Definition buildTrie (entries : list (string * string)) : trieNode :=
  fold_left initStep entries newTrieNode.

Definition provinceTrieRoot : trieNode := buildTrie cnMap.

Record ispRule := mkRule { Code : string; Keywords : list string }.

Definition ispRules : list ispRule :=
  [ mkRule "ct" ["电信"; "TELECOM"; "CHINANET"];
    mkRule "cu" ["联通"; "UNICOM"];
    mkRule "cmcc" ["移动"; "MOBILE"; "TIETONG"; "铁通"];
    mkRule "edu" ["教育"; "EDU"; "CERNET"];
    mkRule "gwbn" ["长城"; "GWBN"];
    mkRule "cbn" ["广电"; "CABLE"; "CBN"] ].

Definition detectProvinceCode (i : IPInfo) : IPInfo :=
  let raw := Strings.TrimSpace (Province i) in
  if seqb raw "" then i
  else
    let key := Strings.ToLower raw in
    let c := matchPrefix provinceTrieRoot key in
    if seqb c "" then i
    else mkIPInfo (Province i) (ISP i) c (ISPCode i).

(** The two nested loops of detectISPCode: the code of the first rule
    one of whose keywords occurs in [raw]. *)
Fixpoint firstRule (rules : list ispRule) (raw : string) : option string :=
  match rules with
  | [] => None
  | rule :: rules' =>
      if existsb (fun kw => Strings.Contains raw kw) (Keywords rule)
      then Some (Code rule)
      else firstRule rules' raw
  end.

Definition detectISPCode (i : IPInfo) : IPInfo :=
  let raw := Strings.ToUpper (Strings.TrimSpace (ISP i)) in
  if seqb raw "" then i
  else
    match firstRule ispRules raw with
    | Some c => mkIPInfo (Province i) (ISP i) (ProvinceCode i) c
    | None => i
    end.

Definition Standardize (i : IPInfo) : IPInfo :=
  detectISPCode (detectProvinceCode i).

Definition ToTag (i : IPInfo) : string :=
  if seqb (ProvinceCode i) "" || seqb (ISPCode i) "" then "fallback"
  else ProvinceCode i +:+ "_" +:+ ISPCode i.

(** Standardize followed by ToTag, as the worker applies them to what a
    provider returned. *)
Definition normalize (province isp : string) : string :=
  ToTag (Standardize (newIPInfo province isp)).

(** Feeding the codes of a first normalization back as province and
    isp, and normalizing again. *)
Definition renormalize (province isp : string) : string :=
  let i := Standardize (newIPInfo province isp) in
  normalize (ProvinceCode i) (ISPCode i).

(** The recognized vocabulary: the keys of the trie (names and codes)
    and the keywords of the rules. *)
Definition provinceVocabulary : list string := cnMap.*1 ++ cnMap.*2.
Definition ispVocabulary : list string := concat (Keywords <$> ispRules).

(** The node reached from [t] along [path], and the code it carries
    (empty when there is no such node). *)
Fixpoint walk (t : trieNode) (path : list Z) : option trieNode :=
  match path with
  | [] => Some t
  | r :: path' =>
      match child (children t) r with
      | Some n => walk n path'
      | None => None
      end
  end.

(** The keys [init] inserts for a list of entries, as rune sequences. *)
Definition keysOf (entries : list (string * string)) : list (list Z) :=
  entries ≫= (fun kv => [Utf8.runes kv.1; Utf8.runes kv.2]).

Definition codeAt (t : trieNode) (path : list Z) : string :=
  match walk t path with
  | Some n => code n
  | None => ""
  end.

End Model.

(** ** float64, for the refresh ratio

    IEEE 754 binary64 as [spec_float] with precision 53 and maximal
    exponent 1024. *)

Module Float64.

Definition prec : Z := 53.
Definition emax : Z := 1024.

Definition zero : spec_float := S754_zero false.
Definition one : spec_float := S754_finite false 4503599627370496 (-52).

(** [x < y], [x >= y] and [x * y] of Go on float64. *)
Definition lt (x y : spec_float) : bool := SFltb x y.
Definition ge (x y : spec_float) : bool := SFleb y x.
Definition mul (x y : spec_float) : spec_float := SFmul prec emax x y.
Definition div (x y : spec_float) : spec_float := SFdiv prec emax x y.

(** [float64(z)] for an integer [z]: rounding to nearest, ties to even. *)
Definition ofInt (z : Z) : spec_float := binary_normalize prec emax z 0 false.

(** What an out-of-range conversion to int64 yields. The language leaves
    it to the implementation; the value here is the one of amd64. *)
Definition int64Indefinite : Z := GoInt.minInt64.

(** [int64(f)]: the fraction is discarded. *)
Definition toInt64 (f : spec_float) : Z :=
  match f with
  | S754_zero _ => 0
  | S754_finite s m e =>
      let mag := if 0 <=? e then Z.pos m * 2 ^ e else Z.pos m / 2 ^ (- e) in
      let v := if s then - mag else mag in
      if (GoInt.minInt64 <=? v) && (v <=? GoInt.maxInt64) then v else int64Indefinite
  | _ => int64Indefinite
  end.

Definition isZero (f : spec_float) : bool :=
  match f with S754_zero _ => true | _ => false end.

Definition finiteOrZero (f : spec_float) : Prop :=
  match f with S754_zero _ | S754_finite _ _ _ => True | _ => False end.

End Float64.

(** ** Buffered channels

    A buffered channel that is not closed, as far as a non-blocking send
    and a receive see it: the buffer, oldest element first. A send in a
    [select] with a [default] branch goes through exactly when the buffer
    has room (a receiver can only be parked on an empty buffer). *)

Module Chan.

Definition trySend {A : Type} (cap : nat) (buf : list A) (x : A) : option (list A) :=
  if (length buf <? cap)%nat then Some (buf ++ [x]) else None.

Definition recv {A : Type} (buf : list A) : option (A * list A) :=
  match buf with
  | [] => None
  | x :: buf' => Some (x, buf')
  end.

End Chan.

(** ** package cache *)

Module CachePkg.

Definition shardCount : nat := 256.
Definition shardMask : Z := 255.
Definition defaultShardCapacity : Z := 2000.
Definition persistChCap : nat := 2048.

Record persistenceOp := mkOp {
  IsDelete : bool;
  Key : string;
  Value : string;
  Exp : Z;
  RefreshAt : Z
}.

Record entry := mkEntry {
  value : string;
  exp : Z;
  refreshAt : Z
}.

#[global] Instance entry_eq_dec : EqDecision entry.
Proof. solve_decision. Defined.

(** What the operations do to the locks and to the persistence pipeline,
    in program order. The log is an observation of the run, not a field of
    the Go struct. *)
Inductive event :=
| EvLock (shard : nat)
| EvUnlock (shard : nat)
| EvPersist (op : persistenceOp).

Record Cache := mkCache {
  shards : list (gmap string entry);
  ttl : Z;
  refreshWindow : Z;
  shardCap : Z;
  count : Z;
  droppedUpdates : Z;
  now : Z;
  stopped : bool;                    (* the stop channel has been closed *)
  persistCh : list persistenceOp;    (* buffer of the channel, capacity 2048 *)
  closed : Z;                        (* 0 = open, 1 = closed *)
  log : list event
}.

Definition withShards (c : Cache) (ss : list (gmap string entry)) : Cache :=
  mkCache ss (ttl c) (refreshWindow c) (shardCap c) (count c) (droppedUpdates c)
          (now c) (stopped c) (persistCh c) (closed c) (log c).
Definition withCount (c : Cache) (n : Z) : Cache :=
  mkCache (shards c) (ttl c) (refreshWindow c) (shardCap c) n (droppedUpdates c)
          (now c) (stopped c) (persistCh c) (closed c) (log c).
Definition withDropped (c : Cache) (n : Z) : Cache :=
  mkCache (shards c) (ttl c) (refreshWindow c) (shardCap c) (count c) n
          (now c) (stopped c) (persistCh c) (closed c) (log c).
Definition withNow (c : Cache) (t : Z) : Cache :=
  mkCache (shards c) (ttl c) (refreshWindow c) (shardCap c) (count c) (droppedUpdates c)
          t (stopped c) (persistCh c) (closed c) (log c).
Definition withPersistCh (c : Cache) (ch : list persistenceOp) : Cache :=
  mkCache (shards c) (ttl c) (refreshWindow c) (shardCap c) (count c) (droppedUpdates c)
          (now c) (stopped c) ch (closed c) (log c).
Definition withClosed (c : Cache) (f : Z) (st : bool) : Cache :=
  mkCache (shards c) (ttl c) (refreshWindow c) (shardCap c) (count c) (droppedUpdates c)
          (now c) st (persistCh c) f (log c).
Definition emit (c : Cache) (evs : list event) : Cache :=
  mkCache (shards c) (ttl c) (refreshWindow c) (shardCap c) (count c) (droppedUpdates c)
          (now c) (stopped c) (persistCh c) (closed c) (log c ++ evs).

(** New: the ratio is coerced, the window computed in float64. [now0] is
    what time.Now().UnixNano() returned. *)
Definition effectiveRatio (refreshRatio : spec_float) : spec_float :=
  if Float64.lt refreshRatio Float64.zero || Float64.ge refreshRatio Float64.one
  then Float64.zero else refreshRatio.

Definition New (ttl0 : Z) (refreshRatio : spec_float) (now0 : Z) : Cache :=
  let ratio := effectiveRatio refreshRatio in
  mkCache (replicate shardCount ∅)
          ttl0
          (Float64.toInt64 (Float64.mul (Float64.ofInt ttl0) ratio))
          defaultShardCapacity
          0 0 now0 false [] 0 [].

(** getShard: FNV-1a, 64 bit, over the bytes of the key; the low 8 bits
    select the shard. *)
Definition fnv1a (key : string) : Z :=
  fold_left (fun h b => GoInt.mulU64 (Z.lxor h b) 1099511628211)
            (sbytes key) 14695981039346656037.

Definition shardIndex (key : string) : nat := Z.to_nat (Z.land (fnv1a key) shardMask).

Definition shardAt (c : Cache) (i : nat) : gmap string entry :=
  default ∅ (shards c !! i).

Definition getShard (c : Cache) (key : string) : gmap string entry :=
  shardAt c (shardIndex key).

Definition setShard (c : Cache) (i : nat) (s : gmap string entry) : Cache :=
  withShards c (<[i := s]> (shards c)).

Definition Get (c : Cache) (key : string) : string * bool * bool * Z :=
  let now := now c in
  match getShard c key !! key with
  | None => ("", false, false, 0)
  | Some e =>
      if exp e <=? now then ("", false, false, 0)
      else
        let needsRefresh := (0 <? refreshWindow c) && (refreshAt e <=? now) in
        let remaining := GoInt.sub64 (exp e) now in
        (value e, true, needsRefresh, remaining)
  end.

Definition sendToPersist (c : Cache) (op : persistenceOp) : Cache :=
  let c := emit c [EvPersist op] in
  if closed c =? 1 then withDropped c (GoInt.add64 (droppedUpdates c) 1)
  else
    match Chan.trySend persistChCap (persistCh c) op with
    | Some ch => withPersistCh c ch
    | None => withDropped c (GoInt.add64 (droppedUpdates c) 1)
    end.

(** The key a [for k := range items] loop yields first. The order of a
    Go map iteration is not specified; [seed] stands for the choice of the
    runtime, and every key of the map is the first one for some seed. *)
Definition rangeFirst (seed : nat) (items : gmap string entry) : option string :=
  fst <$> (map_to_list items !! (seed `mod` size items)%nat).

(** The eviction loop of Set and SetWithTime: one binding is deleted and
    the counter decremented, then the loop breaks. *)
Definition evictOne (seed : nat) (items : gmap string entry) (cnt : Z)
  : gmap string entry * Z :=
  match rangeFirst seed items with
  | Some k => (delete k items, GoInt.add64 cnt (-1))
  | None => (items, cnt)
  end.

(** The part of Set and SetWithTime that runs for a key that is not in
    the shard. *)
Definition insertNew (c : Cache) (seed : nat) (key : string) (e : entry) : Cache :=
  let i := shardIndex key in
  let s := shardAt c i in
  let '(s1, cnt1) :=
    if shardCap c <=? Z.of_nat (size s) then evictOne seed s (count c)
    else (s, count c) in
  withCount (setShard c i (<[key := e]> s1)) (GoInt.add64 cnt1 1).

Definition upsertOp (key val : string) (e : entry) : persistenceOp :=
  mkOp false key val (exp e) (refreshAt e).

(** Set (the name is reserved in Rocq, hence the underscore). *)
Definition Set_ (c : Cache) (seed : nat) (key val : string) : Cache :=
  let now := now c in
  let ex := GoInt.add64 now (ttl c) in
  let e := mkEntry val ex (GoInt.sub64 ex (refreshWindow c)) in
  let i := shardIndex key in
  let c := emit c [EvLock i] in
  match shardAt c i !! key with
  | Some _ =>
      let c := setShard c i (<[key := e]> (shardAt c i)) in
      let c := emit c [EvUnlock i] in
      sendToPersist c (upsertOp key val e)
  | None =>
      let c := insertNew c seed key e in
      let c := emit c [EvUnlock i] in
      sendToPersist c (upsertOp key val e)
  end.

Definition SetWithTime (c : Cache) (seed : nat) (key val : string) (ex ra : Z) : Cache :=
  let e := mkEntry val ex ra in
  let i := shardIndex key in
  let c := emit c [EvLock i] in
  match shardAt c i !! key with
  | Some _ =>
      let c := setShard c i (<[key := e]> (shardAt c i)) in
      emit c [EvUnlock i]
  | None =>
      let c := insertNew c seed key e in
      emit c [EvUnlock i]
  end.

Definition Delete (c : Cache) (key : string) : Cache :=
  let i := shardIndex key in
  let c := emit c [EvLock i] in
  match shardAt c i !! key with
  | Some _ =>
      let c := setShard c i (delete key (shardAt c i)) in
      let c := withCount c (GoInt.add64 (count c) (-1)) in
      let c := sendToPersist c (mkOp true key "" 0 0) in
      emit c [EvUnlock i]
  | None => emit c [EvUnlock i]
  end.

(** One round of the loop of cleanupShard. *)
Definition cleanupStep (now : Z) (acc : gmap string entry * Z) (ke : string * entry)
  : gmap string entry * Z :=
  if exp ke.2 <=? now then (delete ke.1 acc.1, GoInt.add64 acc.2 (-1)) else acc.

(** cleanupShard on the shard of index [i]. Deleting the entry at hand
    while ranging over a map is allowed in Go, and every other entry is
    still visited once. *)
Definition cleanupShard (c : Cache) (i : nat) (now : Z) : Cache :=
  let c := emit c [EvLock i] in
  let s := shardAt c i in
  let '(s', cnt) := fold_left (cleanupStep now) (map_to_list s) (s, count c) in
  let c := withCount (setShard c i s') cnt in
  emit c [EvUnlock i].

(** The clock ticker stores the time it read. *)
Definition tick (c : Cache) (t : Z) : Cache := withNow c t.

(** The writer loop takes one op from the channel. *)
Definition recvPersist (c : Cache) : Cache :=
  match Chan.recv (persistCh c) with
  | Some (_, ch) => withPersistCh c ch
  | None => c
  end.

(** Close: the flag is stored, then the stop channel is closed; closing
    it a second time panics ([None]). *)
Definition Close (c : Cache) : option Cache :=
  if stopped c then None else Some (withClosed c 1 true).

Definition Count (c : Cache) : Z := count c.
Definition DroppedCount (c : Cache) : Z := droppedUpdates c.

(** The operations on a cache, as the rest of the program and the
    background tasks perform them, one at a time. *)
Inductive cacheOp :=
| OpSet (seed : nat) (key val : string)
| OpSetWithTime (seed : nat) (key val : string) (ex ra : Z)
| OpDelete (key : string)
| OpSweep (i : nat) (t : Z)
| OpTick (t : Z)
| OpRecvPersist
| OpClose.

Definition applyOp (c : Cache) (o : cacheOp) : option Cache :=
  match o with
  | OpSet seed key val => Some (Set_ c seed key val)
  | OpSetWithTime seed key val ex ra => Some (SetWithTime c seed key val ex ra)
  | OpDelete key => Some (Delete c key)
  | OpSweep i t => Some (cleanupShard c i t)
  | OpTick t => Some (tick c t)
  | OpRecvPersist => Some (recvPersist c)
  | OpClose => Close c
  end.

(** A run of operations; [None] when a second Close panicked. *)
Fixpoint runOps (c : Cache) (os : list cacheOp) : option Cache :=
  match os with
  | [] => Some c
  | o :: os' =>
      match applyOp c o with
      | Some c' => runOps c' os'
      | None => None
      end
  end.

(** The number of (key, entry) bindings held by the shards. *)
Definition bindings (c : Cache) : nat := sum_list (size <$> shards c).

(** What the type of the Go struct and its constructor guarantee: the
    array of shards has [shardCount] elements, and the capacity of a shard
    is positive. *)
Definition wf (c : Cache) : Prop :=
  length (shards c) = shardCount /\ 0 < shardCap c.

(** The counter agrees with the shards, each of which is within the
    capacity New gave it. *)
Definition countInv (c : Cache) : Prop :=
  length (shards c) = shardCount
  /\ shardCap c = defaultShardCapacity
  /\ Forall (fun s : gmap string entry => Z.of_nat (size s) <= defaultShardCapacity)
            (shards c)
  /\ count c = Z.of_nat (bindings c).

End CachePkg.

(** ** net and net/netip: parsing an address

    net.ParseIP as the standard library defines it, through
    netip.ParseAddr; an address is its 16 byte form. *)

Module Netip.

Definition isDigit (b : Z) : bool := (0x30 <=? b) && (b <=? 0x39).

(** parseIPv4Fields: [fields] are the octets read so far, [val] and
    [digLen] describe the octet being read; [atStart] and [prevDot] stand
    for the tests [i == 0] and [s[i-1] == '.']. *)
Fixpoint parseIPv4Fields (s : list Z) (atStart prevDot : bool)
         (val : Z) (digLen : nat) (fields : list Z) : option (list Z) :=
  match s with
  | [] => if (length fields <? 3)%nat then None else Some (fields ++ [val])
  | b :: s' =>
      if isDigit b then
        if (digLen =? 1)%nat && (val =? 0) then None
        else
          let val' := val * 10 + (b - 0x30) in
          if 255 <? val' then None
          else parseIPv4Fields s' false false val' (S digLen) fields
      else if b =? 0x2E then
        if atStart || (match s' with [] => true | _ => false end) || prevDot then None
        else if (length fields =? 3)%nat then None
        else parseIPv4Fields s' false true 0 0%nat (fields ++ [val])
      else None
  end.

Definition v4InV6Prefix : list Z := [0; 0; 0; 0; 0; 0; 0; 0; 0; 0; 0xFF; 0xFF].

Definition parseIPv4 (s : list Z) : option (list Z) :=
  match parseIPv4Fields s true false 0 0%nat [] with
  | Some fields => Some (v4InV6Prefix ++ fields)
  | None => None
  end.

Definition hexVal (c : Z) : option Z :=
  if (0x30 <=? c) && (c <=? 0x39) then Some (c - 0x30)
  else if (0x61 <=? c) && (c <=? 0x66) then Some (c - 0x61 + 10)
  else if (0x41 <=? c) && (c <=? 0x46) then Some (c - 0x41 + 10)
  else None.

(** The inner loop of parseIPv6 that reads one group of hex digits:
    the number of digits, their value and the rest of the string; [None]
    when the group has more than four digits. *)
Fixpoint hexGroup (s : list Z) (off : nat) (acc : Z) : option (nat * Z * list Z) :=
  match s with
  | [] => Some (off, acc, [])
  | c :: s' =>
      match hexVal c with
      | None => Some (off, acc, s)
      | Some d =>
          let acc' := acc * 16 + d in
          if (3 <? off)%nat then None
          else if 0xFFFF <? acc' then None
          else hexGroup s' (S off) acc'
      end
  end.

(** The outer loop of parseIPv6. [ip] holds the bytes written so far
    (the index [i] of the library is its length), [ellipsis] the position
    of the double colon if one was met. The result is the rest of the
    string together with [ip] and [ellipsis] when the loop is left. *)
Fixpoint parseIPv6Loop (fuel : nat) (s : list Z) (ip : list Z) (ellipsis : option nat)
  : option (list Z * list Z * option nat) :=
  match fuel with
  | O => Some (s, ip, ellipsis)
  | S fuel' =>
      if (16 <=? length ip)%nat then Some (s, ip, ellipsis)
      else
        match hexGroup s 0%nat 0 with
        | None => None
        | Some (off, acc, rest) =>
            if (off =? 0)%nat then None
            else
              match rest with
              | 0x2E :: _ =>
                  (* followed by a dot: the trailing IPv4 *)
                  if (match ellipsis with None => true | Some _ => false end)
                     && negb (length ip =? 12)%nat then None
                  else if (16 <? length ip + 4)%nat then None
                  else
                    match parseIPv4Fields s true false 0 0%nat [] with
                    | None => None
                    | Some fields => Some ([], ip ++ fields, ellipsis)
                    end
              | _ =>
                  let ip := ip ++ [Z.shiftr acc 8; Z.land acc 0xFF] in
                  match rest with
                  | [] => Some ([], ip, ellipsis)
                  | c :: rest1 =>
                      if negb (c =? 0x3A) then None
                      else
                        match rest1 with
                        | [] => None
                        | c1 :: rest2 =>
                            if c1 =? 0x3A then
                              match ellipsis with
                              | Some _ => None
                              | None =>
                                  match rest2 with
                                  | [] => Some ([], ip, Some (length ip))
                                  | _ => parseIPv6Loop fuel' rest2 ip (Some (length ip))
                                  end
                              end
                            else parseIPv6Loop fuel' rest1 ip ellipsis
                        end
                  end
              end
        end
  end.

Definition hasByte (b : Z) (s : list Z) : bool := existsb (Z.eqb b) s.

(** parseIPv6, for net.ParseIP: a string with a zone is refused, either
    by parseIPv6 itself (empty zone) or by net.ParseIP (any zone). *)
Definition parseIPv6 (s : list Z) : option (list Z) :=
  if hasByte 0x25 s then None
  else
    let '(s1, ell0) :=
      match s with
      | 0x3A :: 0x3A :: s' => (s', Some 0%nat)
      | _ => (s, None)
      end in
    match ell0, s1 with
    | Some _, [] => Some (replicate 16 0)
    | _, _ =>
        match parseIPv6Loop 9 s1 [] ell0 with
        | None => None
        | Some (rest, ip, ellipsis) =>
            match rest with
            | _ :: _ => None
            | [] =>
                if (length ip <? 16)%nat then
                  match ellipsis with
                  | None => None
                  | Some e =>
                      Some (take e ip ++ replicate (16 - length ip) 0 ++ drop e ip)
                  end
                else
                  match ellipsis with
                  | Some _ => None
                  | None => Some ip
                  end
            end
        end
    end.

(** netip.ParseAddr: the first of '.', ':' and '%' decides. *)
Fixpoint parseAddrScan (all rest : list Z) : option (list Z) :=
  match rest with
  | [] => None
  | b :: rest' =>
      if b =? 0x2E then parseIPv4 all
      else if b =? 0x3A then parseIPv6 all
      else if b =? 0x25 then None
      else parseAddrScan all rest'
  end.

Definition ParseIP (s : string) : option (list Z) :=
  parseAddrScan (sbytes s) (sbytes s).

(** IP.To4 on a 16 byte address. *)
Definition To4 (ip : list Z) : option (list Z) :=
  if (length ip =? 4)%nat then Some ip
  else if (length ip =? 16)%nat
          && forallb (Z.eqb 0) (take 10 ip)
          && (nth 10 ip 0 =? 0xFF) && (nth 11 ip 0 =? 0xFF)
  then Some (drop 12 ip)
  else None.

End Netip.

(** ** package worker *)

Module Worker.

Import CachePkg.

Definition QueueSize : nat := 4096.

Definition StatusOK : Z := 200.
Definition StatusAccepted : Z := 202.
Definition StatusBadRequest : Z := 400.
Definition StatusTooManyRequests : Z := 429.

(** What the handler wrote: the status of WriteHeader and the body. *)
Record Response := mkResp { status : Z; body : string }.

(** *** inflightSet *)

Definition TryAdd (s : gset string) (key : string) : bool * gset string :=
  if decide (key ∈ s) then (false, s) else (true, {[key]} ∪ s).

Definition Delete (s : gset string) (key : string) : gset string := s ∖ {[key]}.

(** The calls on the inflight set and on the work queue, as a run makes
    them. *)
Inductive ievent :=
| TryAddOk (key : string)       (* TryAdd returned true *)
| TryAddBusy (key : string)     (* TryAdd returned false *)
| Deleted (key : string)        (* Delete was called *)
| Sent (rawIP : string)         (* the try-send went through *)
| SendFull (rawIP : string).    (* the default branch of the select ran *)

(** *** Manager *)

Record Manager := mkManager {
  cache : Cache;
  queue : list string;           (* buffer of the channel, capacity QueueSize *)
  inflight : gset string;
  concurrency : nat
}.

Definition withCache (m : Manager) (c : Cache) : Manager :=
  mkManager c (queue m) (inflight m) (concurrency m).
Definition withInflight (m : Manager) (s : gset string) : Manager :=
  mkManager (cache m) (queue m) s (concurrency m).
Definition withQueue (m : Manager) (q : list string) : Manager :=
  mkManager (cache m) q (inflight m) (concurrency m).

(** NewManager without the load from the store: [ratio] and [ttl] are
    computed from the configuration as in the source. *)
Definition NewManager (cacheTTLSeconds cacheRefreshRatio : Z) (workers : nat) (now0 : Z)
  : Manager :=
  let ratio := Float64.div (Float64.ofInt cacheRefreshRatio) (Float64.ofInt 100) in
  let ttl := GoInt.wrap64 (GoInt.wrap64 cacheTTLSeconds * 1000000000) in
  mkManager (New ttl ratio now0) [] ∅ workers.

(** The index of the third dot of [s], scanning from index [i] with
    [dot] dots met so far. *)
Fixpoint thirdDot (s : string) (i dot : nat) : option nat :=
  match s with
  | EmptyString => None
  | String a s' =>
      if Ascii.eqb a "."%char then
        if (S dot =? 3)%nat then Some i else thirdDot s' (S i) (S dot)
      else thirdDot s' (S i) dot
  end.

(** The number of dots of a string. *)
Fixpoint dots (s : string) : nat :=
  match s with
  | EmptyString => 0%nat
  | String a s' => ((if Ascii.eqb a "."%char then 1 else 0) + dots s')%nat
  end.

Definition getCacheKey (ip : string) : string :=
  match thirdDot ip 0 0 with
  | Some i => stake i ip
  | None => ip
  end.

(** The non-blocking send of [rawIP] that follows a successful TryAdd,
    with the compensating Delete of its default branch. *)
Definition enqueue (m : Manager) (cacheKey rawIP : string) : Manager * bool * list ievent :=
  match Chan.trySend QueueSize (queue m) rawIP with
  | Some q => (withQueue m q, true, [Sent rawIP])
  | None => (withInflight m (Delete (inflight m) cacheKey), false,
             [SendFull rawIP; Deleted cacheKey])
  end.

Definition HandleUpdate (m : Manager) (path : string) : Manager * Response * list ievent :=
  let rawIP := Strings.TrimPrefix path "/" in
  if seqb rawIP "" || seqb rawIP "favicon.ico" then (m, mkResp StatusBadRequest "", [])
  else
    match Netip.ParseIP rawIP with
    | None => (m, mkResp StatusBadRequest "invalid ip format", [])
    | Some parsedIP =>
        match Netip.To4 parsedIP with
        | None => (m, mkResp StatusBadRequest "only ipv4 supported", [])
        | Some _ =>
            let cacheKey := getCacheKey rawIP in
            let '(tag, found, needsRefresh, _) := Get (cache m) cacheKey in
            if found then
              if needsRefresh then
                let '(added, s) := TryAdd (inflight m) cacheKey in
                if added then
                  let '(m', _, evs) := enqueue (withInflight m s) cacheKey rawIP in
                  (m', mkResp StatusOK tag, TryAddOk cacheKey :: evs)
                else (m, mkResp StatusOK tag, [TryAddBusy cacheKey])
              else (m, mkResp StatusOK tag, [])
            else
              let '(added, s) := TryAdd (inflight m) cacheKey in
              if negb added then (m, mkResp StatusAccepted "", [TryAddBusy cacheKey])
              else
                let '(m', sent, evs) := enqueue (withInflight m s) cacheKey rawIP in
                (m', mkResp (if sent then StatusAccepted else StatusTooManyRequests) "",
                 TryAddOk cacheKey :: evs)
        end
    end.

(** *** The worker

    What the call of provider.Fetch did. *)
Inductive fetchResult :=
| FetchOk (info : Model.IPInfo)
| FetchErr
| FetchPanic.

(** How the closure of the worker loop ended. *)
Inductive exit := Returned | Panicked.

(** The closure the worker runs for one item: the body, then the
    deferred Delete, which runs on a return and on a panic alike. [res] is
    consulted only when the fetch is reached, [seed] only when Set evicts. *)
Definition workerBody (m : Manager) (rawIP : string) (res : fetchResult) (seed : nat)
  : Manager * exit :=
  let cacheKey := getCacheKey rawIP in
  let '(_, found, needsRefresh, _) := Get (cache m) cacheKey in
  if found && negb needsRefresh then (m, Returned)
  else
    match res with
    | FetchErr => (m, Returned)
    | FetchPanic => (m, Panicked)
    | FetchOk info =>
        let tag := Model.ToTag (Model.Standardize info) in
        (withCache m (Set_ (cache m) seed cacheKey tag), Returned)
    end.

Definition workerItem (m : Manager) (rawIP : string) (res : fetchResult) (seed : nat)
  : Manager * exit * list ievent :=
  let cacheKey := getCacheKey rawIP in
  let '(m', ex) := workerBody m rawIP res seed in
  (withInflight m' (Delete (inflight m') cacheKey), ex, [Deleted cacheKey]).

(** *** The running service

    The handler makes two calls that other goroutines can come between: the
    TryAdd and the try-send. [handlerEntry] is the handler up to and including its
    TryAdd; when the TryAdd succeeded it yields the raw IP the handler is
    about to send, and [enqueue] is the rest. *)
Definition handlerEntry (m : Manager) (path : string) : Manager * option string * list ievent :=
  let rawIP := Strings.TrimPrefix path "/" in
  if seqb rawIP "" || seqb rawIP "favicon.ico" then (m, None, [])
  else
    match Netip.ParseIP rawIP with
    | None => (m, None, [])
    | Some parsedIP =>
        match Netip.To4 parsedIP with
        | None => (m, None, [])
        | Some _ =>
            let cacheKey := getCacheKey rawIP in
            let '(_, found, needsRefresh, _) := Get (cache m) cacheKey in
            if found && negb needsRefresh then (m, None, [])
            else
              let '(added, s) := TryAdd (inflight m) cacheKey in
              if added then (withInflight m s, Some rawIP, [TryAddOk cacheKey])
              else (m, None, [TryAddBusy cacheKey])
        end
    end.

(** The state of the service: the manager, the raw IPs of the handlers
    that hold a key and have not sent yet, the items the workers have
    received and not finished, and whether a panic has ended the process.
    The queue is open: main closes the listeners before Stop closes it. *)
Record Sys := mkSys {
  mgr : Manager;
  pending : list string;
  busy : list string;
  crashed : bool
}.

(** The steps of the service. The closure of a worker is one step; the
    calls it makes on the cache do not touch the inflight set, and [LCache]
    lets any operation on the cache happen between any two steps. *)
Inductive label :=
| LEnter (path : string)       (* a handler runs up to its TryAdd *)
| LSend (n : nat)              (* the handler holding pending item n try-sends *)
| LReceive                     (* an idle worker receives an item *)
| LWork (n : nat) (res : fetchResult) (seed : nat)
                               (* the worker on item n runs its closure *)
| LCache (op : cacheOp).       (* clock, sweep, persistence writer, any cache call *)

Definition step (s : Sys) (l : label) : Sys * list ievent :=
  if crashed s then (s, [])
  else
    match l with
    | LEnter path =>
        let '(m', p, evs) := handlerEntry (mgr s) path in
        (mkSys m' (pending s ++ option_list p) (busy s) false, evs)
    | LSend n =>
        match pending s !! n with
        | Some rawIP =>
            let '(m', _, evs) := enqueue (mgr s) (getCacheKey rawIP) rawIP in
            (mkSys m' (delete n (pending s)) (busy s) false, evs)
        | None => (s, [])
        end
    | LReceive =>
        if (length (busy s) <? concurrency (mgr s))%nat then
          match Chan.recv (queue (mgr s)) with
          | Some (rawIP, q) =>
              (mkSys (withQueue (mgr s) q) (pending s) (busy s ++ [rawIP]) false, [])
          | None => (s, [])
          end
        else (s, [])
    | LWork n res seed =>
        match busy s !! n with
        | Some rawIP =>
            let '(m', ex, evs) := workerItem (mgr s) rawIP res seed in
            (mkSys m' (pending s) (delete n (busy s))
                   (match ex with Panicked => true | Returned => false end), evs)
        | None => (s, [])
        end
    | LCache op =>
        match applyOp (cache (mgr s)) op with
        | Some c' => (mkSys (withCache (mgr s) c') (pending s) (busy s) false, [])
        | None => (mkSys (mgr s) (pending s) (busy s) true, [])
        end
    end.

Fixpoint run (s : Sys) (ls : list label) : Sys * list ievent :=
  match ls with
  | [] => (s, [])
  | l :: ls' =>
      let '(s1, evs1) := step s l in
      let '(s2, evs2) := run s1 ls' in
      (s2, evs1 ++ evs2)
  end.

(** The service as Start leaves it: nothing queued, nothing in flight, no
    handler and no worker at work. *)
Definition started (m : Manager) : Sys :=
  mkSys (mkManager (cache m) [] ∅ (concurrency m)) [] [] false.

(** The raw IPs whose key is held: by a handler about to send, in the
    queue, or at a worker. *)
Definition holders (s : Sys) : list string :=
  pending s ++ queue (mgr s) ++ busy s.

(** The pairing discipline on the events of one key, as an automaton:
    [Some held] after a well paired trace, [held] telling whether a TryAdd
    is waiting for its Delete; [None] after a Delete without TryAdd or a
    second TryAdd before the Delete. *)
Definition pairStep (k : string) (st : option bool) (e : ievent) : option bool :=
  match st with
  | None => None
  | Some held =>
      match e with
      | TryAddOk k' => if decide (k' = k) then (if held then None else Some true) else st
      | Deleted k' => if decide (k' = k) then (if held then Some false else None) else st
      | _ => st
      end
  end.

Definition pairing (k : string) (trace : list ievent) : option bool :=
  fold_left (pairStep k) trace (Some false).

Definition isAdd (k : string) (e : ievent) : bool :=
  match e with TryAddOk k' => bool_decide (k' = k) | _ => false end.
Definition isDelete (k : string) (e : ievent) : bool :=
  match e with Deleted k' => bool_decide (k' = k) | _ => false end.

Definition countAdds (k : string) (trace : list ievent) : nat :=
  length (List.filter (isAdd k) trace).
Definition countDeletes (k : string) (trace : list ievent) : nat :=
  length (List.filter (isDelete k) trace).

(** The inflight set and the holders, and how a step of the service may
    change them: the step relation the service is shown to follow. *)
Definition quiet (e : ievent) : Prop :=
  match e with
  | TryAddOk _ | Deleted _ => False
  | _ => True
  end.

Inductive istep :
  gset string -> list string -> list ievent -> gset string -> list string -> Prop :=
| IQuiet infl h h' evs :
    Forall quiet evs -> h' ≡ₚ h -> istep infl h evs infl h'
| IAcquire infl h h' raw :
    getCacheKey raw ∉ infl -> h' ≡ₚ raw :: h ->
    istep infl h [TryAddOk (getCacheKey raw)] ({[getCacheKey raw]} ∪ infl) h'
| IRelease infl h h' raw evs :
    Forall quiet evs -> h ≡ₚ raw :: h' ->
    istep infl h (evs ++ [Deleted (getCacheKey raw)]) (infl ∖ {[getCacheKey raw]}) h'.

(** The keys in flight are exactly the keys of the holders, and no two
    holders have the same key. *)
Definition balanced (infl : gset string) (h : list string) : Prop :=
  NoDup (getCacheKey <$> h)
  /\ forall k, k ∈ infl <-> k ∈ getCacheKey <$> h.

End Worker.

(** ** package cache: the background tasks and the SQLite store

    The table ip_cache has key as its primary key, so it is a finite map
    from keys to rows. The statements the program runs on it are
    INSERT OR REPLACE, DELETE ... WHERE key = ?, DELETE ... WHERE exp < ?
    and SELECT ... WHERE exp > ?; they are modelled by what they do to
    that map. What the database answered to each call (an error or not)
    is given from outside: [txOutcome] for a transaction of flushBatch,
    [readIO] for the read-only connection. *)

Module Persistence.

Import CachePkg.

Definition persistBatchSize : nat := 100.

Record row := mkRow {
  rValue : string;
  rExp : Z;
  rRefreshAt : Z
}.

#[global] Instance row_eq_dec : EqDecision row.
Proof. solve_decision. Defined.

Definition table := gmap string row.

(** The ticker case of startCleanup: the clock is read once, then the
    shards are swept one after the other. *)
Definition cleanupAll (c : Cache) : Cache :=
  let now := now c in
  fold_left (fun c i => cleanupShard c i now) (seq 0 shardCount) c.

(** Every binding sits in the shard getShard selects for its key. *)
Definition placed (c : Cache) : Prop :=
  forall (i : nat) (k : string) (e : entry),
    shardAt c i !! k = Some e -> i = shardIndex k.

(** What an Exec of the loop of flushBatch writes when it succeeds. *)
Definition execOp (db : table) (op : persistenceOp) : table :=
  if IsDelete op then delete (Key op) db
  else <[Key op := mkRow (Value op) (Exp op) (RefreshAt op)]> db.

(** What the database answered during one call of flushBatch: whether
    Begin, the two Prepare and Commit succeeded, and the positions in the
    batch of the ops whose Exec returned an error. *)
Record txOutcome := mkTx {
  beginOk : bool;
  prepareInsertOk : bool;
  prepareDeleteOk : bool;
  execFailed : list nat;
  commitOk : bool
}.

(** One round of the loop of flushBatch, on the op at position [iop.1]:
    the result and the error of Exec are discarded; an Exec that failed
    has written nothing. *)
Definition execRound (failed : list nat) (db : table) (iop : nat * persistenceOp) : table :=
  if bool_decide (iop.1 ∈ failed) then db else execOp db iop.2.

(** flushBatch. [false] stands for an error returned. A failed Begin or
    Prepare returns before the loop (the Prepare after a Rollback); a
    transaction whose Commit fails leaves the table as it was. *)
Definition flushBatch (db : table) (batch : list persistenceOp) (tx : txOutcome)
  : table * bool :=
  if negb (beginOk tx) then (db, false)
  else if negb (prepareInsertOk tx) then (db, false)
  else if negb (prepareDeleteOk tx) then (db, false)
  else
    let db' := fold_left (execRound (execFailed tx)) (imap pair batch) db in
    if commitOk tx then (db', true) else (db, false).

(** flushBatch returns nil: Begin, the two Prepare and Commit succeeded. *)
Definition txOk (tx : txOutcome) : bool :=
  beginOk tx && prepareInsertOk tx && prepareDeleteOk tx && commitOk tx.

(** The ops of a batch whose Exec succeeded, in the order of the batch. *)
Definition executed (failed : list nat) (batch : list persistenceOp) : list persistenceOp :=
  (filter (fun iop : nat * persistenceOp => iop.1 ∉ failed) (imap pair batch)).*2.

(** A transaction in which nothing failed. *)
Definition lossless (tx : txOutcome) : bool :=
  txOk tx && bool_decide (execFailed tx = []).

(** The state of the writer goroutine of StartPersistence, once its
    connection is open: the table, the batch, and whether the loop was
    left. *)
Record Writer := mkWriter {
  db : table;
  batch : list persistenceOp;
  exited : bool
}.

(** The closure [flush]: the batch is emptied whether or not flushBatch
    returned an error. *)
Definition flush (w : Writer) (tx : txOutcome) : Writer :=
  match batch w with
  | [] => w
  | _ :: _ => mkWriter (flushBatch (db w) (batch w) tx).1 [] (exited w)
  end.

(** The closure [cleanExpired], [t] being what time.Now().UnixNano()
    returned and [deleted] whether the Exec of the DELETE succeeded; its
    error is discarded. *)
Definition cleanExpired (w : Writer) (t : Z) (deleted : bool) : Writer :=
  if deleted
  then mkWriter (filter (fun kr : string * row => ~ rExp kr.2 < t) (db w))
                (batch w) (exited w)
  else w.

(** The cases of the select of the writer loop. *)
Inductive writerEvent :=
| WOp                 (* case op := <-c.persistCh *)
| WTick               (* case <-ticker.C *)
| WCleanup (t : Z) (deleted : bool)    (* case <-cleanupTicker.C *)
| WStop.              (* case <-c.stop *)

(** One turn of the loop. A case that is not ready (an empty channel, a
    stop channel that is not closed) does not run. [tx] is the outcome
    of the transaction, if the turn flushes. *)
Definition writerStep (cw : Cache * Writer) (ev : writerEvent) (tx : txOutcome)
  : Cache * Writer :=
  let '(c, w) := cw in
  if exited w then cw
  else
    match ev with
    | WOp =>
        match Chan.recv (persistCh c) with
        | Some (op, ch) =>
            let w1 := mkWriter (db w) (batch w ++ [op]) false in
            (withPersistCh c ch,
             if (persistBatchSize <=? length (batch w1))%nat then flush w1 tx
             else w1)
        | None => cw
        end
    | WTick => (c, flush w tx)
    | WCleanup t deleted => (c, cleanExpired w t deleted)
    | WStop =>
        if stopped c then
          let w1 := flush w tx in
          (c, mkWriter (db w1) (batch w1) true)
        else cw
    end.

Fixpoint writerRun (cw : Cache * Writer) (evs : list (writerEvent * txOutcome))
  : Cache * Writer :=
  match evs with
  | [] => cw
  | (ev, tx) :: evs' => writerRun (writerStep cw ev tx) evs'
  end.

(** The rows a query [WHERE exp > t] selects. *)
Definition liveRows (db : table) (t : Z) : table :=
  filter (fun kr : string * row => t < rExp kr.2) db.

(** The loop of LoadFromSQLite over the rows of its query, in the order
    the database returned them; [seeds n] stands for the choice of the
    runtime if the SetWithTime of row [n] evicts. *)
Fixpoint loadRows (c : Cache) (n : nat) (seeds : nat -> nat) (rows : list (string * row))
  : Cache :=
  match rows with
  | [] => c
  | (k, r) :: rows' =>
      loadRows (SetWithTime c (seeds n) k (rValue r) (rExp r) (rRefreshAt r))
               (S n) seeds rows'
  end.

(** The entry SetWithTime stores for a row, and the number of rows of a
    list that getShard sends to the shard of index [i]. *)
Definition rowEntry (r : row) : entry := mkEntry (rValue r) (rExp r) (rRefreshAt r).

Definition rowsInto (i : nat) (rows : list (string * row)) : nat :=
  length (filter (fun kr : string * row => shardIndex kr.1 = i) rows).

(** [rows] is an answer to the query of LoadFromSQLite at time [t]: the
    selected rows in some order. *)
Definition queryAnswer (db : table) (t : Z) (rows : list (string * row)) : Prop :=
  rows ≡ₚ map_to_list (liveRows db t).

Definition LoadFromSQLite (c : Cache) (rows : list (string * row)) (seeds : nat -> nat)
  : Cache :=
  loadRows c 0 seeds rows.

(** The fields of the cache that hold the path of the database and the
    read-only connection. *)
Record Conn := mkConn {
  dbPath : string;
  roDB : bool          (* roDB != nil *)
}.

(** What happened around the read-only connection during one call of
    GetAllItems: whether sql.Open succeeded, if ensureReadOnlyDB had to
    open; whether Close set roDB to nil before GetAllItems read it; and
    what QueryContext returned: an error ([None]) or the rows, each with
    its key, its value and whether its Scan succeeded. *)
Record readIO := mkReadIO {
  openOk : bool;
  closedMeanwhile : bool;
  queried : option (list (string * string * bool))
}.

(** ensureReadOnlyDB: [false] for an error. *)
Definition ensureReadOnlyDB (c : Cache) (cn : Conn) (opened : bool) : Conn * bool :=
  if closed c =? 1 then (cn, false)
  else if roDB cn then (cn, true)
  else if seqb (dbPath cn) "" then (cn, false)
  else if opened then (mkConn (dbPath cn) true, true)
  else (cn, false).

(** The loop over the rows of GetAllItems: a row whose Scan fails is
    skipped. *)
Definition scanRows (rows : list (string * string * bool)) : gmap string string :=
  fold_left (fun (res : gmap string string) (r : string * string * bool) =>
               if r.2 then <[r.1.1 := r.1.2]> res else res) rows ∅.

(** GetAllItems (GetAllItemsContext with the background context): [None]
    for an error. *)
Definition GetAllItems (c : Cache) (cn : Conn) (io : readIO)
  : Conn * option (gmap string string) :=
  let '(cn', ok) := ensureReadOnlyDB c cn (openOk io) in
  if negb ok then (cn', None)
  else if closedMeanwhile io then (mkConn (dbPath cn') false, None)
  else
    match queried io with
    | None => (cn', None)
    | Some rows => (cn', Some (scanRows rows))
    end.

(** [rows] is an answer to the query of GetAllItems on the table [db]
    with the clock at [t]: key and value of the selected rows, in some
    order. *)
Definition selectAnswer (db : table) (t : Z) (rows : list (string * string * bool)) : Prop :=
  rows.*1 ≡ₚ map_to_list (rValue <$> liveRows db t).

(** *** The cache and its writer together

    A step is an operation on the cache or a turn of the writer loop. *)
Inductive plabel :=
| PCache (op : cacheOp)
| PWriter (ev : writerEvent) (tx : txOutcome).

Definition pstep (cw : Cache * Writer) (l : plabel) : option (Cache * Writer) :=
  match l with
  | PCache op =>
      match applyOp cw.1 op with
      | Some c' => Some (c', cw.2)
      | None => None
      end
  | PWriter ev tx => Some (writerStep cw ev tx)
  end.

Fixpoint prun (cw : Cache * Writer) (ls : list plabel) : option (Cache * Writer) :=
  match ls with
  | [] => Some cw
  | l :: ls' =>
      match pstep cw l with
      | Some cw' => prun cw' ls'
      | None => None
      end
  end.

(** A step on the way of which nothing is lost: the cache operation is
    one of the program (the receive from the channel is the writer's, and
    SetWithTime is for loading), nothing fails in the transaction of a
    flush, neither Begin, Prepare, Commit nor an Exec, and the store is
    not cleaned. *)
Definition faithful (l : plabel) : Prop :=
  match l with
  | PCache (OpSetWithTime _ _ _ _ _) | PCache OpRecvPersist => False
  | PCache _ => True
  | PWriter (WCleanup _ _) _ => False
  | PWriter _ tx => lossless tx = true
  end.

(** A run of faithful steps during which DroppedCount never moves. *)
Fixpoint steady (cw : Cache * Writer) (ls : list plabel) : Prop :=
  match ls with
  | [] => True
  | l :: ls' =>
      faithful l
      /\ match pstep cw l with
         | Some cw' => DroppedCount cw'.1 = DroppedCount cw.1 /\ steady cw' ls'
         | None => False
         end
  end.

(** The table once the batch and the channel have been written to it. *)
Definition durable (cw : Cache * Writer) : table :=
  fold_left execOp (batch cw.2 ++ persistCh cw.1) (db cw.2).

End Persistence.

(** ** Dotted decimal

    The spelling net.IP.String gives an IPv4 address: the four octets in
    decimal without leading zeros, separated by dots; and the first three
    of them, the spelling of its /24. *)

Module Dotted.

Definition dotted (a b c d : N) : string :=
  pretty a +:+ "." +:+ pretty b +:+ "." +:+ pretty c +:+ "." +:+ pretty d.

Definition prefix24 (a b c : N) : string :=
  pretty a +:+ "." +:+ pretty b +:+ "." +:+ pretty c.

(** What the program needs of the decimal spelling of an octet: the digit
    loop of parseIPv4Fields reads it back as the octet, whatever follows;
    it is not empty, it is made of digits, and it has no dot. *)
Definition octetOk (a : N) : Prop :=
  (forall rest st pd fields,
      Netip.parseIPv4Fields (sbytes (pretty a) ++ rest) st pd 0 0%nat fields
      = Netip.parseIPv4Fields rest false false (Z.of_N a)
                              (length (sbytes (pretty a))) fields)
  /\ sbytes (pretty a) <> []
  /\ forallb Netip.isDigit (sbytes (pretty a)) = true
  /\ Worker.dots (pretty a) = 0%nat.

End Dotted.

(** ** package worker: one worker on the queue

    The labels of a worker goroutine that is alone on the queue: its loop
    receives an item and runs the closure on it, again and again.
    [outcomes] gives, for each turn, what the fetch did and the choice of
    the runtime if Set evicts. *)

Module WorkerLoop.

Import Worker.

Fixpoint workerLoop (outcomes : list (fetchResult * nat)) : list label :=
  match outcomes with
  | [] => []
  | (res, seed) :: outcomes' => LReceive :: LWork 0 res seed :: workerLoop outcomes'
  end.

Definition panics (o : fetchResult * nat) : bool :=
  match o.1 with FetchPanic => true | _ => false end.

End WorkerLoop.

(** ** package monitor

    The counters of the upstream calls and the status endpoint. A
    time.Time is the instant it denotes, in nanoseconds; the zero Time is
    [None]. The uptime string of the status report is left out. *)

Module Monitor.

Record Monitor := mkMonitor {
  StartTime : Z;
  TotalRequests : Z;
  SuccessCount : Z;
  FailCount : Z;
  ConsecutiveErr : Z;
  LastError : string;
  LastErrorTime : option Z;
  LastFailIP : string;
  RemainingRequestNum : Z;
  CacheItemCount : Z
}.

(** New, [t] being what time.Now() returned. *)
Definition New (t : Z) : Monitor :=
  mkMonitor t 0 0 0 0 "" None "" (-1) 0.

Definition RecordSuccess (m : Monitor) : Monitor :=
  mkMonitor (StartTime m) (GoInt.add64 (TotalRequests m) 1)
            (GoInt.add64 (SuccessCount m) 1) (FailCount m) 0
            (LastError m) (LastErrorTime m) (LastFailIP m)
            (RemainingRequestNum m) (CacheItemCount m).

Definition RecordFailure (m : Monitor) (ip errMsg : string) (t : Z) : Monitor :=
  mkMonitor (StartTime m) (GoInt.add64 (TotalRequests m) 1)
            (SuccessCount m) (GoInt.add64 (FailCount m) 1)
            (GoInt.add64 (ConsecutiveErr m) 1)
            errMsg (Some t) ip
            (RemainingRequestNum m) (CacheItemCount m).

Definition withQuota (m : Monitor) (q : Z) : Monitor :=
  mkMonitor (StartTime m) (TotalRequests m) (SuccessCount m) (FailCount m)
            (ConsecutiveErr m) (LastError m) (LastErrorTime m) (LastFailIP m)
            q (CacheItemCount m).

Definition withCacheCount (m : Monitor) (n : Z) : Monitor :=
  mkMonitor (StartTime m) (TotalRequests m) (SuccessCount m) (FailCount m)
            (ConsecutiveErr m) (LastError m) (LastErrorTime m) (LastFailIP m)
            (RemainingRequestNum m) n.

Definition StatusOK : Z := 200.
Definition StatusInternalServerError : Z := 500.

(** The report HandleStatus encodes: the health flag and the snapshot of
    the monitor. *)
Record Report := mkReport {
  Healthy : bool;
  MonitorData : Monitor
}.

(** HandleStatus. [quota] and [cacheCount] are what the fetchers returned,
    [None] for a fetcher that is not set. The result is the monitor, the
    status written and the report encoded. *)
Definition HandleStatus (m : Monitor) (quota cacheCount : option Z)
  : Monitor * Z * Report :=
  let m :=
    match quota with
    | Some newQuota => if 0 <=? newQuota then withQuota m newQuota else m
    | None => m
    end in
  let m :=
    match cacheCount with
    | Some count => withCacheCount m count
    | None => m
    end in
  let healthy := ConsecutiveErr m <? 3 in
  (m, if healthy then StatusOK else StatusInternalServerError, mkReport healthy m).

(** What a provider reports after a call of Fetch. *)
Inductive outcome :=
| Succeeded
| Failed (ip errMsg : string) (t : Z).

Definition record (m : Monitor) (o : outcome) : Monitor :=
  match o with
  | Succeeded => RecordSuccess m
  | Failed ip errMsg t => RecordFailure m ip errMsg t
  end.

Definition isFailure (o : outcome) : bool :=
  match o with Failed _ _ _ => true | Succeeded => false end.

(** The number of failures since the last success, the newest outcome
    being the last of the list. *)
Fixpoint failuresAtEnd (os : list outcome) : nat :=
  match os with
  | [] => 0
  | o :: os' =>
      if forallb isFailure os' then (if isFailure o then S (length os') else failuresAtEnd os')
      else failuresAtEnd os'
  end.

End Monitor.

(** ** package worker: the statistics page *)

Module Statistics.

Import CachePkg Persistence Worker.

(** sort.Strings: the strings in increasing order, compared byte by
    byte. *)
Definition sortStrings (l : list string) : list string := merge_sort String.le l.

(** strings.Join. *)
Fixpoint Join (elems : list string) (sep : string) : string :=
  match elems with
  | [] => ""
  | [x] => x
  | x :: rest => x +:+ sep +:+ Join rest sep
  end.

(** The double quote. *)
Definition dq : string := String (Ascii.ascii_of_nat 34) EmptyString.

(** The loop that fills [stats]: stats[v] = append(stats[v], k), for the
    items in the order of the map iteration. *)
Definition addItem (stats : gmap string (list string)) (kv : string * string)
  : gmap string (list string) :=
  <[kv.2 := default [] (stats !! kv.2) ++ [kv.1]]> stats.

Definition groupByTag (its : list (string * string)) : gmap string (list string) :=
  fold_left addItem its ∅.

(** The tags, collected by ranging over [stats], then sorted. *)
Definition sortedTags (stats : gmap string (list string)) : list string :=
  sortStrings (map_to_list stats).*1.

(** A tag with its keys, sorted: what a row of the table shows. *)
Definition statRows (its : list (string * string)) : list (string * list string) :=
  let stats := groupByTag its in
  (fun tag => (tag, sortStrings (default [] (stats !! tag)))) <$> sortedTags stats.

(** At most 50 keys are displayed, followed by the number of the others. *)
Definition displayKeys (keys : list string) : list string :=
  if (50 <? length keys)%nat
  then take 50 keys ++ ["... and " +:+ pretty (Z.of_nat (length keys) - 50) +:+ " others"]
  else keys.

Definition renderRow (r : string * list string) : string :=
  "<tr><td>" +:+ r.1 +:+ "</td><td>" +:+ Join (displayKeys r.2) ", "
  +:+ " <br/>(Count: " +:+ pretty (Z.of_nat (length r.2)) +:+ ")</td></tr>".

Definition pageHead (total : Z) (cls : string) (dropped : Z) : string :=
  "<html>
<head>
    <title>IP Cache Statistics</title>
    <style>
        body { font-family: sans-serif; }
        table { border-collapse: collapse; width: 100%; }
        th, td { border: 1px solid #ddd; padding: 8px; text-align: left; }
        th { background-color: #f2f2f2; }
        .metric { margin-bottom: 20px; font-weight: bold; }
        .warn { color: red; }
    </style>
</head>
<body>
    <h1>IP Cache Statistics</h1>
    <div class=" +:+ dq +:+ "metric" +:+ dq +:+ ">
        <p>Total Cached Items: " +:+
  pretty total +:+
  "</p>
        <p>Dropped Updates (Disk Pressure): <span class=" +:+ dq +:+
  cls +:+
  dq +:+ ">" +:+
  pretty dropped +:+
  "</span></p>
    </div>
    <table>
        <tr>
            <th>Tag</th>
            <th>IP Ranges (Count)</th>
        </tr>".

Definition pageFoot : string := "</table></body></html>".

Fixpoint concatStrings (l : list string) : string :=
  match l with
  | [] => ""
  | s :: l' => s +:+ concatStrings l'
  end.

(** The page for the items [its], in the order the map iteration yields
    them. *)
Definition statisticsPage (its : list (string * string)) (droppedCount : Z) : string :=
  pageHead (Z.of_nat (length its)) (if 0 <? droppedCount then "warn" else "") droppedCount
  +:+ concatStrings (renderRow <$> statRows its)
  +:+ pageFoot.

Definition StatusInternalServerError : Z := 500.

(** HandleStatistics. [range items] is the order in which the runtime
    iterates over the items GetAllItems returned. http.Error ends its
    message with a newline. *)
Definition HandleStatistics (m : Manager) (cn : Conn) (io : readIO)
           (range : gmap string string -> list (string * string)) : Conn * Response :=
  match GetAllItems (cache m) cn io with
  | (cn', None) =>
      (cn', mkResp StatusInternalServerError
                   ("Failed to retrieve statistics from database" +:+ String "010"%char ""))
  | (cn', Some items) =>
      (cn', mkResp StatusOK (statisticsPage (range items) (DroppedCount (cache m))))
  end.

Definition GetCacheCount (m : Manager) : Z := Count (cache m).

End Statistics.

(** ** package provider: Fetch

    What Fetch does with the outcome of the HTTP exchange. The exchange
    itself (the request, its signature, the network) and the JSON decoder
    are outside: [exchange] is what they produced. *)

Module Provider.

Import Monitor.

Record TencentCloudConfig := mkConfig {
  SecretID : string;
  SecretKey : string
}.

(** The fields Fetch decodes from the body. The provider 30498 names the
    province region; the provider 38599 names it prov and also decodes a
    success flag. *)
Record apiResp := mkApiResp {
  Code : Z;
  Msg : string;
  Success : bool;
  Prov : string;
  ISP : string
}.

Inductive exchange :=
| RequestError (err : string)                 (* the request failed *)
| Undecodable (err : string) (body : string)  (* json.Unmarshal failed on the body *)
| Decoded (r : apiResp).                      (* the body and what it decodes to *)

(** DoRequest: the credentials are checked before anything is sent. *)
Definition DoRequest (cfg : TencentCloudConfig) (net : exchange) : exchange :=
  if seqb (SecretID cfg) "" || seqb (SecretKey cfg) ""
  then RequestError "凭证缺失: SecretId 或 SecretKey 为空"
  else net.

Definition apiError (r : apiResp) : string :=
  "API 错误 | 代码: " +:+ pretty (Code r) +:+ " | 信息: " +:+ Msg r.

(** Fetch of the provider 30498. [t] is the time RecordFailure reads. *)
Definition Fetch_30498 (mon : Monitor) (cfg : TencentCloudConfig) (ip : string)
           (net : exchange) (t : Z) : Monitor * option Model.IPInfo :=
  match DoRequest cfg net with
  | RequestError err => (RecordFailure mon ip ("请求失败: " +:+ err) t, None)
  | Undecodable err _ => (RecordFailure mon ip ("JSON解析失败: " +:+ err) t, None)
  | Decoded r =>
      if negb (Code r =? 200) then (RecordFailure mon ip (apiError r) t, None)
      else (RecordSuccess mon, Some (Model.newIPInfo (Prov r) (ISP r)))
  end.

(** Fetch of the provider 38599. *)
Definition Fetch_38599 (mon : Monitor) (cfg : TencentCloudConfig) (ip : string)
           (net : exchange) (t : Z) : Monitor * option Model.IPInfo :=
  match DoRequest cfg net with
  | RequestError err => (RecordFailure mon ip ("请求失败: " +:+ err) t, None)
  | Undecodable err body =>
      (RecordFailure mon ip ("JSON解析失败: " +:+ err +:+ " | body: " +:+ body) t, None)
  | Decoded r =>
      if negb (Code r =? 200) then (RecordFailure mon ip (apiError r) t, None)
      else (RecordSuccess mon, Some (Model.newIPInfo (Prov r) (ISP r)))
  end.

(** NewProviderByName: the provider of that name, or an error. *)
Inductive providerKind := P38599 | P30498.

Definition NewProviderByName (name : string) : option providerKind :=
  if seqb name "38599" then Some P38599
  else if seqb name "30498" then Some P30498
  else None.

Definition Fetch (k : providerKind) :=
  match k with
  | P38599 => Fetch_38599
  | P30498 => Fetch_30498
  end.

End Provider.

(** ** package model, the earlier version

    The file of package model also holds the version the trie replaced:
    exact look-ups in two maps, after the ISP and the province name have
    been brought to the spelling the maps use. *)

Module ModelV1.

Record IPInfo := mkIPInfo {
  Province : string;
  ISP : string
}.

Definition provinceMap : list (string * string) :=
  [("北京市", "beijing"); ("天津市", "tianjin"); ("河北省", "hebei");
   ("山西省", "shanxi"); ("内蒙古自治区", "neimenggu"); ("内蒙古", "neimenggu");
   ("辽宁省", "liaoning"); ("吉林省", "jilin"); ("黑龙江省", "heilongjiang");
   ("上海市", "shanghai"); ("江苏省", "jiangsu"); ("浙江省", "zhejiang");
   ("安徽省", "anhui"); ("福建省", "fujian"); ("江西省", "jiangxi");
   ("山东省", "shandong"); ("河南省", "henan"); ("湖北省", "hubei");
   ("湖南省", "hunan"); ("广东省", "guangdong"); ("广西壮族自治区", "guangxi");
   ("广西", "guangxi"); ("海南省", "hainan"); ("重庆市", "chongqing");
   ("四川省", "sichuan"); ("贵州省", "guizhou"); ("云南省", "yunnan");
   ("西藏自治区", "xizang"); ("西藏", "xizang"); ("陕西省", "shaanxi");
   ("甘肃省", "gansu"); ("青海省", "qinghai"); ("宁夏回族自治区", "ningxia");
   ("宁夏", "ningxia"); ("新疆维吾尔自治区", "xinjiang"); ("新疆", "xinjiang");
   ("香港", "hk"); ("澳门", "mo"); ("台湾", "tw")].

Definition ispMap : list (string * string) :=
  [("中国电信", "ct"); ("中国移动", "cmcc"); ("中国联通", "cu"); ("教育网", "edu");
   ("长城宽带", "gwbn"); ("广电网", "cbn"); ("铁通", "cmcc")].

(** The look-up [m[key]] in a map given by its entries. *)
Definition lookupMap (m : list (string * string)) (key : string) : option string :=
  (list_to_map m : gmap string string) !! key.

(** strings.HasSuffix. *)
Definition HasSuffix (s suffix : string) : bool :=
  (String.length suffix <=? String.length s)%nat
  && seqb (sdrop (String.length s - String.length suffix) s) suffix.

Definition withISP (i : IPInfo) (s : string) : IPInfo := mkIPInfo (Province i) s.
Definition withProvince (i : IPInfo) (p : string) : IPInfo := mkIPInfo p (ISP i).

Definition standardizeISP (i : IPInfo) : IPInfo :=
  let raw := Strings.ToUpper (ISP i) in
  if Strings.Contains raw "电信" || Strings.Contains raw "TELECOM"
     || Strings.Contains raw "CHINANET" then withISP i "中国电信"
  else if Strings.Contains raw "联通" || Strings.Contains raw "UNICOM"
  then withISP i "中国联通"
  else if Strings.Contains raw "移动" || Strings.Contains raw "MOBILE"
          || Strings.Contains raw "TIETONG" || Strings.Contains raw "铁通"
  then withISP i "中国移动"
  else if Strings.Contains raw "教育" || Strings.Contains raw "EDU"
  then withISP i "教育网"
  else if Strings.Contains raw "长城" || Strings.Contains raw "GWBN"
  then withISP i "长城宽带"
  else if Strings.Contains raw "广电" || Strings.Contains raw "CABLE"
  then withISP i "广电网"
  else i.

Definition specialRegions : list string :=
  ["北京"; "上海"; "天津"; "重庆"; "内蒙古"; "广西"; "西藏"; "宁夏"; "新疆";
   "香港"; "澳门"; "台湾"].

Definition standardizeProvince (i : IPInfo) : IPInfo :=
  if seqb (Province i) "" then i
  else
    let name := Strings.TrimSpace (Province i) in
    let isSpecial := existsb (fun r => Strings.HasPrefix name r) specialRegions in
    let name := if negb isSpecial && negb (HasSuffix name "省") then name +:+ "省"
                else name in
    let name := if (seqb name "北京" || seqb name "上海" || seqb name "天津"
                    || seqb name "重庆") && negb (HasSuffix name "市")
                then name +:+ "市" else name in
    withProvince i name.

Definition Standardize (i : IPInfo) : IPInfo := standardizeProvince (standardizeISP i).

Definition ToTag (i : IPInfo) : string :=
  match lookupMap provinceMap (Province i), lookupMap ispMap (ISP i) with
  | Some provCode, Some ispCode => provCode +:+ "_" +:+ ispCode
  | _, _ => "fallback"
  end.

(** What a worker of that version stored for a provider answer. *)
Definition normalize (province isp : string) : string :=
  ToTag (Standardize (mkIPInfo province isp)).

End ModelV1.

(** * Facts

    ** Integers and bytes *)

Import GoInt.

Lemma wrap64_id z : isInt64 z -> wrap64 z = z.
Proof.
  unfold isInt64, minInt64, maxInt64, wrap64. intros H.
  rewrite Z.mod_small by lia. lia.
Qed.

Lemma wrap64_range z : isInt64 (wrap64 z).
Proof.
  unfold isInt64, minInt64, maxInt64, wrap64.
  pose proof (Z.mod_pos_bound (z + 2 ^ 63) (2 ^ 64)). lia.
Qed.

Lemma add64_exact a b : isInt64 (a + b) -> add64 a b = a + b.
Proof. apply wrap64_id. Qed.

Lemma sub64_exact a b : isInt64 (a - b) -> sub64 a b = a - b.
Proof. apply wrap64_id. Qed.

Lemma add64_sub64_1 a : isInt64 a -> add64 (add64 a (-1)) 1 = a.
Proof.
  intros H. unfold add64, wrap64.
  replace ((a + -1 + 2 ^ 63) mod 2 ^ 64 - 2 ^ 63 + 1 + 2 ^ 63)
    with ((a + -1 + 2 ^ 63) mod 2 ^ 64 + 1) by lia.
  rewrite Z.add_mod_idemp_l by lia.
  replace (a + -1 + 2 ^ 63 + 1) with (a + 2 ^ 63) by lia.
  apply wrap64_id in H. unfold wrap64 in H. exact H.
Qed.

Lemma byteZ_range a : 0 <= byteZ a < 256.
Proof.
  unfold byteZ. pose proof (N_ascii_bounded a). lia.
Qed.

Lemma byteOfZ_byteZ a : byteOfZ (byteZ a) = a.
Proof.
  unfold byteOfZ. rewrite Z.mod_small by apply byteZ_range.
  unfold byteZ. rewrite N2Z.id. apply ascii_N_embedding.
Qed.

(** ** The cache *)

Import CachePkg.

(** On a live entry whose expiry and clock are such that their difference
    fits int64 (any clock reading that is not negative), the remaining time
    is the mathematical difference. *)
Lemma Get_remaining_exact (c : Cache) (key : string) (e : entry) :
  getShard c key !! key = Some e -> now c < exp e -> isInt64 (exp e) -> 0 <= now c ->
  (Get c key).2 = exp e - now c.
Proof.
  intros He Hlt Hexp Hnow. unfold Get. rewrite He.
  apply Z.leb_gt in Hlt as Hb. rewrite Hb. simpl.
  apply sub64_exact. unfold isInt64, minInt64, maxInt64 in *. lia.
Qed.

(** *** The persistence channel *)

Ltac unfold_cache :=
  unfold Set_, SetWithTime, Delete, cleanupShard, tick, recvPersist, Close,
    insertNew, evictOne, sendToPersist, setShard, Chan.trySend, Chan.recv,
    withShards, withCount, withDropped, withNow, withPersistCh, withClosed, emit in *.

Ltac crush_cache :=
  unfold_cache; simpl in *; repeat (case_match; simpl in *; simplify_eq); auto.

Lemma sendToPersist_frame (c : Cache) (op : persistenceOp) :
  shards (sendToPersist c op) = shards c
  /\ ttl (sendToPersist c op) = ttl c
  /\ refreshWindow (sendToPersist c op) = refreshWindow c
  /\ shardCap (sendToPersist c op) = shardCap c
  /\ count (sendToPersist c op) = count c
  /\ now (sendToPersist c op) = now c
  /\ closed (sendToPersist c op) = closed c
  /\ stopped (sendToPersist c op) = stopped c
  /\ log (sendToPersist c op) = log c ++ [EvPersist op].
Proof. crush_cache; repeat split; reflexivity. Qed.

Lemma sendToPersist_dropped (c : Cache) (op : persistenceOp) :
  closed c = 1 \/ (persistChCap <= length (persistCh c))%nat ->
  persistCh (sendToPersist c op) = persistCh c
  /\ droppedUpdates (sendToPersist c op) = add64 (droppedUpdates c) 1.
Proof.
  intros H. unfold sendToPersist, Chan.trySend. simpl.
  destruct (closed c =? 1) eqn:Hc; [split; reflexivity|].
  destruct H as [H|H]; [apply Z.eqb_neq in Hc; contradiction|].
  assert (Hf : (length (persistCh c) <? persistChCap)%nat = false)
    by (apply Nat.ltb_ge; exact H).
  rewrite Hf. split; reflexivity.
Qed.

Lemma sendToPersist_accepted (c : Cache) (op : persistenceOp) :
  closed c <> 1 -> (length (persistCh c) < persistChCap)%nat ->
  persistCh (sendToPersist c op) = persistCh c ++ [op]
  /\ droppedUpdates (sendToPersist c op) = droppedUpdates c.
Proof.
  intros Hc Hl. unfold sendToPersist, Chan.trySend. simpl.
  apply Z.eqb_neq in Hc. rewrite Hc.
  apply Nat.ltb_lt in Hl. rewrite Hl. split; reflexivity.
Qed.

Lemma insertNew_frame (c : Cache) (seed : nat) (key : string) (e : entry) :
  ttl (insertNew c seed key e) = ttl c
  /\ refreshWindow (insertNew c seed key e) = refreshWindow c
  /\ shardCap (insertNew c seed key e) = shardCap c
  /\ droppedUpdates (insertNew c seed key e) = droppedUpdates c
  /\ now (insertNew c seed key e) = now c
  /\ closed (insertNew c seed key e) = closed c
  /\ stopped (insertNew c seed key e) = stopped c
  /\ persistCh (insertNew c seed key e) = persistCh c
  /\ log (insertNew c seed key e) = log c.
Proof.
  unfold insertNew.
  destruct (if shardCap c <=? Z.of_nat (size (shardAt c (shardIndex key)))
            then evictOne seed (shardAt c (shardIndex key)) (count c)
            else (shardAt c (shardIndex key), count c)) as [s1 cnt1].
  repeat split; reflexivity.
Qed.

Lemma sendToPersist_when_closed (c : Cache) (op : persistenceOp) :
  closed c = 1 ->
  closed (sendToPersist c op) = 1 /\ persistCh (sendToPersist c op) = persistCh c.
Proof.
  intros Hc. destruct (sendToPersist_frame c op) as (_ & _ & _ & _ & _ & _ & Hcl & _).
  split; [rewrite Hcl; exact Hc|].
  apply sendToPersist_dropped. left. exact Hc.
Qed.

(** Once the flag is set, no operation resets it and none adds to the
    channel: its content can only be consumed. *)
Lemma applyOp_closed (c c' : Cache) (o : cacheOp) :
  applyOp c o = Some c' -> closed c = 1 ->
  closed c' = 1 /\ exists n, persistCh c' = drop n (persistCh c).
Proof.
  intros Ho Hc.
  assert (Hsame : forall c1 : Cache, closed c1 = 1 /\ persistCh c1 = persistCh c ->
            closed c1 = 1 /\ exists n, persistCh c1 = drop n (persistCh c)).
  { intros c1 [H1 H2]. split; [exact H1 | exists 0%nat; rewrite drop_0; exact H2]. }
  assert (Hsend : forall (c1 : Cache) op, closed c1 = 1 -> persistCh c1 = persistCh c ->
            closed (sendToPersist c1 op) = 1
            /\ persistCh (sendToPersist c1 op) = persistCh c).
  { intros c1 op H1 H2. destruct (sendToPersist_when_closed c1 op H1) as [? Hp].
    split; [assumption | rewrite Hp; exact H2]. }
  assert (Hins : forall seed key e,
            closed (insertNew (emit c [EvLock (shardIndex key)]) seed key e) = 1
            /\ persistCh (insertNew (emit c [EvLock (shardIndex key)]) seed key e)
               = persistCh c).
  { intros seed key e.
    destruct (insertNew_frame (emit c [EvLock (shardIndex key)]) seed key e)
      as (_ & _ & _ & _ & _ & -> & _ & -> & _).
    split; [exact Hc|reflexivity]. }
  destruct o; cbn [applyOp] in Ho; simplify_eq.
  - unfold Set_. destruct (shardAt _ _ !! key); apply Hsame, Hsend;
      cbn [emit closed persistCh setShard withShards];
      first [exact Hc | reflexivity | apply Hins].
  - unfold SetWithTime. destruct (shardAt _ _ !! key); apply Hsame;
      cbn [emit closed persistCh setShard withShards];
      first [split; [exact Hc|reflexivity] | apply Hins].
  - unfold Delete. destruct (shardAt _ _ !! key); apply Hsame;
      cbn [emit closed persistCh].
    + apply Hsend; [exact Hc|reflexivity].
    + split; [exact Hc|reflexivity].
  - unfold cleanupShard. destruct (fold_left _ _ _). apply Hsame.
    split; [exact Hc|reflexivity].
  - apply Hsame. split; [exact Hc|reflexivity].
  - unfold recvPersist, Chan.recv. destruct (persistCh c) as [|x ch] eqn:E; simpl.
    + rewrite E. split; [exact Hc | exists 0%nat; reflexivity].
    + split; [exact Hc | exists 1%nat; reflexivity].
  - unfold Close in Ho. destruct (stopped c); simplify_eq. simpl.
    split; [reflexivity | exists 0%nat; reflexivity].
Qed.

Lemma runOps_closed (os : list cacheOp) (c c' : Cache) :
  runOps c os = Some c' -> closed c = 1 ->
  closed c' = 1 /\ exists n, persistCh c' = drop n (persistCh c).
Proof.
  revert c. induction os as [|o os IH]; intros c Hr Hc; simpl in Hr.
  - simplify_eq. split; [exact Hc | exists 0%nat; reflexivity].
  - destruct (applyOp c o) as [c1|] eqn:Ho; [|discriminate].
    destruct (applyOp_closed _ _ _ Ho Hc) as [Hc1 [n1 Hn1]].
    destruct (IH _ Hr Hc1) as [Hc' [n2 Hn2]].
    split; [exact Hc'|]. exists (n1 + n2)%nat.
    rewrite Hn2, Hn1, drop_drop. reflexivity.
Qed.

Lemma Close_closed (c c1 : Cache) : Close c = Some c1 -> closed c1 = 1.
Proof. unfold Close. destruct (stopped c); intros H; simplify_eq. reflexivity. Qed.

(** C5. sendToPersist is a total function of the state (it never waits):
    when the closed flag is set or the channel is full the op is dropped
    and droppedUpdates grows by exactly one, otherwise the op is appended
    to the channel and the counter is unchanged. After Close, whatever
    operations follow, the channel receives no further op: its content is
    a suffix of what it held at Close, and every send is counted as
    dropped. *)
Theorem C5_sendToPersist_drop_or_enqueue (c : Cache) (op : persistenceOp) :
  (closed c = 1 \/ (persistChCap <= length (persistCh c))%nat ->
   persistCh (sendToPersist c op) = persistCh c
   /\ droppedUpdates (sendToPersist c op) = add64 (droppedUpdates c) 1)
  /\ (closed c <> 1 /\ (length (persistCh c) < persistChCap)%nat ->
      persistCh (sendToPersist c op) = persistCh c ++ [op]
      /\ droppedUpdates (sendToPersist c op) = droppedUpdates c)
  /\ (forall c1 os c2,
        Close c = Some c1 -> runOps c1 os = Some c2 ->
        (exists n, persistCh c2 = drop n (persistCh c1))
        /\ persistCh (sendToPersist c2 op) = persistCh c2
        /\ droppedUpdates (sendToPersist c2 op) = add64 (droppedUpdates c2) 1).
Proof.
  split; [apply sendToPersist_dropped|].
  split; [intros [? ?]; apply sendToPersist_accepted; assumption|].
  intros c1 os c2 Hclose Hrun.
  destruct (runOps_closed _ _ _ Hrun (Close_closed _ _ Hclose)) as [Hc2 Hn].
  split; [exact Hn|]. apply sendToPersist_dropped. left. exact Hc2.
Qed.

(** *** Shards *)

Lemma shardIndex_lt (key : string) : (shardIndex key < shardCount)%nat.
Proof.
  unfold shardIndex, shardCount, shardMask.
  assert (H : 0 <= Z.land (fnv1a key) 255 < 256).
  { change 255 with (Z.ones 8). rewrite Z.land_ones by lia.
    apply Z.mod_pos_bound. lia. }
  lia.
Qed.

Lemma shardAt_setShard_eq (c : Cache) (i : nat) (s : gmap string entry) :
  (i < length (shards c))%nat -> shardAt (setShard c i s) i = s.
Proof.
  intros H. unfold shardAt, setShard. simpl.
  rewrite list_lookup_insert_eq by exact H. reflexivity.
Qed.

Lemma shardAt_setShard_ne (c : Cache) (i j : nat) (s : gmap string entry) :
  i <> j -> shardAt (setShard c i s) j = shardAt c j.
Proof.
  intros H. unfold shardAt, setShard. simpl.
  rewrite list_lookup_insert_ne by exact H. reflexivity.
Qed.

Lemma rangeFirst_Some (seed : nat) (items : gmap string entry) (k : string) :
  rangeFirst seed items = Some k -> exists e, items !! k = Some e.
Proof.
  unfold rangeFirst. intros H.
  destruct (map_to_list items !! (seed `mod` size items)%nat) as [[k' e]|] eqn:E;
    simpl in H; simplify_eq.
  exists e. apply elem_of_map_to_list. eapply list_elem_of_lookup_2. exact E.
Qed.

Lemma rangeFirst_nonempty (seed : nat) (items : gmap string entry) :
  (0 < size items)%nat -> exists k, rangeFirst seed items = Some k.
Proof.
  intros H. unfold rangeFirst.
  assert (Hlt : (seed `mod` size items < length (map_to_list items))%nat).
  { rewrite length_map_to_list. apply Nat.mod_upper_bound. lia. }
  apply lookup_lt_is_Some_2 in Hlt. destruct Hlt as [[k e] Hke].
  exists k. rewrite Hke. reflexivity.
Qed.

(** Every binding of a shard is the one the runtime may pick. *)
Lemma rangeFirst_any (items : gmap string entry) (k : string) (e : entry) :
  items !! k = Some e -> exists seed, rangeFirst seed items = Some k.
Proof.
  intros H. apply elem_of_map_to_list in H.
  apply list_elem_of_lookup_1 in H. destruct H as [n Hn].
  exists n. unfold rangeFirst.
  assert (Hlt : (n < size items)%nat).
  { rewrite <- length_map_to_list. eapply lookup_lt_Some. exact Hn. }
  rewrite Nat.mod_small by exact Hlt. rewrite Hn. reflexivity.
Qed.

(** The state insertNew leaves, by cases on the room in the shard. *)
Lemma insertNew_shard (c : Cache) (seed : nat) (key : string) (e : entry) :
  wf c ->
  let s := getShard c key in
  if decide (shardCap c <= Z.of_nat (size s))
  then exists victim old, s !! victim = Some old
         /\ rangeFirst seed s = Some victim
         /\ getShard (insertNew c seed key e) key = <[key := e]> (delete victim s)
         /\ count (insertNew c seed key e) = add64 (add64 (count c) (-1)) 1
  else getShard (insertNew c seed key e) key = <[key := e]> s
       /\ count (insertNew c seed key e) = add64 (count c) 1.
Proof.
  intros [Hlen Hcap] s. unfold insertNew. fold (getShard c key). fold s.
  pose proof (shardIndex_lt key) as Hi. rewrite <- Hlen in Hi.
  destruct (decide (shardCap c <= Z.of_nat (size s))) as [Hfull|Hroom].
  - assert (Hb : (shardCap c <=? Z.of_nat (size s)) = true) by (apply Z.leb_le; lia).
    rewrite Hb.
    destruct (rangeFirst_nonempty seed s ltac:(lia)) as [victim Hv].
    destruct (rangeFirst_Some _ _ _ Hv) as [old Hold].
    exists victim, old. unfold evictOne. rewrite Hv. simpl.
    split; [exact Hold|]. split; [reflexivity|]. split; [|reflexivity].
    unfold getShard. apply (shardAt_setShard_eq c). exact Hi.
  - assert (Hb : (shardCap c <=? Z.of_nat (size s)) = false) by (apply Z.leb_gt; lia).
    rewrite Hb. simpl. split; [|reflexivity].
    unfold getShard. apply (shardAt_setShard_eq c). exact Hi.
Qed.

Lemma insertNew_other (c : Cache) (seed : nat) (key : string) (e : entry) (j : nat) :
  j <> shardIndex key -> shardAt (insertNew c seed key e) j = shardAt c j.
Proof.
  intros Hj. unfold insertNew.
  destruct (if shardCap c <=? Z.of_nat (size (shardAt c (shardIndex key)))
            then evictOne seed (shardAt c (shardIndex key)) (count c)
            else (shardAt c (shardIndex key), count c)) as [s1 cnt1].
  apply (shardAt_setShard_ne c). congruence.
Qed.

(** C3. Set computes exp = now + ttl and refreshAt = exp - refreshWindow
    (on int64). If the key is in its shard the entry is overwritten and
    count is unchanged; otherwise, if the shard holds at least shardCap
    entries, one existing binding (the first of the map iteration) is
    removed with count - 1 and the key inserted with count + 1; otherwise
    the key is inserted with count + 1. No other shard changes. In every
    case the lock of the shard is taken and released and then the upsert op
    is handed to sendToPersist. The binding removed is arbitrary: each
    binding of the shard is the first of the iteration for some choice of
    the runtime. *)
Theorem C3_Set_overwrite_evict_insert (c : Cache) (seed : nat) (key val : string) :
  wf c ->
  let ex := add64 (now c) (ttl c) in
  let e := mkEntry val ex (sub64 ex (refreshWindow c)) in
  let i := shardIndex key in
  let s := getShard c key in
  let c' := Set_ c seed key val in
  match s !! key with
  | Some _ => getShard c' key = <[key := e]> s /\ count c' = count c
  | None =>
      if decide (shardCap c <= Z.of_nat (size s))
      then exists victim old, s !! victim = Some old
             /\ rangeFirst seed s = Some victim
             /\ getShard c' key = <[key := e]> (delete victim s)
             /\ count c' = add64 (add64 (count c) (-1)) 1
      else getShard c' key = <[key := e]> s /\ count c' = add64 (count c) 1
  end
  /\ (forall j, j <> i -> shardAt c' j = shardAt c j)
  /\ log c' = log c ++ [EvLock i; EvUnlock i; EvPersist (upsertOp key val e)]
  /\ persistCh c' = persistCh (sendToPersist c (upsertOp key val e))
  /\ droppedUpdates c' = droppedUpdates (sendToPersist c (upsertOp key val e))
  /\ (forall k old, s !! k = Some old -> exists seed', rangeFirst seed' s = Some k).
Proof.
  intros Hwf ex e i s c'.
  cut (match s !! key with
       | Some _ => getShard c' key = <[key := e]> s /\ count c' = count c
       | None =>
           if decide (shardCap c <= Z.of_nat (size s))
           then exists victim old, s !! victim = Some old
                  /\ rangeFirst seed s = Some victim
                  /\ getShard c' key = <[key := e]> (delete victim s)
                  /\ count c' = add64 (add64 (count c) (-1)) 1
           else getShard c' key = <[key := e]> s /\ count c' = add64 (count c) 1
       end
       /\ (forall j, j <> i -> shardAt c' j = shardAt c j)
       /\ log c' = log c ++ [EvLock i; EvUnlock i; EvPersist (upsertOp key val e)]
       /\ persistCh c' = persistCh (sendToPersist c (upsertOp key val e))
       /\ droppedUpdates c' = droppedUpdates (sendToPersist c (upsertOp key val e))).
  { intros (H1 & H2 & H3 & H4 & H5).
    repeat (split; [assumption|]). intros k old Hk. eapply rangeFirst_any. exact Hk. }
  pose proof (shardIndex_lt key) as Hi. destruct Hwf as [Hlen Hcap].
  rewrite <- Hlen in Hi.
  unfold c', Set_. fold ex. fold e. fold i.
  change (shardAt (emit c [EvLock i]) i) with s.
  destruct (s !! key) as [old|] eqn:Hk.
  - set (c1 := emit (setShard (emit c [EvLock i]) i (<[key:=e]> s)) [EvUnlock i]).
    destruct (sendToPersist_frame c1 (upsertOp key val e))
      as (Hsh & _ & _ & _ & Hcnt & _ & _ & _ & Hlog).
    split; [|split; [|split; [|split]]].
    + split; [|rewrite Hcnt; reflexivity].
      unfold getShard, shardAt. rewrite Hsh. simpl.
      rewrite list_lookup_insert_eq by exact Hi. reflexivity.
    + intros j Hj. unfold shardAt. rewrite Hsh. simpl.
      rewrite list_lookup_insert_ne by congruence. reflexivity.
    + rewrite Hlog. simpl. rewrite <- !app_assoc. reflexivity.
    + unfold sendToPersist, Chan.trySend. simpl. repeat case_match; reflexivity.
    + unfold sendToPersist, Chan.trySend. simpl. repeat case_match; reflexivity.
  - set (c0 := emit c [EvLock i]).
    set (c1 := emit (insertNew c0 seed key e) [EvUnlock i]).
    destruct (sendToPersist_frame c1 (upsertOp key val e))
      as (Hsh & _ & _ & _ & Hcnt & _ & _ & _ & Hlog).
    destruct (insertNew_frame c0 seed key e)
      as (_ & _ & _ & Hdr & _ & Hcl & _ & Hch & Hlg).
    assert (Hwf0 : wf c0) by (split; assumption).
    pose proof (insertNew_shard c0 seed key e Hwf0) as Hins. simpl in Hins.
    change (getShard c0 key) with s in Hins.
    change (shardCap c0) with (shardCap c) in Hins.
    change (count c0) with (count c) in Hins.
    split; [|split; [|split; [|split]]].
    + destruct (decide (shardCap c <= Z.of_nat (size s))).
      * destruct Hins as (victim & old & Hold & Hv & Hg & Hc).
        exists victim, old. split; [exact Hold|]. split; [exact Hv|].
        unfold getShard, shardAt in *. rewrite Hsh, Hcnt. simpl. split; assumption.
      * destruct Hins as [Hg Hc].
        unfold getShard, shardAt in *. rewrite Hsh, Hcnt. simpl. split; assumption.
    + intros j Hj. unfold shardAt. rewrite Hsh. simpl.
      apply (insertNew_other c0 seed key e j Hj).
    + rewrite Hlog. simpl. rewrite Hlg. simpl. rewrite <- !app_assoc. reflexivity.
    + clear Hins. unfold sendToPersist, Chan.trySend. simpl. rewrite Hcl, Hch. simpl.
      destruct (closed c =? 1), (length (persistCh c) <? persistChCap)%nat;
        simpl; rewrite ?Hch; reflexivity.
    + clear Hins. unfold sendToPersist, Chan.trySend. simpl. rewrite Hcl, Hch. simpl.
      destruct (closed c =? 1), (length (persistCh c) <? persistChCap)%nat;
        simpl; rewrite ?Hdr; reflexivity.
Qed.

Lemma size_delete_present (m : gmap string entry) (k : string) (e : entry) :
  m !! k = Some e -> S (size (delete k m)) = size m.
Proof.
  intros H. rewrite map_size_delete_Some by eauto.
  assert (size m <> 0%nat) by (apply map_size_ne_0_lookup; eauto). lia.
Qed.

(** *** The expiry sweep *)

Section Sweep.

Variable t : Z.

Lemma cleanupStep_expired acc k e :
  exp e <= t -> cleanupStep t acc (k, e) = (delete k acc.1, add64 acc.2 (-1)).
Proof.
  intros H. unfold cleanupStep. simpl.
  apply Z.leb_le in H. rewrite H. reflexivity.
Qed.

Lemma cleanupStep_live acc k e :
  t < exp e -> cleanupStep t acc (k, e) = acc.
Proof.
  intros H. unfold cleanupStep. simpl.
  apply Z.leb_gt in H. rewrite H. reflexivity.
Qed.

(** The shard the loop leaves: the bindings met by the loop that have
    expired are gone, the others are as before. *)
Lemma cleanup_fold_lookup (l : list (string * entry)) :
  forall (m : gmap string entry) (cnt : Z) (k : string),
    NoDup l.*1 ->
    (forall k' e', (k', e') ∈ l -> m !! k' = Some e') ->
    (fold_left (cleanupStep t) l (m, cnt)).1 !! k =
    match m !! k with
    | Some e => if decide ((k, e) ∈ l /\ exp e <= t) then None else Some e
    | None => None
    end.
Proof.
  induction l as [|[k0 e0] l IH]; intros m cnt k Hnd Hin; cbn [fold_left].
  - cbn [fst]. destruct (m !! k) as [e|]; [|reflexivity].
    rewrite decide_False; [reflexivity|]. intros [H _]. inversion H.
  - apply NoDup_cons in Hnd as [Hk0 Hnd]. simpl in Hk0.
    assert (Hm0 : m !! k0 = Some e0) by (apply Hin; left).
    assert (Hnotin : forall e, (k0, e) ∉ l).
    { intros e He. apply Hk0. apply list_elem_of_fmap. exists (k0, e). split; [reflexivity|exact He]. }
    destruct (decide (exp e0 <= t)) as [Hexp|Hlive].
    + rewrite cleanupStep_expired by exact Hexp. cbn [fst snd].
      rewrite IH; [|exact Hnd|].
      * destruct (decide (k = k0)) as [->|Hne].
        -- rewrite lookup_delete_eq, Hm0.
           rewrite decide_True; [reflexivity|]. split; [left|exact Hexp].
        -- rewrite lookup_delete_ne by congruence.
           destruct (m !! k) as [e|]; [|reflexivity].
           destruct (decide ((k, e) ∈ l /\ exp e <= t)) as [[H1 H2]|Hn].
           ++ rewrite decide_True; [reflexivity|]. split; [right; exact H1|exact H2].
           ++ rewrite decide_False; [reflexivity|]. intros [H1 H2]. apply Hn.
              split; [|exact H2]. apply elem_of_cons in H1 as [H1|H1]; [congruence|exact H1].
      * intros k' e' Hk'. rewrite lookup_delete_ne.
        -- apply Hin. right. exact Hk'.
        -- intros ->. exact (Hnotin _ Hk').
    + rewrite cleanupStep_live by lia.
      rewrite IH; [|exact Hnd|intros k' e' Hk'; apply Hin; right; exact Hk'].
      destruct (m !! k) as [e|] eqn:Hmk; [|reflexivity].
      destruct (decide ((k, e) ∈ l /\ exp e <= t)) as [[H1 H2]|Hn].
      * rewrite decide_True; [reflexivity|]. split; [right; exact H1|exact H2].
      * rewrite decide_False; [reflexivity|]. intros [H1 H2]. apply Hn.
        split; [|exact H2]. apply elem_of_cons in H1 as [H1|H1]; [|exact H1].
        simplify_eq. lia.
Qed.

(** The counter the loop leaves: one less for every binding removed. *)
Lemma cleanup_fold_count (l : list (string * entry)) :
  forall (m : gmap string entry) (cnt : Z),
    NoDup l.*1 ->
    (forall k' e', (k', e') ∈ l -> m !! k' = Some e') ->
    Z.of_nat (size m) <= cnt -> isInt64 cnt ->
    let r := fold_left (cleanupStep t) l (m, cnt) in
    (size r.1 <= size m)%nat
    /\ r.2 = cnt - Z.of_nat (size m - size r.1).
Proof.
  induction l as [|[k0 e0] l IH]; intros m cnt Hnd Hin Hle Hint; simpl.
  - split; [lia|]. replace (size m - size m)%nat with 0%nat by lia. simpl. lia.
  - apply NoDup_cons in Hnd as [Hk0 Hnd]. simpl in Hk0.
    assert (Hm0 : m !! k0 = Some e0) by (apply Hin; left).
    assert (Hnotin : forall e, (k0, e) ∉ l).
    { intros e He. apply Hk0. apply list_elem_of_fmap. exists (k0, e). split; [reflexivity|exact He]. }
    destruct (decide (exp e0 <= t)) as [Hexp|Hlive].
    + rewrite cleanupStep_expired by exact Hexp. simpl.
      pose proof (size_delete_present m k0 e0 Hm0) as Hsz.
      assert (Hcnt : add64 cnt (-1) = cnt - 1).
      { apply add64_exact. unfold isInt64, minInt64, maxInt64 in *. lia. }
      rewrite Hcnt.
      destruct (IH (delete k0 m) (cnt - 1)) as [H1 H2].
      * exact Hnd.
      * intros k' e' Hk'. rewrite lookup_delete_ne.
        -- apply Hin. right. exact Hk'.
        -- intros ->. exact (Hnotin _ Hk').
      * lia.
      * unfold isInt64, minInt64, maxInt64 in *. lia.
      * split; [lia|]. rewrite H2. lia.
    + rewrite cleanupStep_live by lia.
      apply IH; [exact Hnd| |exact Hle|exact Hint].
      intros k' e' Hk'. apply Hin. right. exact Hk'.
Qed.

End Sweep.

(** What a sweep of shard [i] leaves in any shard [j]. *)
Lemma cleanupShard_lookup (c : Cache) (i j : nat) (t : Z) (key : string) :
  shardAt (cleanupShard c i t) j !! key =
  match shardAt c j !! key with
  | Some e => if decide (j = i /\ exp e <= t) then None else Some e
  | None => None
  end.
Proof.
  unfold cleanupShard.
  set (c0 := emit c [EvLock i]).
  change (shardAt c0 i) with (shardAt c i). change (count c0) with (count c).
  pose proof (cleanup_fold_lookup t (map_to_list (shardAt c i)) (shardAt c i) (count c) key
                (NoDup_fst_map_to_list _)) as Hl.
  destruct (fold_left (cleanupStep t) (map_to_list (shardAt c i)) (shardAt c i, count c))
    as [s' cnt]. simpl in Hl.
  unfold shardAt at 1. simpl.
  destruct (decide (j = i)) as [->|Hne].
  - destruct (decide (i < length (shards c))%nat) as [Hi|Hi].
    + rewrite list_lookup_insert_eq by exact Hi. simpl.
      rewrite Hl by (intros k' e' H; apply elem_of_map_to_list; exact H).
      destruct (shardAt c i !! key) as [e|] eqn:He; [|reflexivity].
      destruct (decide (exp e <= t)) as [Hexp|Hlive].
      * rewrite decide_True by (split; [apply elem_of_map_to_list; exact He|exact Hexp]).
        rewrite decide_True by (split; [reflexivity|exact Hexp]). reflexivity.
      * rewrite decide_False by tauto. rewrite decide_False by tauto. reflexivity.
    + rewrite list_insert_ge by lia.
      assert (Hnone : shards c !! i = None) by (apply lookup_ge_None_2; lia).
      unfold shardAt. rewrite Hnone. simpl. rewrite lookup_empty. reflexivity.
  - rewrite list_lookup_insert_ne by congruence. fold (shardAt c j).
    destruct (shardAt c j !! key) as [e|]; [|reflexivity].
    rewrite decide_False by tauto. reflexivity.
Qed.

(** A sweep with a time that the clock has reached removes only entries
    Get already reports as missing. *)
Lemma Get_after_sweep (c : Cache) (i : nat) (t : Z) (key : string) :
  t <= now c -> Get (cleanupShard c i t) key = Get c key.
Proof.
  intros Ht. unfold Get, getShard. rewrite cleanupShard_lookup.
  assert (Hnow : now (cleanupShard c i t) = now c).
  { unfold cleanupShard. case_match. reflexivity. }
  assert (Hrw : refreshWindow (cleanupShard c i t) = refreshWindow c).
  { unfold cleanupShard. case_match. reflexivity. }
  rewrite Hnow, Hrw.
  destruct (shardAt c (shardIndex key) !! key) as [e|]; [|reflexivity].
  destruct (decide (shardIndex key = i /\ exp e <= t)) as [[_ Hexp]|_]; [|reflexivity].
  assert (Hb : (exp e <=? now c) = true) by (apply Z.leb_le; lia).
  rewrite Hb. reflexivity.
Qed.

(** C4. Get reports a miss (empty value, false, false, 0) for a key that
    is absent from its shard or whose entry has [exp <= now], the expiry
    instant included; for a live entry it returns the value, hit = true,
    needs_refresh = (refreshWindow > 0 and now >= refreshAt) and
    remaining = exp - now, computed on int64. The sweep plays no part in
    this: sweeping any shard, with any time the clock has reached, leaves
    every answer of Get as it was. *)
Theorem C4_Get_miss_or_live (c : Cache) (key : string) :
  match getShard c key !! key with
  | None => Get c key = ("", false, false, 0)
  | Some e =>
      if decide (exp e <= now c)
      then Get c key = ("", false, false, 0)
      else Get c key = (value e, true,
                        bool_decide (0 < refreshWindow c /\ refreshAt e <= now c),
                        sub64 (exp e) (now c))
  end
  /\ forall i t, t <= now c -> Get (cleanupShard c i t) key = Get c key.
Proof.
  split; [|intros i t; apply Get_after_sweep].
  unfold Get. destruct (getShard c key !! key) as [e|]; [|reflexivity].
  destruct (decide (exp e <= now c)) as [Hle|Hgt].
  - apply Z.leb_le in Hle. rewrite Hle. reflexivity.
  - assert (Hb : (exp e <=? now c) = false) by (apply Z.leb_gt; lia).
    rewrite Hb. repeat f_equal.
    destruct (0 <? refreshWindow c) eqn:Hw, (refreshAt e <=? now c) eqn:Hr; simpl;
      symmetry; first [apply bool_decide_eq_true | apply bool_decide_eq_false]; lia.
Qed.

(** *** The counter *)

Lemma sum_sizes_insert (l : list (gmap string entry)) (i : nat)
      (s s' : gmap string entry) :
  l !! i = Some s ->
  (sum_list (size <$> <[i := s']> l) + size s = sum_list (size <$> l) + size s')%nat.
Proof.
  revert i. induction l as [|x l IH]; intros i H; [discriminate|].
  destruct i as [|i].
  - cbn in H. simplify_eq.
    change (<[0%nat := s']> (s :: l)) with (s' :: l).
    rewrite !fmap_cons. cbn [sum_list_with]. unfold id in *. lia.
  - cbn in H. specialize (IH i H).
    change (<[S i := s']> (x :: l)) with (x :: <[i := s']> l).
    rewrite !fmap_cons. cbn [sum_list_with]. unfold id in *. lia.
Qed.

Lemma sum_sizes_bound (l : list (gmap string entry)) (b : Z) :
  Forall (fun s : gmap string entry => Z.of_nat (size s) <= b) l ->
  Z.of_nat (sum_list (size <$> l)) <= Z.of_nat (length l) * b.
Proof.
  induction 1 as [|x l Hx Hl IH]; [simpl; lia|].
  rewrite fmap_cons. cbn [sum_list_with length]. unfold id in *.
  rewrite Nat2Z.inj_add, Nat2Z.inj_succ. nia.
Qed.

Lemma shardAt_lookup (c : Cache) (i : nat) :
  (i < length (shards c))%nat -> shards c !! i = Some (shardAt c i).
Proof.
  intros H. unfold shardAt. apply lookup_lt_is_Some_2 in H as [s Hs].
  rewrite Hs. reflexivity.
Qed.

Lemma countInv_bounds (c : Cache) (i : nat) :
  countInv c -> (i < shardCount)%nat ->
  0 <= count c <= 512000
  /\ Z.of_nat (size (shardAt c i)) <= count c
  /\ Z.of_nat (size (shardAt c i)) <= defaultShardCapacity.
Proof.
  intros (Hlen & Hcap & Hall & Hcnt) Hi.
  pose proof (sum_sizes_bound _ _ Hall) as Hb. rewrite Hlen in Hb.
  fold (bindings c) in Hb. unfold shardCount, defaultShardCapacity in Hb.
  rewrite <- Hlen in Hi. pose proof (shardAt_lookup c i Hi) as Hs.
  split; [rewrite Hcnt; lia|]. split.
  - pose proof (sum_sizes_insert _ i _ ∅ Hs) as H. rewrite map_size_empty in H.
    fold (bindings c) in H. rewrite Hcnt. lia.
  - eapply Forall_lookup_1 in Hall; [|exact Hs]. exact Hall.
Qed.

(** The invariant after one shard and the counter have been replaced in
    step. *)
Lemma countInv_update (c c' : Cache) (i : nat) (s' : gmap string entry) :
  countInv c -> (i < shardCount)%nat ->
  shards c' = <[i := s']> (shards c) ->
  shardCap c' = shardCap c ->
  Z.of_nat (size s') <= defaultShardCapacity ->
  count c' = count c + Z.of_nat (size s') - Z.of_nat (size (shardAt c i)) ->
  countInv c'.
Proof.
  intros Hinv Hi Hsh Hcap Hsz Hcnt.
  destruct (countInv_bounds c i Hinv Hi) as (Hb1 & Hb2 & Hb3).
  destruct Hinv as (Hlen & Hcap0 & Hall & Hc).
  rewrite <- Hlen in Hi. pose proof (shardAt_lookup c i Hi) as Hs.
  split; [rewrite Hsh, length_insert; exact Hlen|].
  split; [congruence|]. split.
  - rewrite Hsh. apply Forall_insert; assumption.
  - rewrite Hcnt. unfold bindings. rewrite Hsh.
    pose proof (sum_sizes_insert _ i _ s' Hs) as H.
    fold (bindings c) in H. rewrite Hc. lia.
Qed.

Lemma countInv_same (c c' : Cache) :
  countInv c -> shards c' = shards c -> shardCap c' = shardCap c ->
  count c' = count c -> countInv c'.
Proof.
  intros (Hlen & Hcap & Hall & Hc) Hs Hk Hn. unfold countInv, bindings.
  rewrite Hs, Hk, Hn. repeat split; assumption.
Qed.

Lemma countInv_wf (c : Cache) : countInv c -> wf c.
Proof.
  intros (Hlen & Hcap & _). split; [exact Hlen|].
  rewrite Hcap. unfold defaultShardCapacity. lia.
Qed.

Lemma countInv_New (ttl0 : Z) (ratio : spec_float) (now0 : Z) :
  countInv (New ttl0 ratio now0).
Proof.
  unfold countInv, New, bindings. cbn [shards shardCap count].
  split; [apply length_replicate|].
  split; [reflexivity|]. split.
  - apply Forall_replicate. rewrite map_size_empty. unfold defaultShardCapacity. lia.
  - rewrite fmap_replicate, sum_list_replicate, map_size_empty. lia.
Qed.

Lemma countInv_insertNew (c : Cache) (seed : nat) (key : string) (e : entry) :
  countInv c -> getShard c key !! key = None -> countInv (insertNew c seed key e).
Proof.
  intros Hinv Hk.
  pose proof (shardIndex_lt key) as Hi.
  destruct (countInv_bounds c _ Hinv Hi) as (Hb1 & Hb2 & Hb3).
  fold (getShard c key) in Hb2, Hb3.
  assert (Hcap : shardCap c = defaultShardCapacity) by apply Hinv.
  unfold insertNew. fold (getShard c key).
  destruct (shardCap c <=? Z.of_nat (size (getShard c key))) eqn:Hfull.
  - apply Z.leb_le in Hfull.
    destruct (rangeFirst_nonempty seed (getShard c key)) as [victim Hv].
    { unfold defaultShardCapacity in *. lia. }
    destruct (rangeFirst_Some _ _ _ Hv) as [old Hold].
    unfold evictOne. rewrite Hv.
    pose proof (size_delete_present _ _ _ Hold) as Hsz.
    assert (Hnew : delete victim (getShard c key) !! key = None).
    { destruct (decide (victim = key)) as [->|Hne].
      - apply lookup_delete_eq.
      - rewrite lookup_delete_ne by exact Hne. exact Hk. }
    pose proof (map_size_insert_None key e _ Hnew) as Hsz'.
    eapply (countInv_update c _ (shardIndex key)); [exact Hinv|exact Hi|reflexivity|reflexivity| |].
    + lia.
    + simpl. rewrite add64_sub64_1.
      * fold (getShard c key). lia.
      * unfold isInt64, minInt64, maxInt64. lia.
  - apply Z.leb_gt in Hfull.
    pose proof (map_size_insert_None key e _ Hk) as Hsz'.
    eapply (countInv_update c _ (shardIndex key)); [exact Hinv|exact Hi|reflexivity|reflexivity| |].
    + lia.
    + simpl. fold (getShard c key). rewrite add64_exact.
      * lia.
      * unfold isInt64, minInt64, maxInt64. lia.
Qed.

Lemma countInv_emit (c : Cache) (evs : list event) : countInv c -> countInv (emit c evs).
Proof. intros H. eapply countInv_same; [exact H|reflexivity..]. Qed.

Lemma countInv_sendToPersist (c : Cache) (op : persistenceOp) :
  countInv c -> countInv (sendToPersist c op).
Proof.
  intros H. destruct (sendToPersist_frame c op) as (Hs & _ & _ & Hk & Hc & _).
  eapply countInv_same; eassumption.
Qed.

Lemma countInv_overwrite (c : Cache) (key : string) (e old : entry) :
  countInv c -> getShard c key !! key = Some old ->
  countInv (setShard c (shardIndex key) (<[key := e]> (getShard c key))).
Proof.
  intros Hinv Hk. pose proof (shardIndex_lt key) as Hi.
  destruct (countInv_bounds c _ Hinv Hi) as (Hb1 & Hb2 & Hb3).
  fold (getShard c key) in Hb2, Hb3.
  pose proof (map_size_insert_Some key e (getShard c key) ltac:(eauto)) as Hsz.
  eapply (countInv_update c _ (shardIndex key)); [exact Hinv|exact Hi|reflexivity|reflexivity| |].
  - lia.
  - simpl. fold (getShard c key). lia.
Qed.

Lemma countInv_Set (c : Cache) (seed : nat) (key val : string) :
  countInv c -> countInv (Set_ c seed key val).
Proof.
  intros Hinv. unfold Set_.
  set (c0 := emit c [EvLock (shardIndex key)]).
  assert (H0 : countInv c0) by (apply countInv_emit; exact Hinv).
  fold (getShard c0 key).
  destruct (getShard c0 key !! key) as [old|] eqn:Hk.
  - apply countInv_sendToPersist, countInv_emit.
    eapply countInv_overwrite; eassumption.
  - apply countInv_sendToPersist, countInv_emit, countInv_insertNew; assumption.
Qed.

Lemma countInv_SetWithTime (c : Cache) (seed : nat) (key val : string) (ex ra : Z) :
  countInv c -> countInv (SetWithTime c seed key val ex ra).
Proof.
  intros Hinv. unfold SetWithTime.
  set (c0 := emit c [EvLock (shardIndex key)]).
  assert (H0 : countInv c0) by (apply countInv_emit; exact Hinv).
  fold (getShard c0 key).
  destruct (getShard c0 key !! key) as [old|] eqn:Hk.
  - apply countInv_emit. eapply countInv_overwrite; eassumption.
  - apply countInv_emit, countInv_insertNew; assumption.
Qed.

Lemma countInv_Delete (c : Cache) (key : string) :
  countInv c -> countInv (Delete c key).
Proof.
  intros Hinv. unfold Delete.
  set (c0 := emit c [EvLock (shardIndex key)]).
  assert (H0 : countInv c0) by (apply countInv_emit; exact Hinv).
  fold (getShard c0 key).
  destruct (getShard c0 key !! key) as [old|] eqn:Hk.
  - apply countInv_emit, countInv_sendToPersist.
    pose proof (shardIndex_lt key) as Hi.
    destruct (countInv_bounds c0 _ H0 Hi) as (Hb1 & Hb2 & Hb3).
    fold (getShard c0 key) in Hb2, Hb3.
    pose proof (size_delete_present _ _ _ Hk) as Hsz.
    eapply (countInv_update c0 _ (shardIndex key)); [exact H0|exact Hi|reflexivity|reflexivity| |].
    + lia.
    + change (shardAt c0 (shardIndex key)) with (getShard c key).
      change (getShard c0 key) with (getShard c key) in *.
      change (count c0) with (count c) in *. simpl.
      rewrite add64_exact.
      * lia.
      * unfold isInt64, minInt64, maxInt64. lia.
  - apply countInv_emit. exact H0.
Qed.

Lemma countInv_cleanupShard (c : Cache) (i : nat) (t : Z) :
  countInv c -> countInv (cleanupShard c i t).
Proof.
  intros Hinv. unfold cleanupShard.
  set (c0 := emit c [EvLock i]).
  assert (H0 : countInv c0) by (apply countInv_emit; exact Hinv).
  destruct (fold_left (cleanupStep t) (map_to_list (shardAt c0 i)) (shardAt c0 i, count c0))
    as [s' cnt] eqn:Hf.
  apply countInv_emit.
  destruct (decide (i < shardCount)%nat) as [Hi|Hi].
  - destruct (countInv_bounds c0 _ H0 Hi) as (Hb1 & Hb2 & Hb3).
    change (count c0) with (count c) in *.
    pose proof (cleanup_fold_count t (map_to_list (shardAt c0 i)) (shardAt c0 i) (count c))
      as Hc.
    rewrite Hf in Hc. simpl in Hc. destruct Hc as [Hle Hcnt].
    + apply NoDup_fst_map_to_list.
    + intros k' e' Hk'. apply elem_of_map_to_list. exact Hk'.
    + exact Hb2.
    + unfold isInt64, minInt64, maxInt64. lia.
    + eapply (countInv_update c0 _ i); [exact H0|exact Hi|reflexivity|reflexivity| |].
      * lia.
      * simpl. rewrite Hcnt. lia.
  - eapply countInv_same; [exact H0| | reflexivity |].
    + simpl. apply list_insert_ge. destruct Hinv as [Hlen _]. rewrite Hlen. lia.
    + simpl. unfold shardAt in Hf.
      assert (Hnone : shards c0 !! i = None).
      { apply lookup_ge_None_2. destruct H0 as [Hlen _]. rewrite Hlen. lia. }
      rewrite Hnone in Hf. simpl in Hf. rewrite map_to_list_empty in Hf.
      simpl in Hf. congruence.
Qed.

Lemma countInv_applyOp (c c' : Cache) (o : cacheOp) :
  countInv c -> applyOp c o = Some c' -> countInv c'.
Proof.
  intros Hinv Ho. destruct o; simpl in Ho; simplify_eq.
  - apply countInv_Set; exact Hinv.
  - apply countInv_SetWithTime; exact Hinv.
  - apply countInv_Delete; exact Hinv.
  - apply countInv_cleanupShard; exact Hinv.
  - eapply countInv_same; [exact Hinv|reflexivity..].
  - unfold recvPersist, Chan.recv. destruct (persistCh c) as [|x ch];
      [exact Hinv|]. eapply countInv_same; [exact Hinv|reflexivity..].
  - unfold Close in Ho. destruct (stopped c); simplify_eq.
    eapply countInv_same; [exact Hinv|reflexivity..].
Qed.

Lemma countInv_runOps (os : list cacheOp) (c c' : Cache) :
  countInv c -> runOps c os = Some c' -> countInv c'.
Proof.
  revert c. induction os as [|o os IH]; intros c Hinv Hr; simpl in Hr.
  - simplify_eq. exact Hinv.
  - destruct (applyOp c o) as [c1|] eqn:Ho; [|discriminate].
    eapply IH; [|exact Hr]. eapply countInv_applyOp; eassumption.
Qed.

(** C9. After any sequence of operations on a cache made by New, that is
    at every point where no operation is in progress, Count is the number
    of bindings the 256 shards hold, and it is not negative; every further
    operation (Set, SetWithTime, Delete with their eviction, the sweep of a
    shard, and the others) changes Count by exactly the change in the
    number of bindings. *)
Theorem C9_Count_is_number_of_bindings
        (ttl0 : Z) (ratio : spec_float) (now0 : Z) (os : list cacheOp) (c : Cache) :
  runOps (New ttl0 ratio now0) os = Some c ->
  Count c = Z.of_nat (bindings c) /\ 0 <= Count c /\ length (shards c) = 256%nat
  /\ forall o c', applyOp c o = Some c' ->
       Count c' - Count c = Z.of_nat (bindings c') - Z.of_nat (bindings c).
Proof.
  intros Hr.
  pose proof (countInv_runOps os _ _ (countInv_New ttl0 ratio now0) Hr) as Hinv.
  pose proof Hinv as (Hlen & _ & _ & Hc). unfold Count. rewrite Hc.
  split; [reflexivity|]. split; [lia|]. split; [exact Hlen|].
  intros o c' Ho. pose proof (countInv_applyOp _ _ _ Hinv Ho) as (_ & _ & _ & Hc').
  rewrite Hc'. reflexivity.
Qed.

(** ** float64: converting an integer never overflows *)

Lemma digits2_size p : digits2_pos p = Pos.size p.
Proof. induction p; simpl; congruence. Qed.

Lemma Zdigits2_bound z n : 0 <= n -> 0 <= z < 2 ^ n -> 0 <= Zdigits2 z <= n.
Proof.
  intros Hn [H0 H1]. destruct z as [|p|p]; simpl; try lia.
  rewrite digits2_size.
  pose proof (Pos.size_le p) as Hle.
  assert (Hz : 2 ^ Z.pos (Pos.size p) <= 2 * Z.pos p).
  { rewrite <- Pos2Z.inj_pow. change (2 * Z.pos p) with (Z.pos p~0). lia. }
  assert (2 ^ Z.pos (Pos.size p) < 2 ^ (n + 1)).
  { rewrite Z.pow_add_r by lia. lia. }
  apply Z.pow_lt_mono_r_iff in H; lia.
Qed.

Lemma shr_1_nonneg mrs : 0 <= shr_m mrs -> 0 <= shr_m (shr_1 mrs) <= shr_m mrs.
Proof.
  destruct mrs as [m r s]. simpl. intros H.
  destruct m as [|[p|p|]|[p|p|]]; simpl; lia.
Qed.

Lemma iter_shr_1_nonneg p mrs :
  0 <= shr_m mrs -> 0 <= shr_m (iter_pos shr_1 p mrs) <= shr_m mrs.
Proof.
  revert mrs. induction p; intros mrs H; simpl.
  - pose proof (shr_1_nonneg mrs H).
    pose proof (IHp (shr_1 mrs) ltac:(lia)).
    pose proof (IHp (iter_pos shr_1 p (shr_1 mrs)) ltac:(lia)). lia.
  - pose proof (IHp mrs H).
    pose proof (IHp (iter_pos shr_1 p mrs) ltac:(lia)). lia.
  - apply shr_1_nonneg, H.
Qed.

Lemma shr_nonneg mrs e n :
  0 <= shr_m mrs -> 0 <= shr_m (shr mrs e n).1 <= shr_m mrs.
Proof.
  intros H. unfold shr. destruct n; simpl; try lia.
  apply iter_shr_1_nonneg, H.
Qed.

Lemma shr_exp mrs e n : (shr mrs e n).2 = e \/ (0 < n /\ (shr mrs e n).2 = e + n).
Proof. unfold shr. destruct n; simpl; auto. right. lia. Qed.

Lemma shr_record_of_loc_m m l : shr_m (shr_record_of_loc m l) = m.
Proof. destruct l as [|[]]; reflexivity. Qed.

Lemma shr_fexp_bounds prec emax m e l B :
  0 <= B -> 0 <= m < 2 ^ B ->
  let r := shr_fexp prec emax m e l in
  0 <= shr_m r.1 <= m /\ (r.2 = e \/ r.2 = fexp prec emax (Zdigits2 m + e)).
Proof.
  intros HB Hm r. unfold r, shr_fexp. split.
  - pose proof (shr_nonneg (shr_record_of_loc m l) e
      (fexp prec emax (Zdigits2 m + e) - e)) as H.
    rewrite shr_record_of_loc_m in H. apply H. lia.
  - destruct (shr_exp (shr_record_of_loc m l) e (fexp prec emax (Zdigits2 m + e) - e))
      as [H|[_ H]]; [left|right]; rewrite H; lia.
Qed.

Lemma round_nearest_even_bounds m l :
  0 <= m -> m <= round_nearest_even m l <= m + 1.
Proof. intros H. unfold round_nearest_even. destruct l as [|[]]; try destruct (Z.even m); lia. Qed.

Lemma binary_round_aux_finite sx mx ex :
  0 <= mx < 2 ^ 64 -> -1074 <= ex <= 0 ->
  Float64.finiteOrZero (binary_round_aux 53 1024 sx mx ex loc_Exact).
Proof.
  intros Hm He. unfold binary_round_aux.
  pose proof (shr_fexp_bounds 53 1024 mx ex loc_Exact 64 ltac:(lia) Hm) as [Hm1 He1].
  destruct (shr_fexp 53 1024 mx ex loc_Exact) as [mrs' e'] eqn:E1. simpl in Hm1, He1.
  pose proof (round_nearest_even_bounds (shr_m mrs') (loc_of_shr_record mrs') ltac:(lia)) as Hr.
  set (m2 := round_nearest_even (shr_m mrs') (loc_of_shr_record mrs')) in *.
  pose proof (shr_fexp_bounds 53 1024 m2 e' loc_Exact 65 ltac:(lia) ltac:(lia)) as [Hm2 He2].
  destruct (shr_fexp 53 1024 m2 e' loc_Exact) as [mrs'' e''] eqn:E2. simpl in Hm2, He2.
  pose proof (Zdigits2_bound mx 64 ltac:(lia) Hm) as Hd1.
  pose proof (Zdigits2_bound m2 65 ltac:(lia) ltac:(lia)) as Hd2.
  assert (He' : e' <= 11).
  { destruct He1 as [->| ->]; [lia|]. unfold fexp, emin. lia. }
  assert (He'' : e'' <= 971).
  { destruct He2 as [->| ->]; [lia|]. unfold fexp, emin. lia. }
  destruct (shr_m mrs'') eqn:Em; simpl; try exact I; try lia.
  replace (e'' <=? 1024 - 53) with true by (symmetry; apply Z.leb_le; lia).
  exact I.
Qed.

Lemma size_iter_xO p k : Pos.size (Pos.iter xO p k) = (Pos.size p + k)%positive.
Proof.
  induction k using Pos.peano_ind.
  - simpl. lia.
  - rewrite Pos.iter_succ. simpl. rewrite IHk. lia.
Qed.

Lemma binary_round_finite sx mx :
  Z.pos mx < 2 ^ 64 -> Float64.finiteOrZero (binary_round 53 1024 sx mx 0).
Proof.
  intros H. unfold binary_round.
  pose proof (Zdigits2_bound (Z.pos mx) 64 ltac:(lia) ltac:(lia)) as Hd. simpl in Hd.
  destruct (shl_align mx 0 (fexp 53 1024 (Z.pos (digits2_pos mx) + 0))) as [mz ez] eqn:E.
  unfold shl_align in E.
  assert (Hf : fexp 53 1024 (Z.pos (digits2_pos mx) + 0) = Z.pos (digits2_pos mx) - 53).
  { unfold fexp, emin. lia. }
  rewrite Hf in E.
  destruct (Z.pos (digits2_pos mx) - 53 - 0) eqn:Ed; inversion E; subst; clear E.
  - apply binary_round_aux_finite; lia.
  - apply binary_round_aux_finite; lia.
  - apply binary_round_aux_finite; [|lia].
    split; [lia|].
    pose proof (Pos.size_gt (Pos.iter xO mx p)) as Hs.
    rewrite size_iter_xO in Hs. rewrite digits2_size in *.
    assert (Hlt : Z.pos (Pos.iter xO mx p) < 2 ^ Z.pos (Pos.size mx + p)).
    { rewrite <- Pos2Z.inj_pow. lia. }
    assert (Z.pos (Pos.size mx + p) = 53) by lia.
    rewrite H0 in Hlt. lia.
Qed.

Lemma ofInt_finite z :
  - 2 ^ 64 < z < 2 ^ 64 -> Float64.finiteOrZero (binary_normalize 53 1024 z 0 false).
Proof.
  intros H. destruct z; simpl; [exact I| |]; apply binary_round_finite; lia.
Qed.

Lemma mul_zero_is_zero (z : Z) (r : spec_float) :
  isInt64 z -> Float64.isZero r = true ->
  Float64.isZero (Float64.mul (Float64.ofInt z) r) = true.
Proof.
  intros Hz Hr. pose proof (ofInt_finite z) as Hf.
  unfold isInt64, minInt64, maxInt64 in Hz.
  specialize (Hf ltac:(lia)). unfold Float64.ofInt, Float64.mul, Float64.prec, Float64.emax.
  destruct (binary_normalize 53 1024 z 0 false); destruct r; simpl in *;
    try discriminate; try contradiction; reflexivity.
Qed.

(** *** The refresh window *)

Ltac static_send :=
  match goal with
  | |- context [sendToPersist ?x ?y] =>
      destruct (sendToPersist_frame x y) as (_ & -> & -> & -> & _)
  end.

Ltac static_insert :=
  match goal with
  | |- context [insertNew ?a ?b ?c ?d] =>
      destruct (insertNew_frame a b c d) as (-> & -> & -> & _)
  end.

Lemma applyOp_static (c c' : Cache) (o : cacheOp) :
  applyOp c o = Some c' ->
  ttl c' = ttl c /\ refreshWindow c' = refreshWindow c /\ shardCap c' = shardCap c.
Proof.
  intros Ho. destruct o; cbn [applyOp] in Ho; simplify_eq.
  - unfold Set_. destruct (shardAt _ _ !! key); static_send;
      cbn [emit ttl refreshWindow shardCap]; try static_insert;
      repeat split; reflexivity.
  - unfold SetWithTime. destruct (shardAt _ _ !! key);
      cbn [emit ttl refreshWindow shardCap]; try static_insert;
      repeat split; reflexivity.
  - unfold Delete. destruct (shardAt _ _ !! key);
      cbn [emit ttl refreshWindow shardCap]; try static_send;
      repeat split; reflexivity.
  - unfold cleanupShard. destruct (fold_left _ _ _). repeat split; reflexivity.
  - repeat split; reflexivity.
  - unfold recvPersist. destruct (Chan.recv _) as [[x ch]|]; repeat split; reflexivity.
  - unfold Close in Ho. destruct (stopped c); simplify_eq. repeat split; reflexivity.
Qed.

Lemma runOps_static (os : list cacheOp) (c c' : Cache) :
  runOps c os = Some c' ->
  ttl c' = ttl c /\ refreshWindow c' = refreshWindow c /\ shardCap c' = shardCap c.
Proof.
  revert c. induction os as [|o os IH]; intros c Hr; simpl in Hr.
  - simplify_eq. repeat split; reflexivity.
  - destruct (applyOp c o) as [c1|] eqn:Ho; [|discriminate].
    destruct (applyOp_static _ _ _ Ho) as (H1 & H2 & H3).
    destruct (IH _ Hr) as (H4 & H5 & H6).
    repeat split; congruence.
Qed.

Lemma Get_no_refresh (c : Cache) (key : string) :
  refreshWindow c <= 0 -> (Get c key).1.2 = false.
Proof.
  intros H. unfold Get. destruct (getShard c key !! key) as [e|]; [|reflexivity].
  destruct (exp e <=? now c); [reflexivity|]. simpl.
  assert (Hw : (0 <? refreshWindow c) = false) by (apply Z.ltb_ge; exact H).
  rewrite Hw. reflexivity.
Qed.

(** C8. New replaces a refresh ratio below 0 or at least 1 by 0; when
    the ratio in effect is zero the refresh window is 0, and then, for
    every key and after any operations (the ticks of the clock among
    them), Get reports needs_refresh = false. *)
Theorem C8_ratio_coerced_window_zero (ttl0 : Z) (ratio : spec_float) (now0 : Z) :
  isInt64 ttl0 ->
  (Float64.lt ratio Float64.zero = true \/ Float64.ge ratio Float64.one = true ->
   effectiveRatio ratio = Float64.zero)
  /\ (Float64.isZero (effectiveRatio ratio) = true ->
      refreshWindow (New ttl0 ratio now0) = 0
      /\ forall os c key,
           runOps (New ttl0 ratio now0) os = Some c -> (Get c key).1.2 = false).
Proof.
  intros Httl. split.
  - intros H. unfold effectiveRatio. destruct H as [H|H]; rewrite H; simpl.
    + reflexivity.
    + rewrite orb_true_r. reflexivity.
  - intros Hz.
    assert (Hw : refreshWindow (New ttl0 ratio now0) = 0).
    { unfold New. simpl. pose proof (mul_zero_is_zero ttl0 _ Httl Hz) as Hm.
      destruct (Float64.mul (Float64.ofInt ttl0) (effectiveRatio ratio));
        simpl in Hm; try discriminate. reflexivity. }
    split; [exact Hw|]. intros os c key Hr.
    destruct (runOps_static _ _ _ Hr) as (_ & H2 & _).
    apply Get_no_refresh. rewrite H2, Hw. lia.
Qed.

(** ** The tag normalizer *)

Import Model.

Lemma seqb_true (a b : string) : seqb a b = true <-> a = b.
Proof. unfold seqb. apply bool_decide_eq_true. Qed.

Lemma seqb_false (a b : string) : seqb a b = false <-> a <> b.
Proof. unfold seqb. apply bool_decide_eq_false. Qed.

(** A string built around an underscore contains one. *)
Lemma underscore_occurs (p i : string) : Strings.Contains (p +:+ "_" +:+ i) "_" = true.
Proof.
  induction p as [|a p IH]; simpl.
  - reflexivity.
  - rewrite IH. apply orb_true_r.
Qed.

Lemma tag_not_fallback (p i : string) : p +:+ "_" +:+ i <> "fallback".
Proof.
  intros H. pose proof (underscore_occurs p i) as Hc. rewrite H in Hc.
  vm_compute in Hc. discriminate.
Qed.

Lemma ToTag_fallback_iff (i : IPInfo) :
  ToTag i = "fallback" <-> ProvinceCode i = "" \/ ISPCode i = "".
Proof.
  unfold ToTag. destruct (seqb (ProvinceCode i) "") eqn:Hp; simpl.
  - apply seqb_true in Hp. split; auto.
  - destruct (seqb (ISPCode i) "") eqn:Hi.
    + apply seqb_true in Hi. split; auto.
    + apply seqb_false in Hp. apply seqb_false in Hi. split.
      * intros H. exfalso. exact (tag_not_fallback _ _ H).
      * intros [H|H]; contradiction.
Qed.

Lemma ToTag_codes (i : IPInfo) :
  ProvinceCode i <> "" -> ISPCode i <> "" ->
  ToTag i = ProvinceCode i +:+ "_" +:+ ISPCode i.
Proof.
  intros Hp Hi. unfold ToTag.
  apply seqb_false in Hp. apply seqb_false in Hi. rewrite Hp, Hi. reflexivity.
Qed.

(** What the two detections leave in the code fields. *)
Lemma detectProvinceCode_fields (i : IPInfo) :
  Province (detectProvinceCode i) = Province i
  /\ ISP (detectProvinceCode i) = ISP i
  /\ ISPCode (detectProvinceCode i) = ISPCode i.
Proof. unfold detectProvinceCode. repeat case_match; repeat split; reflexivity. Qed.

Lemma detectISPCode_fields (i : IPInfo) :
  Province (detectISPCode i) = Province i
  /\ ISP (detectISPCode i) = ISP i
  /\ ProvinceCode (detectISPCode i) = ProvinceCode i.
Proof. unfold detectISPCode. repeat case_match; repeat split; reflexivity. Qed.

(** Province detection, as a function of the province text alone. *)
Lemma detectProvinceCode_code (i : IPInfo) :
  ProvinceCode (detectProvinceCode i) =
  if seqb (Strings.TrimSpace (Province i)) "" then ProvinceCode i
  else
    let c := matchPrefix provinceTrieRoot
               (Strings.ToLower (Strings.TrimSpace (Province i))) in
    if seqb c "" then ProvinceCode i else c.
Proof. unfold detectProvinceCode. repeat case_match; reflexivity. Qed.

Lemma detectISPCode_code (i : IPInfo) :
  ISPCode (detectISPCode i) =
  if seqb (Strings.ToUpper (Strings.TrimSpace (ISP i))) "" then ISPCode i
  else
    match firstRule ispRules (Strings.ToUpper (Strings.TrimSpace (ISP i))) with
    | Some c => c
    | None => ISPCode i
    end.
Proof. unfold detectISPCode. repeat case_match; reflexivity. Qed.

Lemma Standardize_codes (i : IPInfo) :
  ProvinceCode (Standardize i) = ProvinceCode (detectProvinceCode i)
  /\ ISPCode (Standardize i) = ISPCode (detectISPCode i).
Proof.
  unfold Standardize. split.
  - apply detectISPCode_fields.
  - rewrite !detectISPCode_code.
    destruct (detectProvinceCode_fields i) as (_ & Hisp & Hcode).
    rewrite Hisp, Hcode. reflexivity.
Qed.

(** *** The trie *)

Lemma child_setChild_eq cs r n : child (setChild cs r n) r = Some n.
Proof.
  induction cs as [|[r' n'] cs IH]; simpl.
  - rewrite Z.eqb_refl. reflexivity.
  - destruct (r' =? r) eqn:E; simpl.
    + rewrite Z.eqb_refl. reflexivity.
    + rewrite E. exact IH.
Qed.

Lemma child_setChild_ne cs r r' n : r <> r' -> child (setChild cs r n) r' = child cs r'.
Proof.
  intros Hne. induction cs as [|[r0 n0] cs IH]; simpl.
  - apply Z.eqb_neq in Hne. rewrite Hne. reflexivity.
  - destruct (r0 =? r) eqn:E; simpl.
    + apply Z.eqb_eq in E. subst r0.
      apply Z.eqb_neq in Hne. rewrite Hne. reflexivity.
    + destruct (r0 =? r'); [reflexivity|exact IH].
Qed.

Lemma codeAt_new (path : list Z) : codeAt newTrieNode path = "".
Proof. destruct path; reflexivity. Qed.

Lemma codeAt_cons (t : trieNode) (r : Z) (path : list Z) :
  codeAt t (r :: path) =
  match child (children t) r with
  | Some n => codeAt n path
  | None => ""
  end.
Proof. unfold codeAt. simpl. destruct (child (children t) r); reflexivity. Qed.

(** insert changes the code at its key and nowhere else. *)
Lemma codeAt_insertRunes (key : list Z) :
  forall (t : trieNode) (c : string) (path : list Z),
    codeAt (insertRunes t key c) path =
    if decide (path = key) then c else codeAt t path.
Proof.
  induction key as [|r key IH]; intros t c path.
  - destruct path as [|r' path].
    + rewrite decide_True by reflexivity. reflexivity.
    + rewrite decide_False by discriminate. simpl.
      rewrite !codeAt_cons. reflexivity.
  - destruct path as [|r' path].
    + rewrite decide_False by discriminate. reflexivity.
    + simpl. rewrite !codeAt_cons. simpl.
      destruct (decide (r = r')) as [->|Hne].
      * rewrite child_setChild_eq, IH.
        destruct (decide (path = key)) as [->|Hp].
        -- rewrite decide_True by reflexivity. reflexivity.
        -- rewrite decide_False by congruence.
           destruct (child (children t) r'); [reflexivity|apply codeAt_new].
      * rewrite child_setChild_ne by exact Hne.
        rewrite decide_False by congruence. reflexivity.
Qed.

(** matchPrefix returns the code of the shortest prefix of the input
    whose node carries a code, and the empty string when no prefix does. *)
Lemma matchRunes_first_coded (input : list Z) :
  forall (t : trieNode),
    let c := matchRunes t input in
    (c = "" /\ forall n, (0 < n <= length input)%nat -> codeAt t (take n input) = "")
    \/ (c <> "" /\ exists n, (0 < n <= length input)%nat
                          /\ codeAt t (take n input) = c
                          /\ forall m, (0 < m < n)%nat -> codeAt t (take m input) = "").
Proof.
  induction input as [|r rest IH]; intros t; simpl.
  - left. split; [reflexivity|]. intros n Hn. lia.
  - destruct (child (children t) r) as [next|] eqn:Hch.
    + destruct (seqb (code next) "") eqn:Hc.
      * apply seqb_true in Hc.
        assert (Hstep : forall n, (0 < n)%nat ->
                  codeAt t (take n (r :: rest)) = codeAt next (take (n - 1) rest)).
        { intros n Hn. destruct n as [|n]; [lia|]. simpl.
          rewrite codeAt_cons, Hch. rewrite Nat.sub_0_r. reflexivity. }
        destruct (IH next) as [[H0 Hall]|[Hne (n & Hn & Hcode & Hmin)]].
        -- left. split; [exact H0|]. intros n Hn. rewrite Hstep by lia.
           destruct (decide (n = 1%nat)) as [->|Hn1].
           ++ simpl. unfold codeAt. simpl. exact Hc.
           ++ apply Hall. lia.
        -- right. split; [exact Hne|]. exists (S n). split; [lia|]. split.
           ++ rewrite Hstep by lia. simpl. rewrite Nat.sub_0_r. exact Hcode.
           ++ intros m Hm. rewrite Hstep by lia.
              destruct (decide (m = 1%nat)) as [->|Hm1].
              ** simpl. unfold codeAt. simpl. exact Hc.
              ** apply Hmin. lia.
      * apply seqb_false in Hc. right. split; [exact Hc|].
        exists 1%nat. split; [lia|]. split.
        -- simpl. rewrite codeAt_cons, Hch. reflexivity.
        -- intros m Hm. lia.
    + left. split; [reflexivity|]. intros n Hn.
      destruct n as [|n]; [lia|]. simpl. rewrite codeAt_cons, Hch. reflexivity.
Qed.

Lemma codeAt_initStep (t : trieNode) (kv : string * string) (path : list Z) :
  codeAt (initStep t kv) path =
  if decide (path = Utf8.runes kv.2) then kv.2
  else if decide (path = Utf8.runes kv.1) then kv.2
  else codeAt t path.
Proof. unfold initStep, insert. rewrite !codeAt_insertRunes. reflexivity. Qed.

Lemma elem_of_keysOf (entries : list (string * string)) (path : list Z) :
  path ∈ keysOf entries <->
  exists kv, kv ∈ entries /\ (path = Utf8.runes kv.1 \/ path = Utf8.runes kv.2).
Proof.
  unfold keysOf. rewrite list_elem_of_bind. split.
  - intros (kv & Hp & Hkv). exists kv. split; [exact Hkv|].
    apply elem_of_cons in Hp as [Hp|Hp]; [left; exact Hp|].
    apply list_elem_of_singleton in Hp. right. exact Hp.
  - intros (kv & Hkv & Hp). exists kv. split; [|exact Hkv].
    destruct Hp as [->| ->]; [left|right; left].
Qed.

(** A path that is no key keeps its code through the loop of [init]. *)
Lemma codeAt_build_other (entries : list (string * string)) :
  forall (t0 : trieNode) (path : list Z),
    path ∉ keysOf entries ->
    codeAt (fold_left initStep entries t0) path = codeAt t0 path.
Proof.
  induction entries as [|kv l IH]; intros t0 path Hnot; simpl; [reflexivity|].
  rewrite IH.
  - rewrite codeAt_initStep.
    rewrite decide_False, decide_False; [reflexivity| |];
      intros ->; apply Hnot; apply elem_of_keysOf; exists kv;
      (split; [left|]); [left|right]; reflexivity.
  - intros Hin. apply Hnot. apply elem_of_keysOf.
    apply elem_of_keysOf in Hin as (kv' & Hkv' & Hp).
    exists kv'. split; [right; exact Hkv'|exact Hp].
Qed.

(** When the keys are pairwise distinct, each of them carries the code of
    its entry, in whatever order the entries were inserted. *)
Lemma codeAt_build_key (entries : list (string * string)) :
  forall (t0 : trieNode) (kv : string * string),
    NoDup (keysOf entries) -> kv ∈ entries ->
    codeAt (fold_left initStep entries t0) (Utf8.runes kv.1) = kv.2
    /\ codeAt (fold_left initStep entries t0) (Utf8.runes kv.2) = kv.2.
Proof.
  induction entries as [|kv0 l IH]; intros t0 kv Hnd Hin; [inversion Hin|].
  change (keysOf (kv0 :: l))
    with (Utf8.runes kv0.1 :: Utf8.runes kv0.2 :: keysOf l) in Hnd.
  apply NoDup_cons in Hnd as [H1 Hnd]. apply NoDup_cons in Hnd as [H2 Hnd].
  apply elem_of_cons in Hin as [->|Hin].
  - simpl. rewrite !codeAt_build_other.
    + rewrite !codeAt_initStep. split.
      * destruct (decide (Utf8.runes kv0.1 = Utf8.runes kv0.2)); [reflexivity|].
        rewrite decide_True by reflexivity. reflexivity.
      * rewrite decide_True by reflexivity. reflexivity.
    + exact H2.
    + intros Hin. apply H1. right. exact Hin.
  - simpl. apply IH; assumption.
Qed.

Lemma NoDup_keys_cnMap : NoDup (keysOf cnMap).
Proof. apply (bool_decide_unpack _). vm_compute. reflexivity. Qed.

Lemma codeAt_determines_match (t1 t2 : trieNode) (input : list Z) :
  (forall path, codeAt t1 path = codeAt t2 path) ->
  matchRunes t1 input = matchRunes t2 input.
Proof.
  intros Heq.
  destruct (matchRunes_first_coded input t1) as [[H1 A1]|[N1 (n1 & Hn1 & C1 & M1)]];
    destruct (matchRunes_first_coded input t2) as [[H2 A2]|[N2 (n2 & Hn2 & C2 & M2)]].
  - congruence.
  - exfalso. apply N2. rewrite <- C2, <- Heq. apply A1. exact Hn2.
  - exfalso. apply N1. rewrite <- C1, Heq. apply A2. exact Hn1.
  - destruct (lt_eq_lt_dec n1 n2) as [[Hlt|Heqn]|Hgt].
    + exfalso. apply N1. rewrite <- C1, Heq. apply M2. lia.
    + subst n2. rewrite <- C1, <- C2. apply Heq.
    + exfalso. apply N2. rewrite <- C2, <- Heq. apply M1. lia.
Qed.

(** The order in which [init] ranges over its map does not matter:
    every order of the entries gives a trie with the same matches. *)
Lemma trie_order_independent (entries : list (string * string)) (input : string) :
  entries ≡ₚ cnMap ->
  matchPrefix (buildTrie entries) input = matchPrefix provinceTrieRoot input.
Proof.
  intros Hperm. unfold matchPrefix. apply codeAt_determines_match. intros path.
  unfold provinceTrieRoot, buildTrie.
  assert (Hk : keysOf entries ≡ₚ keysOf cnMap).
  { unfold keysOf. rewrite Hperm. reflexivity. }
  pose proof NoDup_keys_cnMap as Hnd.
  assert (Hnd' : NoDup (keysOf entries)) by (rewrite Hk; exact Hnd).
  destruct (decide (path ∈ keysOf cnMap)) as [Hin|Hnot].
  - apply elem_of_keysOf in Hin as (kv & Hkv & Hp).
    assert (Hkv' : kv ∈ entries) by (rewrite Hperm; exact Hkv).
    destruct (codeAt_build_key entries newTrieNode kv Hnd' Hkv') as [A1 A2].
    destruct (codeAt_build_key cnMap newTrieNode kv Hnd Hkv) as [B1 B2].
    destruct Hp as [->| ->]; congruence.
  - rewrite !codeAt_build_other; [reflexivity|exact Hnot|].
    rewrite Hk. exact Hnot.
Qed.

(** *** Codes the detections can produce *)

Lemma firstRule_code (rules : list ispRule) (raw c : string) :
  firstRule rules raw = Some c -> c ∈ Code <$> rules.
Proof.
  induction rules as [|rule rules IH]; simpl; [discriminate|].
  destruct (existsb (fun kw => Strings.Contains raw kw) (Keywords rule)).
  - intros H. simplify_eq. left.
  - intros H. right. apply IH. exact H.
Qed.

Ltac in_list :=
  apply list_elem_of_In; simpl; repeat (first [left; reflexivity | right]).

Lemma detectISPCode_new_range (p s : string) :
  ISPCode (detectISPCode (newIPInfo p s)) ∈ ["ct"; "cu"; "cmcc"; "edu"; "gwbn"; "cbn"; ""].
Proof.
  rewrite detectISPCode_code. unfold newIPInfo. cbn [ISP ISPCode].
  destruct (seqb (Strings.ToUpper (Strings.TrimSpace s)) "").
  - in_list.
  - destruct (firstRule ispRules (Strings.ToUpper (Strings.TrimSpace s))) as [c|] eqn:E.
    + apply firstRule_code in E. apply list_elem_of_In in E. simpl in E.
      destruct E as [<-|[<-|[<-|[<-|[<-|[<-|[]]]]]]]; in_list.
    + in_list.
Qed.

Lemma codeAt_root (path : list Z) :
  codeAt provinceTrieRoot path = "" \/ codeAt provinceTrieRoot path ∈ cnMap.*2.
Proof.
  unfold provinceTrieRoot, buildTrie.
  destruct (decide (path ∈ keysOf cnMap)) as [Hin|Hnot].
  - right. apply elem_of_keysOf in Hin as (kv & Hkv & Hp).
    destruct (codeAt_build_key cnMap newTrieNode kv NoDup_keys_cnMap Hkv) as [A1 A2].
    apply list_elem_of_fmap. exists kv. split; [|exact Hkv].
    destruct Hp as [->| ->]; assumption.
  - left. rewrite codeAt_build_other by exact Hnot. apply codeAt_new.
Qed.

Lemma matchPrefix_root_range (input : string) :
  matchPrefix provinceTrieRoot input = ""
  \/ matchPrefix provinceTrieRoot input ∈ cnMap.*2.
Proof.
  unfold matchPrefix.
  destruct (matchRunes_first_coded (Utf8.runes input) provinceTrieRoot)
    as [[H0 _]|[Hne (n & _ & Hc & _)]].
  - left. exact H0.
  - destruct (codeAt_root (take n (Utf8.runes input))) as [H|H].
    + exfalso. apply Hne. rewrite <- Hc. exact H.
    + right. rewrite <- Hc. exact H.
Qed.

Lemma detectProvinceCode_new (p s : string) :
  ProvinceCode (detectProvinceCode (newIPInfo p s)) =
  if seqb (Strings.TrimSpace p) "" then ""
  else matchPrefix provinceTrieRoot (Strings.ToLower (Strings.TrimSpace p)).
Proof.
  rewrite detectProvinceCode_code. simpl.
  destruct (seqb (Strings.TrimSpace p) ""); [reflexivity|].
  destruct (seqb (matchPrefix provinceTrieRoot
                    (Strings.ToLower (Strings.TrimSpace p))) "") eqn:E.
  - apply seqb_true in E. symmetry. exact E.
  - reflexivity.
Qed.

Lemma detectProvinceCode_new_range (p s : string) :
  ProvinceCode (detectProvinceCode (newIPInfo p s)) = ""
  \/ ProvinceCode (detectProvinceCode (newIPInfo p s)) ∈ cnMap.*2.
Proof.
  rewrite detectProvinceCode_new.
  destruct (seqb (Strings.TrimSpace p) ""); [left; reflexivity|].
  apply matchPrefix_root_range.
Qed.

(** Every name and every code of the table is detected as its code. *)
Lemma province_table_detected (kv : string * string) (s : string) :
  kv ∈ cnMap ->
  ProvinceCode (detectProvinceCode (newIPInfo kv.1 s)) = kv.2
  /\ ProvinceCode (detectProvinceCode (newIPInfo kv.2 s)) = kv.2.
Proof.
  intros Hkv. rewrite !detectProvinceCode_new.
  assert (Hall : Forall (fun kv : string * string =>
            (if seqb (Strings.TrimSpace kv.1) "" then ""
             else matchPrefix provinceTrieRoot
                    (Strings.ToLower (Strings.TrimSpace kv.1))) = kv.2
            /\ (if seqb (Strings.TrimSpace kv.2) "" then ""
                else matchPrefix provinceTrieRoot
                       (Strings.ToLower (Strings.TrimSpace kv.2))) = kv.2) cnMap).
  { apply (bool_decide_unpack _). vm_compute. reflexivity. }
  rewrite Forall_forall in Hall. apply Hall. exact Hkv.
Qed.

Lemma province_code_fixed (c s : string) :
  c = "" \/ c ∈ cnMap.*2 ->
  ProvinceCode (detectProvinceCode (newIPInfo c s)) = c.
Proof.
  intros [->|Hc].
  - rewrite detectProvinceCode_new. reflexivity.
  - apply list_elem_of_fmap in Hc as (kv & -> & Hkv).
    apply province_table_detected. exact Hkv.
Qed.

Lemma normalize_unfold (p s : string) :
  normalize p s =
  let pc := ProvinceCode (detectProvinceCode (newIPInfo p s)) in
  let ic := ISPCode (detectISPCode (newIPInfo p s)) in
  if seqb pc "" || seqb ic "" then "fallback" else pc +:+ "_" +:+ ic.
Proof.
  unfold normalize, ToTag.
  destruct (Standardize_codes (newIPInfo p s)) as [-> ->]. reflexivity.
Qed.

Lemma byteZ_byteOfZ (z : Z) : 0 <= z < 256 -> byteZ (byteOfZ z) = z.
Proof.
  intros Hz. unfold byteZ, byteOfZ.
  rewrite N_ascii_embedding.
  - rewrite Z2N.id by (apply Z.mod_pos_bound; lia). apply Z.mod_small. exact Hz.
  - apply N2Z.inj_lt. rewrite Z2N.id by (apply Z.mod_pos_bound; lia).
    change (Z.of_N 256) with 256. apply Z.mod_pos_bound. lia.
Qed.

Lemma sbytes_range (s : string) : Forall (fun b => 0 <= b < 256) (sbytes s).
Proof.
  induction s as [|a s IH]; simpl; constructor; [apply byteZ_range|exact IH].
Qed.

(** On a text of ASCII bytes ToLower adds 32 to the bytes from A to Z and
    leaves the others. *)
Lemma ToLower_ascii (p : string) :
  Forall (fun b => b < 128) (sbytes p) ->
  sbytes (Strings.ToLower p)
  = (fun b => if (65 <=? b) && (b <=? 90) then b + 32 else b) <$> sbytes p.
Proof.
  intros Hascii. unfold Strings.ToLower.
  assert (Hall : Strings.isASCII (sbytes p) = true).
  { unfold Strings.isASCII. apply forallb_forall. intros b Hb.
    rewrite Forall_forall in Hascii. apply list_elem_of_In in Hb.
    apply Z.ltb_lt. unfold Utf8.RuneSelf. exact (Hascii b Hb). }
  rewrite Hall. clear Hall.
  pose proof (sbytes_range p) as Hrange.
  assert (Hlow : forall b, b < 128 ->
            Unicode.ToLower b = if (65 <=? b) && (b <=? 90) then b + 32 else b).
  { intros b Hb. unfold Unicode.ToLower, Unicode.MaxASCII.
    replace (b <=? 127) with true by (symmetry; apply Z.leb_le; lia).
    reflexivity. }
  induction (sbytes p) as [|b l IH]; [reflexivity|].
  apply Forall_cons in Hascii as [Hb Hascii].
  apply Forall_cons in Hrange as [Hr Hrange].
  cbn [map ofBytes sbytes fmap list_fmap].
  rewrite (IH Hascii Hrange), (Hlow b Hb).
  rewrite byteZ_byteOfZ; [reflexivity|].
  destruct ((65 <=? b) && (b <=? 90)) eqn:E; [|exact Hr].
  apply andb_true_iff in E as [E1 E2]. apply Z.leb_le in E1. apply Z.leb_le in E2. lia.
Qed.

(** The names and the codes of the table with white space around them,
    and the codes in capitals. *)
Lemma province_table_spaced_and_capital :
  Forall (fun kv : string * string =>
    Forall (fun l : string => Forall (fun r : string =>
      ProvinceCode (detectProvinceCode (newIPInfo (l +:+ kv.1 +:+ r) "")) = kv.2
      /\ ProvinceCode (detectProvinceCode (newIPInfo (l +:+ kv.2 +:+ r) "")) = kv.2)
      [""; " "; String "009" (String "032" ""); String "013" (String "010" ""); "　"])
      [""; " "; String "009" (String "032" ""); String "013" (String "010" ""); "　"]
    /\ ProvinceCode (detectProvinceCode
         (newIPInfo (ofBytes ((fun b => if (97 <=? b) && (b <=? 122) then b - 32 else b)
                              <$> sbytes kv.2)) "")) = kv.2) cnMap.
Proof. apply (bool_decide_unpack _). vm_compute. reflexivity. Qed.

Lemma detectProvinceCode_any_isp (p s s' : string) :
  ProvinceCode (detectProvinceCode (newIPInfo p s))
  = ProvinceCode (detectProvinceCode (newIPInfo p s')).
Proof. rewrite !detectProvinceCode_new. reflexivity. Qed.

(** C7. ToTag returns "fallback" exactly when one of the two codes is
    empty and "{province_code}_{isp_code}" otherwise; on what a provider
    returned, the codes are those the two detections yield. Province
    detection lowercases the trimmed text and matches it against the trie;
    matchPrefix walks rune by rune and returns the code of the first node
    on the path that carries one (the empty string if there is none).
    Every name of the table, 内蒙古 and its long form among them, and every
    code, guangdong among them, is detected as its code.

    Lowercasing and trimming are those of the Go library: on ASCII text
    the bytes A to Z are moved to a to z and no other byte changes; every
    name and code of the table is still detected with blanks, tabs, line
    ends or ideographic spaces around it, and every code written in
    capitals is detected as that code. matchPrefix itself does neither:
    it finds nothing in GuangDong or in a text that starts with a blank. *)
Theorem C7_ToTag_and_province_detection :
  (forall i : IPInfo,
      (ToTag i = "fallback" <-> ProvinceCode i = "" \/ ISPCode i = "")
      /\ (ProvinceCode i <> "" -> ISPCode i <> "" ->
          ToTag i = ProvinceCode i +:+ "_" +:+ ISPCode i))
  /\ (forall p s : string,
         normalize p s = "fallback" <->
         ProvinceCode (detectProvinceCode (newIPInfo p s)) = ""
         \/ ISPCode (detectISPCode (newIPInfo p s)) = "")
  /\ (forall p s : string,
         ProvinceCode (detectProvinceCode (newIPInfo p s)) =
         if seqb (Strings.TrimSpace p) "" then ""
         else matchPrefix provinceTrieRoot (Strings.ToLower (Strings.TrimSpace p)))
  /\ (forall (t : trieNode) (input : string),
         let c := matchPrefix t input in
         let rs := Utf8.runes input in
         (c = "" /\ forall n, (0 < n <= length rs)%nat -> codeAt t (take n rs) = "")
         \/ (c <> "" /\ exists n, (0 < n <= length rs)%nat
                               /\ codeAt t (take n rs) = c
                               /\ forall m, (0 < m < n)%nat -> codeAt t (take m rs) = ""))
  /\ (forall (kv : string * string) (s : string),
         kv ∈ cnMap ->
         ProvinceCode (detectProvinceCode (newIPInfo kv.1 s)) = kv.2
         /\ ProvinceCode (detectProvinceCode (newIPInfo kv.2 s)) = kv.2)
  /\ matchPrefix provinceTrieRoot "内蒙古" = "neimenggu"
  /\ matchPrefix provinceTrieRoot "内蒙古自治区" = "neimenggu"
  /\ matchPrefix provinceTrieRoot "内蒙" = ""
  /\ matchPrefix provinceTrieRoot "guangdong" = "guangdong"
  /\ (forall p : string,
         Forall (fun b => b < 128) (sbytes p) ->
         sbytes (Strings.ToLower p)
         = (fun b => if (65 <=? b) && (b <=? 90) then b + 32 else b) <$> sbytes p)
  /\ (forall (kv : string * string) (l r s : string),
         kv ∈ cnMap ->
         l ∈ [""; " "; String "009" (String "032" ""); String "013" (String "010" ""); "　"] ->
         r ∈ [""; " "; String "009" (String "032" ""); String "013" (String "010" ""); "　"] ->
         ProvinceCode (detectProvinceCode (newIPInfo (l +:+ kv.1 +:+ r) s)) = kv.2
         /\ ProvinceCode (detectProvinceCode (newIPInfo (l +:+ kv.2 +:+ r) s)) = kv.2)
  /\ (forall (kv : string * string) (s : string),
         kv ∈ cnMap ->
         ProvinceCode (detectProvinceCode
           (newIPInfo (ofBytes ((fun b => if (97 <=? b) && (b <=? 122) then b - 32 else b)
                                <$> sbytes kv.2)) s)) = kv.2)
  /\ Strings.ToLower "GuangDong 内蒙古 SHENG" = "guangdong 内蒙古 sheng"
  /\ Strings.TrimSpace (String "009" " 广东省 　" +:+ String "013" (String "010" "")) = "广东省"
  /\ Strings.TrimSpace " Guang Dong " = "Guang Dong"
  /\ matchPrefix provinceTrieRoot "GuangDong" = ""
  /\ matchPrefix provinceTrieRoot " guangdong" = ""
  /\ normalize " GuangDong Province " " China Telecom " = "guangdong_ct"
  /\ normalize "NEIMENGGU" "CHINA UNICOM" = "neimenggu_cu"
  /\ normalize (String "009" "内蒙古自治区呼和浩特市 ") "中国移动" = "neimenggu_cmcc"
  /\ normalize "Beijing" "移动" = "beijing_cmcc"
  /\ normalize "   " "电信" = "fallback".
Proof.
  split; [intros i; split; [apply ToTag_fallback_iff|apply ToTag_codes]|].
  split.
  { intros p s. unfold normalize. rewrite ToTag_fallback_iff.
    destruct (Standardize_codes (newIPInfo p s)) as [-> ->]. reflexivity. }
  split; [apply detectProvinceCode_new|].
  split; [intros t input; apply matchRunes_first_coded|].
  split; [intros kv s; apply province_table_detected|].
  do 4 (split; [vm_compute; reflexivity|]).
  split; [exact ToLower_ascii|].
  split.
  { intros kv l r s Hkv Hl Hr.
    pose proof province_table_spaced_and_capital as Hall.
    rewrite Forall_forall in Hall. destruct (Hall kv Hkv) as [Hpad _].
    rewrite Forall_forall in Hpad. specialize (Hpad l Hl).
    rewrite Forall_forall in Hpad. specialize (Hpad r Hr).
    rewrite (detectProvinceCode_any_isp _ s ""),
            (detectProvinceCode_any_isp (l +:+ kv.2 +:+ r) s "").
    exact Hpad. }
  split.
  { intros kv s Hkv.
    pose proof province_table_spaced_and_capital as Hall.
    rewrite Forall_forall in Hall. destruct (Hall kv Hkv) as [_ Hcap].
    rewrite (detectProvinceCode_any_isp _ s ""). exact Hcap. }
  repeat split; vm_compute; reflexivity.
Qed.

(** *** Normalizing twice *)

Lemma isp_code_again (pc ic : string) :
  ic ∈ ["ct"; "cu"; "cmcc"; "edu"; "gwbn"; "cbn"; ""] ->
  ISPCode (detectISPCode (newIPInfo pc ic)) =
  if bool_decide (ic ∈ ["edu"; "gwbn"; "cbn"]) then ic else "".
Proof.
  intros H. rewrite detectISPCode_code. simpl.
  apply list_elem_of_In in H. simpl in H.
  destruct H as [<-|[<-|[<-|[<-|[<-|[<-|[<-|[]]]]]]]]; vm_compute; reflexivity.
Qed.

Lemma renormalize_unfold (p s : string) :
  renormalize p s =
  let pc := ProvinceCode (detectProvinceCode (newIPInfo p s)) in
  let ic := ISPCode (detectISPCode (newIPInfo p s)) in
  if seqb pc "" || negb (bool_decide (ic ∈ ["edu"; "gwbn"; "cbn"]))
  then "fallback" else pc +:+ "_" +:+ ic.
Proof.
  unfold renormalize. destruct (Standardize_codes (newIPInfo p s)) as [-> ->].
  rewrite normalize_unfold. cbv zeta.
  rewrite province_code_fixed by apply detectProvinceCode_new_range.
  rewrite isp_code_again by apply detectISPCode_new_range.
  set (pc := ProvinceCode (detectProvinceCode (newIPInfo p s))).
  set (ic := ISPCode (detectISPCode (newIPInfo p s))).
  destruct (bool_decide (ic ∈ ["edu"; "gwbn"; "cbn"])) eqn:E; simpl.
  - destruct (seqb pc ""); simpl; [reflexivity|].
    apply bool_decide_eq_true in E.
    assert (Hne : seqb ic "" = false).
    { apply seqb_false. intros Hic. rewrite Hic in E.
      apply list_elem_of_In in E. simpl in E. intuition discriminate. }
    rewrite Hne. reflexivity.
  - rewrite orb_true_r. destruct (seqb pc ""); reflexivity.
Qed.

(** C6, as the code has it. For every province and isp text, feeding the
    codes of a first normalization back yields the same tag exactly when
    that tag is "fallback" or the ISP code is edu, gwbn or cbn (the codes
    that are keywords of their own rule); with a recognized province and
    the ISP code ct, cu or cmcc the second normalization yields
    "fallback". *)
Theorem C6_renormalize_same_iff (p s : string) :
  (renormalize p s = normalize p s <->
   normalize p s = "fallback"
   \/ ISPCode (Standardize (newIPInfo p s)) ∈ ["edu"; "gwbn"; "cbn"])
  /\ (ISPCode (Standardize (newIPInfo p s)) ∈ ["ct"; "cu"; "cmcc"] ->
      renormalize p s = "fallback").
Proof.
  rewrite renormalize_unfold, normalize_unfold.
  destruct (Standardize_codes (newIPInfo p s)) as [_ ->]. cbv zeta.
  set (pc := ProvinceCode (detectProvinceCode (newIPInfo p s))).
  set (ic := ISPCode (detectISPCode (newIPInfo p s))).
  destruct (bool_decide (ic ∈ ["edu"; "gwbn"; "cbn"])) eqn:E; simpl.
  - apply bool_decide_eq_true in E.
    assert (Hne : seqb ic "" = false).
    { apply seqb_false. intros Hic. rewrite Hic in E.
      apply list_elem_of_In in E. simpl in E. intuition discriminate. }
    rewrite Hne, !orb_false_r. split.
    + split; [intros _; right; exact E|reflexivity].
    + intros H. exfalso.
      apply list_elem_of_In in E. apply list_elem_of_In in H. simpl in E, H.
      destruct E as [<-|[<-|[<-|[]]]]; intuition discriminate.
  - apply bool_decide_eq_false in E. rewrite orb_true_r. split.
    + split.
      * intros H. left. symmetry. exact H.
      * intros [H|H]; [symmetry; exact H|contradiction].
    + reflexivity.
Qed.

(** The claim as stated fails on the vocabulary: 广东 with 电信 is tagged
    guangdong_ct, and the codes guangdong and ct are tagged fallback. *)
Lemma C6_counterexample :
  ~ (forall p s : string,
        p ∈ provinceVocabulary -> s ∈ ispVocabulary ->
        renormalize p s = normalize p s).
Proof.
  intros H.
  assert (Hp : "广东" ∈ provinceVocabulary) by (apply (bool_decide_unpack _); vm_compute; reflexivity).
  assert (Hs : "电信" ∈ ispVocabulary) by (apply (bool_decide_unpack _); vm_compute; reflexivity).
  specialize (H _ _ Hp Hs). vm_compute in H. discriminate.
Qed.

(** ** The request handler *)

Import Worker.

Lemma thirdDot_few_dots (s : string) :
  forall i d, (d + dots s < 3)%nat -> thirdDot s i d = None.
Proof.
  induction s as [|a s IH]; intros i d H; simpl in *; [reflexivity|].
  destruct (Ascii.eqb a "."%char).
  - assert (Hd : (d =? 2)%nat = false) by (apply Nat.eqb_neq; lia).
    rewrite Hd. apply IH. lia.
  - apply IH. lia.
Qed.

Lemma getCacheKey_few_dots (s : string) : (dots s < 3)%nat -> getCacheKey s = s.
Proof.
  intros H. unfold getCacheKey. rewrite thirdDot_few_dots by (simpl; lia). reflexivity.
Qed.

Lemma thirdDot_found (s : string) :
  forall i d, (d < 3)%nat -> (3 <= d + dots s)%nat ->
    exists n rest, thirdDot s i d = Some (i + n)%nat
                   /\ s = stake n s +:+ "." +:+ rest
                   /\ (d + dots (stake n s) = 2)%nat.
Proof.
  induction s as [|a s IH]; intros i d Hd H; simpl in H; [lia|].
  cbn [thirdDot]. destruct (Ascii.eqb a "."%char) eqn:Ea.
  - apply Ascii.eqb_eq in Ea. subst a.
    destruct (decide (d = 2%nat)) as [->|Hne].
    + exists 0%nat, s. simpl. split; [f_equal; lia|]. split; reflexivity.
    + assert (Hb : (S d =? 3)%nat = false) by (apply Nat.eqb_neq; lia).
      rewrite Hb. destruct (IH (S i) (S d) ltac:(lia) ltac:(lia)) as (n & rest & H1 & H2 & H3).
      exists (S n), rest. split; [rewrite H1; f_equal; lia|]. split.
      * cbn [stake].
        change (String "." (stake n s) +:+ "." +:+ rest)
          with (String "." (stake n s +:+ "." +:+ rest)).
        f_equal. exact H2.
      * simpl. lia.
  - destruct (IH (S i) d Hd ltac:(lia)) as (n & rest & H1 & H2 & H3).
    exists (S n), rest. split; [rewrite H1; f_equal; lia|]. split.
    + cbn [stake].
      change (String a (stake n s) +:+ "." +:+ rest)
        with (String a (stake n s +:+ "." +:+ rest)).
      f_equal. exact H2.
    + simpl. rewrite Ea. simpl. exact H3.
Qed.

(** The key of a string with three dots or more is its text before the
    third dot. *)
Lemma getCacheKey_three_dots (s : string) :
  (3 <= dots s)%nat ->
  exists rest, s = getCacheKey s +:+ "." +:+ rest /\ dots (getCacheKey s) = 2%nat.
Proof.
  intros H. destruct (thirdDot_found s 0 0 ltac:(lia) ltac:(simpl; lia))
    as (n & rest & H1 & H2 & H3).
  exists rest. unfold getCacheKey. rewrite H1. simpl. split; [exact H2|exact H3].
Qed.

Lemma ParseIP_not_trivial (raw : string) (ip : list Z) :
  Netip.ParseIP raw = Some ip -> seqb raw "" || seqb raw "favicon.ico" = false.
Proof.
  intros H. destruct (seqb raw "") eqn:E1.
  - apply seqb_true in E1. rewrite E1 in H. vm_compute in H. discriminate.
  - destruct (seqb raw "favicon.ico") eqn:E2; [|reflexivity].
    apply seqb_true in E2. rewrite E2 in H. vm_compute in H. discriminate.
Qed.

Lemma manager_eta (m : Manager) :
  mkManager (cache m) (queue m) (inflight m) (concurrency m) = m.
Proof. destruct m. reflexivity. Qed.

Lemma TryAdd_absent (s : gset string) (key : string) :
  key ∉ s -> TryAdd s key = (true, {[key]} ∪ s).
Proof. intros H. unfold TryAdd. rewrite decide_False by exact H. reflexivity. Qed.

Lemma TryAdd_present (s : gset string) (key : string) :
  key ∈ s -> TryAdd s key = (false, s).
Proof. intros H. unfold TryAdd. rewrite decide_True by exact H. reflexivity. Qed.

Lemma add_then_delete (s : gset string) (key : string) :
  key ∉ s -> Delete ({[key]} ∪ s) key = s.
Proof.
  intros H. unfold Delete. apply set_eq. intros x.
  rewrite elem_of_difference, elem_of_union, !elem_of_singleton. split.
  - intros [[Hx|Hx] Hne]; [contradiction|exact Hx].
  - intros Hx. split; [right; exact Hx|]. intros ->. contradiction.
Qed.

(** What the handler does once TryAdd has succeeded, by the room in the
    queue. *)
Lemma enqueue_room (m : Manager) (key raw : string) :
  (length (queue m) < QueueSize)%nat ->
  enqueue m key raw = (withQueue m (queue m ++ [raw]), true, [Sent raw]).
Proof.
  intros H. unfold enqueue, Chan.trySend.
  apply Nat.ltb_lt in H. rewrite H. reflexivity.
Qed.

Lemma enqueue_full (m : Manager) (key raw : string) :
  ~ (length (queue m) < QueueSize)%nat ->
  enqueue m key raw =
  (withInflight m (Delete (inflight m) key), false, [SendFull raw; Deleted key]).
Proof.
  intros H. unfold enqueue, Chan.trySend.
  apply Nat.ltb_nlt in H. rewrite H. reflexivity.
Qed.

(** The handler after the validation of the path. *)
Lemma HandleUpdate_valid (m : Manager) (path : string) (ip ip4 : list Z) :
  Netip.ParseIP (Strings.TrimPrefix path "/") = Some ip -> Netip.To4 ip = Some ip4 ->
  HandleUpdate m path =
  let rawIP := Strings.TrimPrefix path "/" in
  let cacheKey := getCacheKey rawIP in
  let '(tag, found, needsRefresh, _) := Get (cache m) cacheKey in
  if found then
    if needsRefresh then
      let '(added, s) := TryAdd (inflight m) cacheKey in
      if added then
        let '(m', _, evs) := enqueue (withInflight m s) cacheKey rawIP in
        (m', mkResp StatusOK tag, TryAddOk cacheKey :: evs)
      else (m, mkResp StatusOK tag, [TryAddBusy cacheKey])
    else (m, mkResp StatusOK tag, [])
  else
    let '(added, s) := TryAdd (inflight m) cacheKey in
    if negb added then (m, mkResp StatusAccepted "", [TryAddBusy cacheKey])
    else
      let '(m', sent, evs) := enqueue (withInflight m s) cacheKey rawIP in
      (m', mkResp (if sent then StatusAccepted else StatusTooManyRequests) "",
       TryAddOk cacheKey :: evs).
Proof.
  intros Hp H4. unfold HandleUpdate.
  rewrite (ParseIP_not_trivial _ _ Hp), Hp, H4. reflexivity.
Qed.

(** C1. For a request whose path parses as an IPv4 literal the handler
    follows the five states, on key = getCacheKey of the raw text: a hit
    outside the refresh window answers 200 with the tag and changes
    nothing; a hit inside it answers 200 with the tag and, when TryAdd
    succeeds, try-sends the raw IP, deleting the key again if the queue is
    full; a miss answers 202 when the key is already in flight, 202 when
    TryAdd and the try-send succeed, and 429 with the key deleted when the
    queue is full. *)
Theorem C1_HandleUpdate_five_states (m : Manager) (path : string) (ip ip4 : list Z) :
  let rawIP := Strings.TrimPrefix path "/" in
  let key := getCacheKey rawIP in
  let queued := mkManager (cache m) (queue m ++ [rawIP]) ({[key]} ∪ inflight m)
                          (concurrency m) in
  Netip.ParseIP rawIP = Some ip -> Netip.To4 ip = Some ip4 ->
  match Get (cache m) key with
  | (tag, true, false, _) =>
      HandleUpdate m path = (m, mkResp 200 tag, [])
  | (tag, true, true, _) =>
      if decide (key ∈ inflight m)
      then HandleUpdate m path = (m, mkResp 200 tag, [TryAddBusy key])
      else if decide (length (queue m) < QueueSize)%nat
      then HandleUpdate m path = (queued, mkResp 200 tag, [TryAddOk key; Sent rawIP])
      else HandleUpdate m path =
           (m, mkResp 200 tag, [TryAddOk key; SendFull rawIP; Deleted key])
  | (_, false, _, _) =>
      if decide (key ∈ inflight m)
      then HandleUpdate m path = (m, mkResp 202 "", [TryAddBusy key])
      else if decide (length (queue m) < QueueSize)%nat
      then HandleUpdate m path = (queued, mkResp 202 "", [TryAddOk key; Sent rawIP])
      else HandleUpdate m path =
           (m, mkResp 429 "", [TryAddOk key; SendFull rawIP; Deleted key])
  end.
Proof.
  intros rawIP key queued Hp H4.
  rewrite (HandleUpdate_valid m path ip ip4 Hp H4). cbv zeta.
  subst queued key rawIP.
  set (rawIP := Strings.TrimPrefix path "/") in *.
  set (key := getCacheKey rawIP) in *.
  destruct (Get (cache m) key) as [[[tag found] needsRefresh] remaining].
  assert (Hfull : key ∉ inflight m ->
            withInflight (withInflight m ({[key]} ∪ inflight m))
              (Delete (inflight (withInflight m ({[key]} ∪ inflight m))) key) = m).
  { intros Hk. unfold withInflight. simpl. rewrite add_then_delete by exact Hk.
    apply manager_eta. }
  destruct found.
  - destruct needsRefresh; [|reflexivity].
    destruct (decide (key ∈ inflight m)) as [Hin|Hout].
    + rewrite TryAdd_present by exact Hin. reflexivity.
    + rewrite TryAdd_absent by exact Hout.
      destruct (decide (length (queue m) < QueueSize)%nat) as [Hroom|Hno].
      * rewrite enqueue_room by exact Hroom. reflexivity.
      * rewrite enqueue_full by exact Hno. rewrite (Hfull Hout). reflexivity.
  - destruct (decide (key ∈ inflight m)) as [Hin|Hout].
    + rewrite TryAdd_present by exact Hin. reflexivity.
    + rewrite TryAdd_absent by exact Hout. simpl.
      destruct (decide (length (queue m) < QueueSize)%nat) as [Hroom|Hno].
      * rewrite enqueue_room by exact Hroom. reflexivity.
      * rewrite enqueue_full by exact Hno. rewrite (Hfull Hout). reflexivity.
Qed.

(** C10. The IPv4-mapped literal "::ffff:1.2.3.4" parses to the address
    of "1.2.3.4" and passes the validation of the handler, which never
    answers 400 to it; its key is the raw text up to the third dot,
    "::ffff:1.2.3", not the "1.2.3" of the dotted form, so the two spellings
    of one address use two cache entries. A raw string with fewer than
    three dots is its own key; with three or more, the key is the text
    before the third dot. *)
Theorem C10_mapped_literal_keeps_its_spelling :
  (exists ip, Netip.ParseIP "::ffff:1.2.3.4" = Some ip
              /\ Netip.ParseIP "1.2.3.4" = Some ip
              /\ Netip.To4 ip = Some [1; 2; 3; 4])
  /\ (forall m, status (HandleUpdate m "/::ffff:1.2.3.4").1.2 <> StatusBadRequest)
  /\ getCacheKey "::ffff:1.2.3.4" = "::ffff:1.2.3"
  /\ getCacheKey "1.2.3.4" = "1.2.3"
  /\ (forall s, (dots s < 3)%nat -> getCacheKey s = s)
  /\ (forall s, (3 <= dots s)%nat ->
       exists rest, s = getCacheKey s +:+ "." +:+ rest /\ dots (getCacheKey s) = 2%nat)
  /\ (let c := Set_ (New 1000 Float64.zero 0) 0 (getCacheKey "1.2.3.4") "beijing_cmcc" in
      let m := mkManager c [] ∅ 1 in
      (HandleUpdate m "/1.2.3.4").1.2 = mkResp 200 "beijing_cmcc"
      /\ (HandleUpdate m "/::ffff:1.2.3.4").1.2 = mkResp 202 "").
Proof.
  split.
  { exists [0; 0; 0; 0; 0; 0; 0; 0; 0; 0; 255; 255; 1; 2; 3; 4].
    repeat split; vm_compute; reflexivity. }
  split.
  { intros m.
    assert (Hp : Netip.ParseIP (Strings.TrimPrefix "/::ffff:1.2.3.4" "/")
                 = Some [0; 0; 0; 0; 0; 0; 0; 0; 0; 0; 255; 255; 1; 2; 3; 4])
      by (vm_compute; reflexivity).
    rewrite (HandleUpdate_valid m _ _ [1; 2; 3; 4] Hp) by (vm_compute; reflexivity).
    cbv zeta.
    destruct (Get (cache m) _) as [[[tag found] needsRefresh] remaining].
    unfold enqueue.
    destruct found, needsRefresh; repeat case_match; simplify_eq; simpl;
      unfold StatusOK, StatusAccepted, StatusTooManyRequests, StatusBadRequest;
      try discriminate; repeat case_match; discriminate. }
  split; [vm_compute; reflexivity|].
  split; [vm_compute; reflexivity|].
  split; [apply getCacheKey_few_dots|].
  split; [apply getCacheKey_three_dots|].
  split; vm_compute; reflexivity.
Qed.

(** ** The inflight set *)

(** The handler is its entry followed by its send. *)
Lemma HandleUpdate_entry_send (m : Manager) (path : string) :
  ((HandleUpdate m path).1.1, (HandleUpdate m path).2) =
  match handlerEntry m path with
  | (m1, Some rawIP, evs1) =>
      let '(m2, _, evs2) := enqueue m1 (getCacheKey rawIP) rawIP in
      (m2, evs1 ++ evs2)
  | (m1, None, evs1) => (m1, evs1)
  end.
Proof.
  unfold HandleUpdate, handlerEntry.
  destruct (seqb (Strings.TrimPrefix path "/") "" ||
            seqb (Strings.TrimPrefix path "/") "favicon.ico"); [reflexivity|].
  destruct (Netip.ParseIP (Strings.TrimPrefix path "/")) as [ip|]; [|reflexivity].
  destruct (Netip.To4 ip) as [ip4|]; [|reflexivity].
  destruct (Get (cache m) (getCacheKey (Strings.TrimPrefix path "/")))
    as [[[tag found] needsRefresh] remaining].
  destruct found, needsRefresh; simpl; try reflexivity;
    destruct (TryAdd (inflight m) (getCacheKey (Strings.TrimPrefix path "/")))
      as [[|] s0]; simpl; try reflexivity;
    destruct (enqueue (withInflight m s0) (getCacheKey (Strings.TrimPrefix path "/"))
                      (Strings.TrimPrefix path "/")) as [[m2 sent] evs2]; reflexivity.
Qed.

Lemma handlerEntry_istep (m : Manager) (path : string) (h1 h2 : list string) :
  istep (inflight m) (h1 ++ queue m ++ h2) (handlerEntry m path).2
        (inflight (handlerEntry m path).1.1)
        ((h1 ++ option_list (handlerEntry m path).1.2) ++ queue (handlerEntry m path).1.1 ++ h2).
Proof.
  assert (Hq : forall evs, Forall quiet evs ->
            istep (inflight m) (h1 ++ queue m ++ h2) evs (inflight m)
                  ((h1 ++ []) ++ queue m ++ h2)).
  { intros evs Hevs. apply IQuiet; [exact Hevs|]. rewrite app_nil_r. reflexivity. }
  unfold handlerEntry.
  destruct (seqb (Strings.TrimPrefix path "/") "" ||
            seqb (Strings.TrimPrefix path "/") "favicon.ico");
    [apply Hq; constructor|].
  destruct (Netip.ParseIP (Strings.TrimPrefix path "/")) as [ip|];
    [|apply Hq; constructor].
  destruct (Netip.To4 ip) as [ip4|]; [|apply Hq; constructor].
  set (raw := Strings.TrimPrefix path "/").
  destruct (Get (cache m) (getCacheKey raw)) as [[[tag found] needsRefresh] remaining].
  destruct (found && negb needsRefresh); [apply Hq; constructor|].
  destruct (decide (getCacheKey raw ∈ inflight m)) as [Hin|Hout].
  - rewrite TryAdd_present by exact Hin. apply Hq. repeat constructor.
  - rewrite TryAdd_absent by exact Hout. simpl. apply IAcquire; [exact Hout|].
    rewrite <- app_assoc. simpl. rewrite <- Permutation_middle. reflexivity.
Qed.

Lemma enqueue_istep (m : Manager) (raw : string) (p b : list string) (n : nat) :
  p !! n = Some raw ->
  istep (inflight m) (p ++ queue m ++ b) (enqueue m (getCacheKey raw) raw).2
        (inflight (enqueue m (getCacheKey raw) raw).1.1)
        (delete n p ++ queue (enqueue m (getCacheKey raw) raw).1.1 ++ b).
Proof.
  intros Hn. pose proof (delete_Permutation p n raw Hn) as Hp.
  destruct (decide (length (queue m) < QueueSize)%nat) as [Hroom|Hno].
  - rewrite enqueue_room by exact Hroom. simpl. apply IQuiet; [repeat constructor|].
    transitivity ((raw :: delete n p) ++ queue m ++ b);
      [|apply Permutation_app_tail; symmetry; exact Hp].
    rewrite <- app_assoc. simpl.
    rewrite (app_assoc (delete n p) (queue m) (raw :: b)).
    rewrite (app_assoc (delete n p) (queue m) b).
    symmetry. apply Permutation_middle.
  - rewrite enqueue_full by exact Hno. simpl.
    apply (IRelease _ _ _ raw [SendFull raw]); [repeat constructor|].
    change (raw :: delete n p ++ queue m ++ b) with ((raw :: delete n p) ++ queue m ++ b).
    apply Permutation_app_tail. exact Hp.
Qed.

Lemma workerBody_frame (m : Manager) (rawIP : string) (res : fetchResult) (seed : nat) :
  inflight (workerBody m rawIP res seed).1 = inflight m
  /\ queue (workerBody m rawIP res seed).1 = queue m
  /\ concurrency (workerBody m rawIP res seed).1 = concurrency m.
Proof.
  unfold workerBody.
  destruct (Get (cache m) (getCacheKey rawIP)) as [[[tag found] needsRefresh] remaining].
  destruct (found && negb needsRefresh); [repeat split; reflexivity|].
  destruct res; repeat split; reflexivity.
Qed.

(** The closure of the worker releases the key of its item exactly once,
    however the body ended. *)
Lemma workerItem_releases (m : Manager) (rawIP : string) (res : fetchResult) (seed : nat) :
  (workerItem m rawIP res seed).2 = [Deleted (getCacheKey rawIP)]
  /\ inflight (workerItem m rawIP res seed).1.1 = inflight m ∖ {[getCacheKey rawIP]}
  /\ queue (workerItem m rawIP res seed).1.1 = queue m.
Proof.
  unfold workerItem.
  destruct (workerBody_frame m rawIP res seed) as (Hi & Hq & _).
  destruct (workerBody m rawIP res seed) as [m' ex]. simpl in *.
  unfold Delete. rewrite Hi, Hq. repeat split; reflexivity.
Qed.

(** Every step of the service is a step of the relation. *)
Lemma step_istep (s : Sys) (l : label) :
  istep (inflight (mgr s)) (holders s) (step s l).2
        (inflight (mgr (step s l).1)) (holders (step s l).1).
Proof.
  assert (Hsame : istep (inflight (mgr s)) (holders s) [] (inflight (mgr s)) (holders s))
    by (apply IQuiet; [constructor|reflexivity]).
  unfold step. destruct (crashed s); [exact Hsame|].
  destruct l as [path|n| |n res seed|op].
  - pose proof (handlerEntry_istep (mgr s) path (pending s) (busy s)) as H.
    destruct (handlerEntry (mgr s) path) as [[m' p] evs]. exact H.
  - destruct (pending s !! n) as [raw|] eqn:Hn; [|exact Hsame].
    pose proof (enqueue_istep (mgr s) raw (pending s) (busy s) n Hn) as H.
    destruct (enqueue (mgr s) (getCacheKey raw) raw) as [[m' sent] evs]. exact H.
  - destruct (length (busy s) <? concurrency (mgr s))%nat; [|exact Hsame].
    unfold Chan.recv. destruct (queue (mgr s)) as [|raw q] eqn:Hq; [exact Hsame|].
    unfold holders. simpl. rewrite Hq. apply IQuiet; [constructor|].
    apply Permutation_app_head. simpl.
    rewrite app_assoc. rewrite <- Permutation_cons_append. reflexivity.
  - destruct (busy s !! n) as [raw|] eqn:Hn; [|exact Hsame].
    destruct (workerItem_releases (mgr s) raw res seed) as (He & Hi & Hq).
    destruct (workerItem (mgr s) raw res seed) as [[m' ex] evs]. simpl in *.
    unfold holders. simpl. rewrite He, Hi, Hq.
    apply (IRelease _ _ _ raw []); [constructor|].
    rewrite (delete_Permutation (busy s) n raw Hn) at 1.
    rewrite !Permutation_middle. reflexivity.
  - destruct (applyOp (cache (mgr s)) op) as [c'|]; exact Hsame.
Qed.

Lemma balanced_perm (infl : gset string) (h h' : list string) :
  h ≡ₚ h' -> balanced infl h -> balanced infl h'.
Proof.
  intros Hp [Hnd Hin]. split.
  - rewrite <- Hp. exact Hnd.
  - intros k. rewrite <- Hp. apply Hin.
Qed.

Lemma istep_balanced infl h evs infl' h' :
  istep infl h evs infl' h' -> balanced infl h -> balanced infl' h'.
Proof.
  intros Hstep Hbal.
  destruct Hstep as [infl h h' evs _ Hp|infl h h' raw Hout Hp|infl h h' raw evs _ Hp].
  - apply (balanced_perm _ h); [symmetry; exact Hp|exact Hbal].
  - destruct Hbal as [Hnd Hin].
    apply (balanced_perm _ (raw :: h)); [symmetry; exact Hp|].
    unfold balanced. rewrite fmap_cons. split.
    + apply NoDup_cons. split; [|exact Hnd]. intros H. apply Hout, Hin, H.
    + intros k. rewrite elem_of_union, elem_of_singleton, elem_of_cons, Hin. reflexivity.
  - apply (balanced_perm _ _ _ Hp) in Hbal. destruct Hbal as [Hnd Hin].
    rewrite fmap_cons in Hnd, Hin. apply NoDup_cons in Hnd as [Hfresh Hnd].
    split; [exact Hnd|]. intros k.
    rewrite elem_of_difference, elem_of_singleton, Hin, elem_of_cons. split.
    + intros [[->|Hk] Hne]; [contradiction|exact Hk].
    + intros Hk. split; [right; exact Hk|]. intros ->. contradiction.
Qed.

Lemma fold_quiet (k : string) (evs : list ievent) (st : option bool) :
  Forall quiet evs -> fold_left (pairStep k) evs st = st.
Proof.
  intros H. revert st. induction H as [|e evs He _ IH]; intros st; simpl; [reflexivity|].
  rewrite IH. destruct st as [held|]; [|reflexivity].
  destruct e; simpl in *; try reflexivity; contradiction.
Qed.

Lemma pairStep_add_same (k : string) (held : bool) :
  pairStep k (Some held) (TryAddOk k) = if held then None else Some true.
Proof. simpl. rewrite decide_True by reflexivity. reflexivity. Qed.

Lemma pairStep_delete_same (k : string) (held : bool) :
  pairStep k (Some held) (Deleted k) = if held then Some false else None.
Proof. simpl. rewrite decide_True by reflexivity. reflexivity. Qed.

Lemma pairStep_add_other (k k' : string) (st : option bool) :
  k' <> k -> pairStep k st (TryAddOk k') = st.
Proof. intros H. destruct st; simpl; [|reflexivity]. rewrite decide_False by exact H. reflexivity. Qed.

Lemma pairStep_delete_other (k k' : string) (st : option bool) :
  k' <> k -> pairStep k st (Deleted k') = st.
Proof. intros H. destruct st; simpl; [|reflexivity]. rewrite decide_False by exact H. reflexivity. Qed.

Lemma istep_pairing (k : string) infl h evs infl' h' :
  istep infl h evs infl' h' -> balanced infl h ->
  fold_left (pairStep k) evs (Some (bool_decide (k ∈ infl)))
  = Some (bool_decide (k ∈ infl')).
Proof.
  intros Hstep Hbal.
  destruct Hstep as [infl h h' evs Hq _|infl h h' raw Hout _|infl h h' raw evs Hq Hp].
  - apply fold_quiet. exact Hq.
  - cbn [fold_left]. destruct (decide (getCacheKey raw = k)) as [<-|Hne].
    + rewrite pairStep_add_same, (bool_decide_eq_false_2 _ Hout).
      rewrite bool_decide_eq_true_2; [reflexivity|].
      apply elem_of_union. left. apply elem_of_singleton. reflexivity.
    + rewrite pairStep_add_other by exact Hne. f_equal. apply bool_decide_ext.
      rewrite elem_of_union, elem_of_singleton. split; [auto|].
      intros [->|H]; [contradiction|exact H].
  - rewrite fold_left_app, (fold_quiet _ _ _ Hq). cbn [fold_left].
    destruct (decide (getCacheKey raw = k)) as [<-|Hne].
    + assert (Hin : getCacheKey raw ∈ infl).
      { apply Hbal. rewrite Hp, fmap_cons. left. }
      rewrite pairStep_delete_same, (bool_decide_eq_true_2 _ Hin).
      rewrite bool_decide_eq_false_2; [reflexivity|].
      rewrite elem_of_difference, elem_of_singleton. intros [_ H]. apply H. reflexivity.
    + rewrite pairStep_delete_other by exact Hne. f_equal. apply bool_decide_ext.
      rewrite elem_of_difference, elem_of_singleton. split; [|tauto].
      intros H. split; [exact H|]. intros ->. contradiction.
Qed.

(** Along every run the keys in flight stay balanced with the holders,
    and the events of each key stay paired. *)
Lemma run_paired (ls : list label) :
  forall (s : Sys) (k : string),
    balanced (inflight (mgr s)) (holders s) ->
    balanced (inflight (mgr (run s ls).1)) (holders (run s ls).1)
    /\ fold_left (pairStep k) (run s ls).2 (Some (bool_decide (k ∈ inflight (mgr s))))
       = Some (bool_decide (k ∈ inflight (mgr (run s ls).1))).
Proof.
  induction ls as [|l ls IH]; intros s k Hbal; simpl.
  - split; [exact Hbal|reflexivity].
  - pose proof (step_istep s l) as Hstep.
    pose proof (istep_balanced _ _ _ _ _ Hstep Hbal) as Hbal1.
    pose proof (istep_pairing k _ _ _ _ _ Hstep Hbal) as Hpair1.
    destruct (step s l) as [s1 evs1]. simpl in *.
    destruct (IH s1 k Hbal1) as [Hbal2 Hpair2].
    destruct (run s1 ls) as [s2 evs2]. simpl in *.
    split; [exact Hbal2|].
    rewrite fold_left_app, Hpair1. exact Hpair2.
Qed.

Lemma pairing_counts (k : string) (trace : list ievent) :
  forall b0 b : bool,
    fold_left (pairStep k) trace (Some b0) = Some b ->
    (countAdds k trace + (if b0 then 1 else 0)
     = countDeletes k trace + (if b then 1 else 0))%nat.
Proof.
  unfold countAdds, countDeletes.
  induction trace as [|e trace IH]; intros b0 b H; simpl in *.
  - simplify_eq. reflexivity.
  - assert (Hnone : fold_left (pairStep k) trace None = None).
    { clear. induction trace as [|e' tr IH']; simpl; [reflexivity|exact IH']. }
    destruct e as [k'|k'|k'|raw|raw]; simpl in *;
      try (apply IH; exact H).
    + destruct (decide (k' = k)) as [->|Hne].
      * rewrite bool_decide_eq_true_2 by reflexivity. simpl.
        destruct b0; [rewrite Hnone in H; discriminate|].
        specialize (IH _ _ H). simpl in IH. lia.
      * rewrite bool_decide_eq_false_2 by exact Hne. apply IH. exact H.
    + destruct (decide (k' = k)) as [->|Hne].
      * rewrite bool_decide_eq_true_2 by reflexivity. simpl.
        destruct b0; [|rewrite Hnone in H; discriminate].
        specialize (IH _ _ H). simpl in IH. lia.
      * rewrite bool_decide_eq_false_2 by exact Hne. apply IH. exact H.
Qed.

(** C2. On every run of the service from its start, whatever the
    requests, the interleaving of handlers, workers and cache operations
    and the outcomes of the fetches (errors and panics included), the
    TryAdd and Delete events of each key alternate, beginning with a
    TryAdd: every successful TryAdd(k) is followed by exactly one Delete(k)
    before k is added again, and there is no other Delete(k). A key is in
    flight exactly while a handler is about to send it, or an item with
    that key is queued or at a worker; so once no handler is in its send,
    the queue is drained and the workers are done, every TryAdd has had
    its Delete. The handler deletes the key itself when its try-send fails;
    the closure of the worker deletes the key of its item exactly once on
    each of its paths (re-check hit, fetch error, Set done), by the deferred
    call, which also runs when the body panics. *)
Theorem C2_TryAdd_paired_with_Delete (m : Manager) (ls : list label) (k : string) :
  let s := (run (started m) ls).1 in
  let trace := (run (started m) ls).2 in
  pairing k trace = Some (bool_decide (k ∈ inflight (mgr s)))
  /\ (k ∈ inflight (mgr s) <-> k ∈ getCacheKey <$> holders s)
  /\ (countAdds k trace
      = countDeletes k trace + (if bool_decide (k ∈ inflight (mgr s)) then 1 else 0))%nat
  /\ (holders s = [] ->
      pairing k trace = Some false /\ countAdds k trace = countDeletes k trace)
  /\ (forall (m0 : Manager) (rawIP : string) (res : fetchResult) (seed : nat),
         (workerItem m0 rawIP res seed).2 = [Deleted (getCacheKey rawIP)]
         /\ inflight (workerItem m0 rawIP res seed).1.1
            = inflight m0 ∖ {[getCacheKey rawIP]})
  /\ (forall (m0 : Manager) (key rawIP : string),
         ~ (length (queue m0) < QueueSize)%nat ->
         enqueue m0 key rawIP
         = (withInflight m0 (Delete (inflight m0) key), false,
            [SendFull rawIP; Deleted key]))
  /\ (forall (m0 : Manager) (path : string),
         ((HandleUpdate m0 path).1.1, (HandleUpdate m0 path).2) =
         match handlerEntry m0 path with
         | (m1, Some rawIP, evs1) =>
             let '(m2, _, evs2) := enqueue m1 (getCacheKey rawIP) rawIP in
             (m2, evs1 ++ evs2)
         | (m1, None, evs1) => (m1, evs1)
         end).
Proof.
  intros s trace.
  assert (Hstart : balanced (inflight (mgr (started m))) (holders (started m))).
  { split; simpl; [constructor|]. intros k'. split; intros H.
    - apply elem_of_empty in H. contradiction.
    - inversion H. }
  destruct (run_paired ls (started m) k Hstart) as [Hbal Hpair].
  fold s in Hbal, Hpair. fold trace in Hpair.
  assert (Hp : pairing k trace = Some (bool_decide (k ∈ inflight (mgr s)))).
  { unfold pairing. rewrite <- Hpair. simpl.
    rewrite bool_decide_eq_false_2; [reflexivity|]. apply not_elem_of_empty. }
  pose proof (pairing_counts k trace _ _ Hp) as Hcnt. simpl in Hcnt.
  split; [exact Hp|]. split; [apply Hbal|]. split; [lia|]. split.
  - intros Hh.
    assert (Hout : k ∉ inflight (mgr s)).
    { intros H. apply Hbal in H. rewrite Hh in H. inversion H. }
    rewrite (bool_decide_eq_false_2 _ Hout) in Hp, Hcnt.
    split; [exact Hp|lia].
  - split; [|split].
    + intros m0 rawIP res seed.
      destruct (workerItem_releases m0 rawIP res seed) as (H1 & H2 & _).
      split; assumption.
    + intros m0 key rawIP. apply enqueue_full.
    + apply HandleUpdate_entry_send.
Qed.

(** ** The theorems at work on concrete states *)

Lemma C1_five_states_witness :
  Netip.ParseIP (Strings.TrimPrefix "/203.0.113.17" "/")
  = Some [0; 0; 0; 0; 0; 0; 0; 0; 0; 0; 255; 255; 203; 0; 113; 17]
  /\ Netip.To4 [0; 0; 0; 0; 0; 0; 0; 0; 0; 0; 255; 255; 203; 0; 113; 17]
     = Some [203; 0; 113; 17]
  /\ HandleUpdate (NewManager 3600 0 8 0) "/203.0.113.17"
     = (mkManager (cache (NewManager 3600 0 8 0)) ["203.0.113.17"]
                  ({["203.0.113"]} ∪ ∅) 8,
        mkResp 202 "", [TryAddOk "203.0.113"; Sent "203.0.113.17"]).
Proof.
  assert (Hp : Netip.ParseIP (Strings.TrimPrefix "/203.0.113.17" "/")
               = Some [0; 0; 0; 0; 0; 0; 0; 0; 0; 0; 255; 255; 203; 0; 113; 17])
    by (vm_compute; reflexivity).
  assert (H4 : Netip.To4 [0; 0; 0; 0; 0; 0; 0; 0; 0; 0; 255; 255; 203; 0; 113; 17]
               = Some [203; 0; 113; 17]) by (vm_compute; reflexivity).
  split; [exact Hp|]. split; [exact H4|].
  exact (C1_HandleUpdate_five_states (NewManager 3600 0 8 0) "/203.0.113.17" _ _ Hp H4).
Defined.

Lemma C3_Set_witness :
  wf (New 1000 Float64.zero 0)
  /\ count (Set_ (New 1000 Float64.zero 0) 0 "1.2.3" "beijing_cmcc") = 1
  /\ log (Set_ (New 1000 Float64.zero 0) 0 "1.2.3" "beijing_cmcc")
     = [EvLock 175; EvUnlock 175;
        EvPersist (mkOp false "1.2.3" "beijing_cmcc" 1000 1000)].
Proof.
  assert (Hwf : wf (New 1000 Float64.zero 0)).
  { split; [reflexivity|]. simpl. unfold defaultShardCapacity. lia. }
  split; [exact Hwf|].
  destruct (C3_Set_overwrite_evict_insert (New 1000 Float64.zero 0) 0
              "1.2.3" "beijing_cmcc" Hwf) as (H1 & _ & H3 & _).
  split.
  - vm_compute in H1. exact (proj2 H1).
  - exact H3.
Defined.

Lemma C8_ratio_witness :
  isInt64 1000
  /\ effectiveRatio (Float64.ofInt 2) = Float64.zero
  /\ refreshWindow (New 1000 (Float64.ofInt 2) 0) = 0.
Proof.
  assert (Hi : isInt64 1000) by (unfold isInt64, minInt64, maxInt64; lia).
  split; [exact Hi|].
  destruct (C8_ratio_coerced_window_zero 1000 (Float64.ofInt 2) 0 Hi) as [H1 H2].
  split.
  - apply H1. right. vm_compute. reflexivity.
  - apply H2. vm_compute. reflexivity.
Defined.

Lemma C9_Count_witness :
  exists c,
    runOps (New 1000 Float64.zero 0)
           [OpSet 0 "1.2.3" "a"; OpSet 0 "1.2.4" "b"; OpTick 2000;
            OpSweep 175 2000; OpDelete "1.2.9"] = Some c
    /\ Count c = Z.of_nat (bindings c)
    /\ 0 <= Count c.
Proof.
  eexists. split; [reflexivity|].
  destruct (C9_Count_is_number_of_bindings 1000 Float64.zero 0
              [OpSet 0 "1.2.3" "a"; OpSet 0 "1.2.4" "b"; OpTick 2000;
               OpSweep 175 2000; OpDelete "1.2.9"] _ eq_refl) as (H1 & H2 & _).
  split; [exact H1|exact H2].
Defined.

(** ** Scenarios of the specification, run on the model *)

(** Cold miss: the request is accepted, the key is in flight and the raw
    IP queued; after a worker has fetched 广东省 / 中国电信 the cache holds
    guangdong_ct and nothing is in flight. *)
Example scenario_cold_miss :
  let m0 := NewManager 3600 0 8 0 in
  let '(m1, resp, _) := HandleUpdate m0 "/203.0.113.17" in
  let s2 := (run (mkSys m1 [] [] false)
                 [LReceive; LWork 0 (FetchOk (newIPInfo "广东省" "中国电信")) 0]).1 in
  resp = mkResp 202 ""
  /\ elements (inflight m1) = ["203.0.113"]
  /\ queue m1 = ["203.0.113.17"]
  /\ (Get (cache (mgr s2)) "203.0.113").1.1 = ("guangdong_ct", true)
  /\ elements (inflight (mgr s2)) = []
  /\ Count (cache (mgr s2)) = 1.
Proof. vm_compute. repeat split; reflexivity. Qed.

(** Warm hit with ratio 0: the tag is served and nothing is enqueued. *)
Example scenario_warm_hit :
  let c := Set_ (New 3600000000000 Float64.zero 0) 0 "1.2.3" "beijing_cmcc" in
  let m := mkManager c [] ∅ 8 in
  (HandleUpdate m "/1.2.3.99").1.2 = mkResp 200 "beijing_cmcc"
  /\ (HandleUpdate m "/1.2.3.99").2 = []
  /\ queue (HandleUpdate m "/1.2.3.99").1.1 = [].
Proof. vm_compute. repeat split; reflexivity. Qed.

(** Refresh window: TTL 100 s, ratio 10 percent, entry written at 0. At
    95 s the old value is served and a refresh enqueued; at 101 s the
    request is a miss. *)
Example scenario_refresh_window :
  let m0 := NewManager 100 10 8 0 in
  let m1 := withCache m0 (Set_ (cache m0) 0 "1.2.3" "beijing_cmcc") in
  let at95 := withCache m1 (tick (cache m1) 95000000000) in
  let at101 := withCache m1 (tick (cache m1) 101000000000) in
  HandleUpdate at95 "/1.2.3.4"
  = (mkManager (cache at95) ["1.2.3.4"] ({["1.2.3"]} ∪ ∅) 8,
     mkResp 200 "beijing_cmcc", [TryAddOk "1.2.3"; Sent "1.2.3.4"])
  /\ (HandleUpdate at101 "/1.2.3.4").1.2 = mkResp 202 "".
Proof. vm_compute. repeat split; reflexivity. Qed.

(** Fallback normalization: Mars / AOL is stored as fallback and served
    as such. *)
Example scenario_fallback :
  let m0 := NewManager 3600 0 8 0 in
  let s1 := (run (started m0)
                 [LEnter "/198.51.100.7"; LSend 0; LReceive;
                  LWork 0 (FetchOk (newIPInfo "Mars" "AOL")) 0]).1 in
  normalize "Mars" "AOL" = "fallback"
  /\ (HandleUpdate (mgr s1) "/198.51.100.200").1.2 = mkResp 200 "fallback".
Proof. vm_compute. repeat split; reflexivity. Qed.

(** A full queue: the request is refused with 429 and its key released. *)
Example scenario_queue_full :
  let m0 := NewManager 3600 0 1 0 in
  let m := withQueue m0 (replicate QueueSize "9.9.9.9") in
  (HandleUpdate m "/203.0.113.17").1.2 = mkResp 429 ""
  /\ (HandleUpdate m "/203.0.113.17").2
     = [TryAddOk "203.0.113"; SendFull "203.0.113.17"; Deleted "203.0.113"]
  /\ elements (inflight (HandleUpdate m "/203.0.113.17").1.1) = [].
Proof. vm_compute. repeat split; reflexivity. Qed.

(** The tags of some provider answers. *)
Example normalize_samples :
  normalize "广东省" "中国电信" = "guangdong_ct"
  /\ normalize " 内蒙古自治区 " "China Unicom" = "neimenggu_cu"
  /\ normalize "Beijing" "CMCC-Mobile" = "beijing_cmcc"
  /\ normalize "黑龙江省" "教育网" = "heilongjiang_edu"
  /\ normalize "guangdong" "ct" = "fallback"
  /\ normalize "" "电信" = "fallback".
Proof. vm_compute. repeat split; reflexivity. Qed.

(** * Further properties

    ** The cache: reads after writes *)

Lemma Set_frame (c : Cache) (seed : nat) (key val : string) :
  ttl (Set_ c seed key val) = ttl c
  /\ refreshWindow (Set_ c seed key val) = refreshWindow c
  /\ shardCap (Set_ c seed key val) = shardCap c
  /\ now (Set_ c seed key val) = now c
  /\ closed (Set_ c seed key val) = closed c
  /\ stopped (Set_ c seed key val) = stopped c.
Proof.
  unfold Set_.
  destruct (shardAt (emit c [EvLock (shardIndex key)]) (shardIndex key) !! key).
  - match goal with |- context [sendToPersist ?c1 ?op] =>
      destruct (sendToPersist_frame c1 op) as (_ & H1 & H2 & H3 & _ & H4 & H5 & H6 & _) end.
    rewrite H1, H2, H3, H4, H5, H6. repeat split; reflexivity.
  - match goal with |- context [sendToPersist ?c1 ?op] =>
      destruct (sendToPersist_frame c1 op) as (_ & H1 & H2 & H3 & _ & H4 & H5 & H6 & _) end.
    rewrite H1, H2, H3, H4, H5, H6. simpl.
    match goal with |- context [insertNew ?c0 ?sd ?k ?e] =>
      destruct (insertNew_frame c0 sd k e) as (G1 & G2 & G3 & _ & G4 & G5 & G6 & _) end.
    rewrite G1, G2, G3, G4, G5, G6. repeat split; reflexivity.
Qed.

Lemma insertNew_emit_shards (c : Cache) (evs : list event) (seed : nat)
      (key : string) (e : entry) :
  shards (insertNew (emit c evs) seed key e) = shards (insertNew c seed key e).
Proof.
  unfold insertNew.
  change (shardAt (emit c evs) (shardIndex key)) with (shardAt c (shardIndex key)).
  change (shardCap (emit c evs)) with (shardCap c).
  change (count (emit c evs)) with (count c).
  destruct (if shardCap c <=? Z.of_nat (size (shardAt c (shardIndex key)))
            then evictOne seed (shardAt c (shardIndex key)) (count c)
            else (shardAt c (shardIndex key), count c)) as [s1 cnt1].
  reflexivity.
Qed.

(** The shards after the part Set and SetWithTime have in common. *)
Lemma Set_shards (c : Cache) (seed : nat) (key val : string) :
  let ex := add64 (now c) (ttl c) in
  let e := mkEntry val ex (sub64 ex (refreshWindow c)) in
  shards (Set_ c seed key val) =
  shards (match getShard c key !! key with
          | Some _ => setShard c (shardIndex key) (<[key := e]> (getShard c key))
          | None => insertNew c seed key e
          end).
Proof.
  intros ex e. unfold Set_. fold ex. fold e.
  change (shardAt (emit c [EvLock (shardIndex key)]) (shardIndex key))
    with (getShard c key).
  destruct (getShard c key !! key);
    match goal with |- context [sendToPersist ?c1 ?op] =>
      destruct (sendToPersist_frame c1 op) as (Hsh & _) end;
    rewrite Hsh; [reflexivity|].
  apply (insertNew_emit_shards c).
Qed.

Lemma SetWithTime_shards (c : Cache) (seed : nat) (key val : string) (ex ra : Z) :
  shards (SetWithTime c seed key val ex ra) =
  shards (match getShard c key !! key with
          | Some _ => setShard c (shardIndex key)
                               (<[key := mkEntry val ex ra]> (getShard c key))
          | None => insertNew c seed key (mkEntry val ex ra)
          end).
Proof.
  unfold SetWithTime.
  change (shardAt (emit c [EvLock (shardIndex key)]) (shardIndex key))
    with (getShard c key).
  destruct (getShard c key !! key); [reflexivity|].
  apply (insertNew_emit_shards c).
Qed.

Lemma upsert_lookup (c c' : Cache) (seed : nat) (key : string) (e : entry)
      (j : nat) (k : string) :
  wf c ->
  shards c' =
  shards (match getShard c key !! key with
          | Some _ => setShard c (shardIndex key) (<[key := e]> (getShard c key))
          | None => insertNew c seed key e
          end) ->
  shardAt c' j !! k =
  if decide (j = shardIndex key) then
    if decide (k = key) then Some e
    else if decide (getShard c key !! key = None
                    /\ shardCap c <= Z.of_nat (size (getShard c key))
                    /\ rangeFirst seed (getShard c key) = Some k)
         then None
         else shardAt c j !! k
  else shardAt c j !! k.
Proof.
  intros Hwf Hsh. pose proof (shardIndex_lt key) as Hi.
  pose proof Hwf as [Hlen Hcap]. rewrite <- Hlen in Hi.
  unfold shardAt at 1. rewrite Hsh.
  destruct (getShard c key !! key) as [old|] eqn:Hk.
  - fold (shardAt (setShard c (shardIndex key) (<[key:=e]> (getShard c key))) j).
    destruct (decide (j = shardIndex key)) as [->|Hj].
    + rewrite shardAt_setShard_eq by exact Hi.
      destruct (decide (k = key)) as [->|Hne]; [apply lookup_insert_eq|].
      rewrite lookup_insert_ne by congruence.
      rewrite decide_False by (intros (H & _); discriminate). reflexivity.
    + rewrite shardAt_setShard_ne by congruence. reflexivity.
  - fold (shardAt (insertNew c seed key e) j).
    destruct (decide (j = shardIndex key)) as [->|Hj].
    + fold (getShard (insertNew c seed key e) key). fold (getShard c key).
      pose proof (insertNew_shard c seed key e Hwf) as Hins. simpl in Hins.
      destruct (decide (shardCap c <= Z.of_nat (size (getShard c key)))) as [Hfull|Hroom].
      * destruct Hins as (v & old & Hold & Hv & Hg & _). rewrite Hg, Hv.
        destruct (decide (k = key)) as [->|Hne]; [apply lookup_insert_eq|].
        rewrite lookup_insert_ne by congruence.
        destruct (decide (v = k)) as [->|Hvk].
        -- rewrite decide_True by exact (conj eq_refl (conj Hfull eq_refl)).
           apply lookup_delete_eq.
        -- rewrite decide_False by (intros (_ & _ & H); congruence).
           apply lookup_delete_ne. exact Hvk.
      * destruct Hins as [Hg _]. rewrite Hg.
        destruct (decide (k = key)) as [->|Hne]; [apply lookup_insert_eq|].
        rewrite lookup_insert_ne by congruence.
        rewrite decide_False by (intros (_ & H & _); contradiction). reflexivity.
    + rewrite insertNew_other by exact Hj. reflexivity.
Qed.

Lemma Get_ext (c c' : Cache) (k : string) :
  now c' = now c -> refreshWindow c' = refreshWindow c ->
  getShard c' k !! k = getShard c k !! k -> Get c' k = Get c k.
Proof. intros H1 H2 H3. unfold Get. rewrite H1, H2, H3. reflexivity. Qed.

Lemma Get_absent (c : Cache) (k : string) :
  getShard c k !! k = None -> Get c k = ("", false, false, 0).
Proof. intros H. unfold Get. rewrite H. reflexivity. Qed.

(** What Get returns for a key right after Set wrote it. *)
Lemma Set_then_Get (c : Cache) (seed : nat) (key val : string) :
  wf c ->
  let ex := add64 (now c) (ttl c) in
  Get (Set_ c seed key val) key =
  if ex <=? now c then ("", false, false, 0)
  else (val, true,
        (0 <? refreshWindow c) && (sub64 ex (refreshWindow c) <=? now c),
        sub64 ex (now c)).
Proof.
  intros Hwf ex.
  destruct (Set_frame c seed key val) as (_ & Hw & _ & Hn & _).
  pose proof (upsert_lookup c _ seed key _ (shardIndex key) key Hwf
                (Set_shards c seed key val)) as Hl.
  rewrite !decide_True in Hl by reflexivity.
  unfold Get, getShard. rewrite Hl, Hn, Hw. reflexivity.
Qed.

(** X1. A value just written is served: when the TTL is positive, the
    refresh window is within it and now + ttl fits int64, Get after
    Set(key, val) returns val as found, not in need of a refresh, with the
    whole TTL remaining, whatever the shard held and whichever entry Set
    evicted. *)
Theorem X1_Set_then_Get_hit (c : Cache) (seed : nat) (key val : string) :
  wf c -> isInt64 (now c) -> isInt64 (ttl c) -> isInt64 (now c + ttl c) ->
  0 <= refreshWindow c < ttl c ->
  Get (Set_ c seed key val) key = (val, true, false, ttl c).
Proof.
  intros Hwf Hnow Httl Hexp Hwin.
  rewrite Set_then_Get by exact Hwf. cbv zeta.
  unfold isInt64, minInt64, maxInt64 in *.
  rewrite (add64_exact (now c) (ttl c)) by (unfold isInt64, minInt64, maxInt64; lia).
  rewrite (sub64_exact (now c + ttl c) (refreshWindow c))
    by (unfold isInt64, minInt64, maxInt64; lia).
  rewrite (sub64_exact (now c + ttl c) (now c))
    by (unfold isInt64, minInt64, maxInt64; lia).
  replace (now c + ttl c <=? now c) with false by (symmetry; apply Z.leb_gt; lia).
  replace (now c + ttl c - refreshWindow c <=? now c) with false
    by (symmetry; apply Z.leb_gt; lia).
  rewrite andb_false_r. f_equal. lia.
Qed.

Lemma X1_Set_then_Get_witness :
  Get (Set_ (New 3600 Float64.zero 5) 0 "1.2.3" "beijing_ct") "1.2.3"
  = ("beijing_ct", true, false, 3600).
Proof.
  apply (X1_Set_then_Get_hit (New 3600 Float64.zero 5) 0 "1.2.3" "beijing_ct").
  - split; [reflexivity|reflexivity].
  - unfold isInt64, minInt64, maxInt64; simpl; lia.
  - unfold isInt64, minInt64, maxInt64; simpl; lia.
  - unfold isInt64, minInt64, maxInt64; simpl; lia.
  - vm_compute. split; [discriminate|reflexivity].
Defined.

(** X2. With a TTL of zero or less an entry is born expired: Set stores
    it in the shard of its key, and Get does not serve it. *)
Theorem X2_Set_nonpositive_ttl_is_a_miss (c : Cache) (seed : nat) (key val : string) :
  wf c -> ttl c <= 0 -> isInt64 (now c + ttl c) ->
  Get (Set_ c seed key val) key = ("", false, false, 0)
  /\ exists e, getShard (Set_ c seed key val) key !! key = Some e /\ value e = val.
Proof.
  intros Hwf Httl Hexp.
  pose proof (upsert_lookup c _ seed key _ (shardIndex key) key Hwf
                (Set_shards c seed key val)) as Hl.
  rewrite !decide_True in Hl by reflexivity.
  split; [|eexists; split; [exact Hl|reflexivity]].
  rewrite Set_then_Get by exact Hwf. cbv zeta.
  rewrite (add64_exact (now c) (ttl c)) by exact Hexp.
  replace (now c + ttl c <=? now c) with true by (symmetry; apply Z.leb_le; lia).
  reflexivity.
Qed.

Lemma X2_Set_nonpositive_ttl_witness :
  Get (Set_ (New 0 Float64.zero 5) 0 "1.2.3" "beijing_ct") "1.2.3" = ("", false, false, 0)
  /\ exists e, getShard (Set_ (New 0 Float64.zero 5) 0 "1.2.3" "beijing_ct") "1.2.3"
               !! "1.2.3" = Some e /\ value e = "beijing_ct".
Proof.
  apply (X2_Set_nonpositive_ttl_is_a_miss (New 0 Float64.zero 5) 0 "1.2.3" "beijing_ct").
  - split; reflexivity.
  - simpl. lia.
  - unfold isInt64, minInt64, maxInt64; simpl; lia.
Defined.

(** X3. Set(key, _) never changes what Get returns for another key,
    except that it may make it a miss by evicting it: that happens only
    when key is new, the other key lives in the same shard, that shard is
    at capacity and the map iteration yields the other key first. *)
Theorem X3_Set_other_keys (c : Cache) (seed : nat) (key val k : string) :
  wf c -> k <> key ->
  (Get (Set_ c seed key val) k = Get c k
   \/ Get (Set_ c seed key val) k = ("", false, false, 0))
  /\ (Get (Set_ c seed key val) k <> Get c k ->
      getShard c key !! key = None
      /\ shardIndex k = shardIndex key
      /\ shardCap c <= Z.of_nat (size (getShard c key))
      /\ rangeFirst seed (getShard c key) = Some k).
Proof.
  intros Hwf Hne.
  destruct (Set_frame c seed key val) as (_ & Hw & _ & Hn & _).
  pose proof (upsert_lookup c _ seed key _ (shardIndex k) k Hwf
                (Set_shards c seed key val)) as Hl.
  fold (getShard (Set_ c seed key val) k) in Hl. fold (getShard c k) in Hl.
  destruct (decide (shardIndex k = shardIndex key)) as [Hi|Hi].
  - rewrite (decide_False (P := k = key)) in Hl by exact Hne.
    destruct (decide (getShard c key !! key = None
                      /\ shardCap c <= Z.of_nat (size (getShard c key))
                      /\ rangeFirst seed (getShard c key) = Some k)) as [Hev|Hno].
    + split; [right; apply Get_absent; exact Hl|].
      intros _. destruct Hev as (H1 & H2 & H3). repeat split; assumption.
    + pose proof (Get_ext c _ k Hn Hw Hl) as Hg.
      split; [left; exact Hg|]. intros H. contradiction.
  - pose proof (Get_ext c _ k Hn Hw Hl) as Hg.
    split; [left; exact Hg|]. intros H. contradiction.
Qed.

Lemma X3_Set_other_keys_witness :
  let c := Set_ (New 10 Float64.zero 0) 0 "5.6.7" "anhui_cu" in
  Get (Set_ c 0 "1.2.3" "beijing_ct") "5.6.7" = Get c "5.6.7"
  \/ Get (Set_ c 0 "1.2.3" "beijing_ct") "5.6.7" = ("", false, false, 0).
Proof.
  intros c.
  refine (proj1 (X3_Set_other_keys c 0 "1.2.3" "beijing_ct" "5.6.7" _ _)).
  - split; vm_compute; reflexivity.
  - discriminate.
Defined.


(** What sendToPersist does to the channel and to the drop counter depends
    on the closed flag, the channel and the counter only. *)
Lemma sendToPersist_ch_ext (c c' : Cache) (op : persistenceOp) :
  closed c' = closed c -> persistCh c' = persistCh c ->
  droppedUpdates c' = droppedUpdates c ->
  persistCh (sendToPersist c' op) = persistCh (sendToPersist c op)
  /\ droppedUpdates (sendToPersist c' op) = droppedUpdates (sendToPersist c op).
Proof.
  intros H1 H2 H3. unfold sendToPersist, Chan.trySend.
  cbn [emit closed persistCh droppedUpdates]. rewrite H1, H2, H3.
  destruct (closed c =? 1);
    [cbn [withDropped persistCh droppedUpdates emit]; rewrite H2; split; reflexivity|].
  destruct (length (persistCh c) <? persistChCap)%nat;
    cbn [withDropped withPersistCh persistCh droppedUpdates emit];
    rewrite ?H2, ?H3; split; reflexivity.
Qed.

Lemma Delete_lookup (c : Cache) (key : string) (j : nat) (k : string) :
  wf c ->
  shardAt (CachePkg.Delete c key) j !! k =
  if decide (j = shardIndex key /\ k = key) then None else shardAt c j !! k.
Proof.
  intros [Hlen _]. pose proof (shardIndex_lt key) as Hi. rewrite <- Hlen in Hi.
  unfold CachePkg.Delete.
  change (shardAt (emit c [EvLock (shardIndex key)]) (shardIndex key))
    with (shardAt c (shardIndex key)).
  destruct (shardAt c (shardIndex key) !! key) as [old|] eqn:Hk.
  - unfold shardAt at 1. cbn [emit shards].
    match goal with |- context [sendToPersist ?c1 ?op] =>
      destruct (sendToPersist_frame c1 op) as (Hsh & _) end.
    rewrite Hsh. cbn [withCount shards setShard withShards emit].
    destruct (decide (j = shardIndex key)) as [->|Hj].
    + rewrite list_lookup_insert_eq by exact Hi. cbn [default].
      destruct (decide (k = key)) as [->|Hne].
      * rewrite decide_True by (split; reflexivity). apply lookup_delete_eq.
      * rewrite decide_False by (intros [_ H]; contradiction).
        apply lookup_delete_ne. congruence.
    + rewrite list_lookup_insert_ne by congruence.
      rewrite decide_False by (intros [H _]; contradiction). reflexivity.
  - change (shardAt (emit (emit c [EvLock (shardIndex key)]) [EvUnlock (shardIndex key)]) j)
      with (shardAt c j).
    destruct (decide (j = shardIndex key /\ k = key)) as [[-> ->]|Hd]; [exact Hk|reflexivity].
Qed.

Lemma Delete_frame (c : Cache) (key : string) :
  ttl (CachePkg.Delete c key) = ttl c
  /\ refreshWindow (CachePkg.Delete c key) = refreshWindow c
  /\ shardCap (CachePkg.Delete c key) = shardCap c
  /\ now (CachePkg.Delete c key) = now c
  /\ closed (CachePkg.Delete c key) = closed c.
Proof.
  unfold CachePkg.Delete.
  destruct (shardAt (emit c [EvLock (shardIndex key)]) (shardIndex key) !! key).
  - cbn [emit ttl refreshWindow shardCap now closed].
    match goal with |- context [sendToPersist ?c1 ?op] =>
      destruct (sendToPersist_frame c1 op) as (_ & H1 & H2 & H3 & _ & H4 & H5 & _) end.
    rewrite H1, H2, H3, H4, H5. repeat split; reflexivity.
  - repeat split; reflexivity.
Qed.

(** X4. After Delete(key), Get(key) is a miss and every other key reads
    as before. Deleting a key that has no binding changes neither the
    shards, the counter nor the persistence channel; deleting a bound key
    lowers the counter by one and hands one delete op to sendToPersist,
    while the lock of the shard is held. *)
Theorem X4_Delete_then_Get (c : Cache) (key : string) :
  wf c ->
  Get (CachePkg.Delete c key) key = ("", false, false, 0)
  /\ (forall k, k <> key -> Get (CachePkg.Delete c key) k = Get c k)
  /\ match getShard c key !! key with
     | None =>
         shards (CachePkg.Delete c key) = shards c
         /\ count (CachePkg.Delete c key) = count c
         /\ persistCh (CachePkg.Delete c key) = persistCh c
         /\ droppedUpdates (CachePkg.Delete c key) = droppedUpdates c
     | Some _ =>
         count (CachePkg.Delete c key) = add64 (count c) (-1)
         /\ persistCh (CachePkg.Delete c key) = persistCh (sendToPersist c (mkOp true key "" 0 0))
         /\ droppedUpdates (CachePkg.Delete c key)
            = droppedUpdates (sendToPersist c (mkOp true key "" 0 0))
         /\ log (CachePkg.Delete c key)
            = log c ++ [EvLock (shardIndex key); EvPersist (mkOp true key "" 0 0);
                        EvUnlock (shardIndex key)]
     end.
Proof.
  intros Hwf. destruct (Delete_frame c key) as (_ & Hw & _ & Hn & _).
  split; [|split].
  - apply Get_absent. unfold getShard. rewrite Delete_lookup by exact Hwf.
    rewrite decide_True by (split; reflexivity). reflexivity.
  - intros k Hne. apply Get_ext; [exact Hn|exact Hw|].
    unfold getShard. rewrite Delete_lookup by exact Hwf.
    rewrite decide_False by (intros [_ H]; contradiction). reflexivity.
  - unfold CachePkg.Delete, getShard.
    change (shardAt (emit c [EvLock (shardIndex key)]) (shardIndex key))
      with (shardAt c (shardIndex key)).
    destruct (shardAt c (shardIndex key) !! key) as [old|].
    + cbn [emit count persistCh droppedUpdates log].
      match goal with |- context [sendToPersist ?c1 ?op] =>
        destruct (sendToPersist_frame c1 op) as (_ & _ & _ & _ & Hc & _ & _ & _ & Hl) end.
      rewrite Hc, Hl. cbn [withCount count log setShard withShards emit].
      split; [reflexivity|]. rewrite <- !app_assoc.
      match goal with |- context [sendToPersist ?c1 ?op] =>
        destruct (sendToPersist_ch_ext c c1 op eq_refl eq_refl eq_refl) as [E1 E2] end.
      rewrite E1, E2. repeat split; reflexivity.
    + repeat split; reflexivity.
Qed.

(** X5. cleanupShard keeps exactly the entries of the shard that expire
    after the given time, and touches nothing else: the other shards, the
    persistence channel and the drop counter are as before, so a sweep is
    never written to the store. On a cache whose counter agrees with its
    shards, the counter goes down by the number of entries removed. *)
Theorem X5_cleanupShard_keeps_the_live (c : Cache) (i : nat) (t : Z) :
  shardAt (cleanupShard c i t) i
  = filter (fun ke : string * entry => t < exp ke.2) (shardAt c i)
  /\ (forall j, j <> i -> shardAt (cleanupShard c i t) j = shardAt c j)
  /\ persistCh (cleanupShard c i t) = persistCh c
  /\ droppedUpdates (cleanupShard c i t) = droppedUpdates c
  /\ now (cleanupShard c i t) = now c
  /\ (countInv c ->
      Count (cleanupShard c i t)
      = Count c - Z.of_nat (size (shardAt c i) - size (shardAt (cleanupShard c i t) i))).
Proof.
  assert (Hfr : persistCh (cleanupShard c i t) = persistCh c
                /\ droppedUpdates (cleanupShard c i t) = droppedUpdates c
                /\ now (cleanupShard c i t) = now c).
  { unfold cleanupShard.
    destruct (fold_left (cleanupStep t) _ _) as [s' cnt]. repeat split; reflexivity. }
  destruct Hfr as (H1 & H2 & H3).
  split; [|split; [|split; [exact H1|split; [exact H2|split; [exact H3|]]]]].
  - apply map_eq. intros k. rewrite cleanupShard_lookup, map_lookup_filter.
    destruct (shardAt c i !! k) as [e|]; simpl; [|reflexivity].
    destruct (decide (i = i /\ exp e <= t)) as [[_ H]|H].
    + rewrite option_guard_False by (simpl; lia). reflexivity.
    + rewrite option_guard_True by (simpl; lia). reflexivity.
  - intros j Hj. apply map_eq. intros k. rewrite cleanupShard_lookup.
    destruct (shardAt c j !! k) as [e|]; [|reflexivity].
    rewrite decide_False by (intros [H _]; contradiction). reflexivity.
  - intros Hinv. pose proof (countInv_cleanupShard c i t Hinv) as Hinv'.
    destruct Hinv as (Hlen & _ & _ & Hc). destruct Hinv' as (Hlen' & _ & _ & Hc').
    unfold Count. rewrite Hc, Hc'. unfold bindings.
    destruct (decide (i < length (shards c))%nat) as [Hi|Hi].
    + assert (Hs : shards (cleanupShard c i t)
                   = <[i := shardAt (cleanupShard c i t) i]> (shards c)).
      { apply list_eq. intros j. destruct (decide (j = i)) as [->|Hj].
        - rewrite list_lookup_insert_eq by exact Hi.
          apply shardAt_lookup. rewrite Hlen'. rewrite <- Hlen. exact Hi.
        - rewrite list_lookup_insert_ne by congruence.
          destruct (decide (j < length (shards c))%nat) as [Hlt|Hge].
          + rewrite (shardAt_lookup c j Hlt).
            rewrite (shardAt_lookup (cleanupShard c i t) j) by (rewrite Hlen', <- Hlen; exact Hlt).
            f_equal. apply map_eq. intros k. rewrite cleanupShard_lookup.
            destruct (shardAt c j !! k) as [e|]; [|reflexivity].
            rewrite decide_False by (intros [H _]; contradiction). reflexivity.
          + rewrite !lookup_ge_None_2; [reflexivity|lia|rewrite Hlen', <- Hlen; lia]. }
      rewrite Hs at 1.
      pose proof (sum_sizes_insert (shards c) i (shardAt c i)
                    (shardAt (cleanupShard c i t) i) (shardAt_lookup c i Hi)) as Hsum.
      assert (Hle : (size (shardAt (cleanupShard c i t) i) <= size (shardAt c i))%nat).
      { apply map_subseteq_size. apply map_subseteq_spec. intros k e He.
        rewrite cleanupShard_lookup in He.
        destruct (shardAt c i !! k) as [e'|]; [|discriminate].
        destruct (decide (i = i /\ exp e' <= t)); [discriminate|exact He]. }
      lia.
    + assert (Hs : shardAt c i = ∅).
      { unfold shardAt. rewrite lookup_ge_None_2 by lia. reflexivity. }
      assert (Hs' : shardAt (cleanupShard c i t) i = ∅).
      { unfold shardAt. rewrite lookup_ge_None_2 by (rewrite Hlen', <- Hlen; lia). reflexivity. }
      rewrite Hs, Hs'. rewrite map_size_empty.
      assert (Heq : shards (cleanupShard c i t) = shards c).
      { apply list_eq. intros j.
        destruct (decide (j < length (shards c))%nat) as [Hlt|Hge].
        - rewrite (shardAt_lookup c j Hlt).
          rewrite (shardAt_lookup (cleanupShard c i t) j) by (rewrite Hlen', <- Hlen; exact Hlt).
          f_equal. apply map_eq. intros k. rewrite cleanupShard_lookup.
          destruct (shardAt c j !! k) as [e|]; [|reflexivity].
          rewrite decide_False by (intros [H _]; lia). reflexivity.
        - rewrite !lookup_ge_None_2; [reflexivity|lia|rewrite Hlen', <- Hlen; lia]. }
      rewrite Heq. lia.
Qed.

(** X6. Whatever operations run on a cache made by New, no shard ever
    holds more than 2000 entries and Count never exceeds 256 * 2000. *)
Theorem X6_capacity_is_never_exceeded
        (ttl0 : Z) (ratio : spec_float) (now0 : Z) (os : list cacheOp) (c : Cache) :
  runOps (New ttl0 ratio now0) os = Some c ->
  (forall i, Z.of_nat (size (shardAt c i)) <= defaultShardCapacity)
  /\ 0 <= Count c <= 512000.
Proof.
  intros Hrun.
  pose proof (countInv_runOps os _ _ (countInv_New ttl0 ratio now0) Hrun) as Hinv.
  split.
  - intros i. destruct (decide (i < shardCount)%nat) as [Hi|Hi].
    + apply (countInv_bounds c i Hinv Hi).
    + destruct Hinv as (Hlen & _). unfold shardAt.
      rewrite lookup_ge_None_2 by (rewrite Hlen; lia).
      simpl. rewrite map_size_empty. unfold defaultShardCapacity. lia.
  - apply (countInv_bounds c 0 Hinv). unfold shardCount. lia.
Qed.

(** *** The sweep of all shards *)

Import Persistence.

Lemma sweep_fold_lookup (l : list nat) (t : Z) :
  forall (c : Cache) (j : nat) (k : string),
    shardAt (fold_left (fun c i => cleanupShard c i t) l c) j !! k =
    match shardAt c j !! k with
    | Some e => if decide (j ∈ l /\ exp e <= t) then None else Some e
    | None => None
    end.
Proof.
  induction l as [|i l IH]; intros c j k; cbn [fold_left].
  - destruct (shardAt c j !! k) as [e|]; [|reflexivity].
    rewrite decide_False; [reflexivity|]. intros [H _]. apply elem_of_nil in H. exact H.
  - rewrite IH, cleanupShard_lookup.
    destruct (shardAt c j !! k) as [e|]; [|reflexivity].
    destruct (decide (j = i /\ exp e <= t)) as [[-> He]|Hn].
    + rewrite decide_True; [reflexivity|]. split; [left|exact He].
    + destruct (decide (j ∈ l /\ exp e <= t)) as [[Hin He]|Hn'].
      * rewrite decide_True; [reflexivity|]. split; [right; exact Hin|exact He].
      * rewrite decide_False; [reflexivity|].
        intros [Hin He]. apply elem_of_cons in Hin as [->|Hin].
        -- apply Hn. split; [reflexivity|exact He].
        -- apply Hn'. split; assumption.
Qed.

Lemma sweep_fold_frame (l : list nat) (t : Z) :
  forall c : Cache,
    let c' := fold_left (fun c i => cleanupShard c i t) l c in
    now c' = now c /\ refreshWindow c' = refreshWindow c
    /\ persistCh c' = persistCh c /\ droppedUpdates c' = droppedUpdates c
    /\ (countInv c -> countInv c').
Proof.
  induction l as [|i l IH]; intros c; cbn [fold_left]; cbv zeta.
  - split; [reflexivity|split; [reflexivity|split; [reflexivity|split; [reflexivity|auto]]]].
  - destruct (IH (cleanupShard c i t)) as (H1 & H2 & H3 & H4 & H5).
    assert (Hfr : now (cleanupShard c i t) = now c
                  /\ refreshWindow (cleanupShard c i t) = refreshWindow c
                  /\ persistCh (cleanupShard c i t) = persistCh c
                  /\ droppedUpdates (cleanupShard c i t) = droppedUpdates c).
    { unfold cleanupShard.
      destruct (fold_left (cleanupStep t) _ _) as [s' cnt]. repeat split; reflexivity. }
    destruct Hfr as (G1 & G2 & G3 & G4).
    rewrite H1, H2, H3, H4.
    split; [exact G1|split; [exact G2|split; [exact G3|split; [exact G4|]]]].
    intros Hinv. apply H5. apply countInv_cleanupShard. exact Hinv.
Qed.

(** X7. One round of the cleanup task (the clock is read once, then all
    256 shards are swept) leaves in every shard exactly the entries that
    expire after that reading. No answer of Get changes, nothing is sent
    to the persistence channel, and Count becomes the number of entries
    that have not expired. *)
Theorem X7_cleanupAll_leaves_the_live (c : Cache) :
  countInv c ->
  let live := fun ke : string * entry => now c < exp ke.2 in
  shards (cleanupAll c) = filter live <$> shards c
  /\ (forall key, Get (cleanupAll c) key = Get c key)
  /\ Count (cleanupAll c) = Z.of_nat (sum_list (size <$> (filter live <$> shards c)))
  /\ persistCh (cleanupAll c) = persistCh c
  /\ droppedUpdates (cleanupAll c) = droppedUpdates c.
Proof.
  intros Hinv live. unfold cleanupAll.
  assert (Hall : forall j, (j < shardCount)%nat -> j ∈ seq 0 shardCount).
  { intros j Hj. apply elem_of_seq. lia. }
  set (l := seq 0 shardCount) in *.
  destruct (sweep_fold_frame l (now c) c) as (H1 & H2 & H3 & H4 & H5).
  set (c' := fold_left (fun c0 i => cleanupShard c0 i (now c)) l c) in *.
  specialize (H5 Hinv).
  assert (Hsh : shards c' = filter live <$> shards c).
  { destruct Hinv as (Hlen & _). destruct H5 as (Hlen' & _).
    apply list_eq. intros j. rewrite list_lookup_fmap.
    destruct (decide (j < shardCount)%nat) as [Hj|Hj].
    - rewrite (shardAt_lookup c' j) by (rewrite Hlen'; exact Hj).
      rewrite (shardAt_lookup c j) by (rewrite Hlen; exact Hj).
      simpl. f_equal. apply map_eq. intros k.
      unfold c'. rewrite sweep_fold_lookup, map_lookup_filter.
      destruct (shardAt c j !! k) as [e|]; simpl; [|reflexivity].
      destruct (decide (j ∈ l /\ exp e <= now c)) as [[_ He]|Hn].
      + rewrite option_guard_False by (unfold live; simpl; lia). reflexivity.
      + rewrite option_guard_True; [reflexivity|]. unfold live. simpl.
        destruct (decide (now c < exp e)) as [Hlt|Hge]; [exact Hlt|].
        exfalso. apply Hn. split; [|lia]. apply Hall. exact Hj.
    - rewrite !lookup_ge_None_2; [reflexivity|rewrite Hlen; lia|rewrite Hlen'; lia]. }
  split; [exact Hsh|]. split; [|split; [|split; assumption]].
  - intros key. unfold Get, getShard. rewrite H1, H2. unfold c'.
    rewrite sweep_fold_lookup.
    destruct (shardAt c (shardIndex key) !! key) as [e|]; [|reflexivity].
    destruct (decide (shardIndex key ∈ l /\ exp e <= now c)) as [[_ He]|Hn];
      [|reflexivity].
    replace (exp e <=? now c) with true by (symmetry; apply Z.leb_le; exact He).
    reflexivity.
  - destruct H5 as (_ & _ & _ & Hc). unfold Count. rewrite Hc. unfold bindings.
    rewrite Hsh. reflexivity.
Qed.

Lemma X7_cleanupAll_witness :
  let c := tick (Set_ (New 10 Float64.zero 0) 0 "1.2.3" "beijing_ct") 20 in
  Get (cleanupAll c) "1.2.3" = Get c "1.2.3".
Proof.
  intros c.
  refine (proj1 (proj2 (X7_cleanupAll_leaves_the_live c _)) "1.2.3").
  apply (countInv_applyOp (Set_ (New 10 Float64.zero 0) 0 "1.2.3" "beijing_ct") c
                          (OpTick 20)); [|reflexivity].
  apply countInv_Set, countInv_New.
Defined.

(** *** Placement *)

Lemma placed_applyOp (c c' : Cache) (o : cacheOp) :
  wf c -> placed c -> applyOp c o = Some c' -> placed c'.
Proof.
  intros Hwf Hpl Hop i k e.
  destruct o as [seed key val|seed key val ex ra|key|j t|t| |]; simpl in Hop; simplify_eq.
  - rewrite (upsert_lookup c _ seed key _ i k Hwf (Set_shards c seed key val)).
    destruct (decide (i = shardIndex key)) as [->|Hi]; [|apply Hpl].
    destruct (decide (k = key)) as [->|Hk]; [reflexivity|].
    destruct (decide _); [discriminate|apply Hpl].
  - rewrite (upsert_lookup c _ seed key _ i k Hwf (SetWithTime_shards c seed key val ex ra)).
    destruct (decide (i = shardIndex key)) as [->|Hi]; [|apply Hpl].
    destruct (decide (k = key)) as [->|Hk]; [reflexivity|].
    destruct (decide _); [discriminate|apply Hpl].
  - rewrite Delete_lookup by exact Hwf.
    destruct (decide _); [discriminate|apply Hpl].
  - rewrite cleanupShard_lookup.
    destruct (shardAt c i !! k) as [e'|] eqn:He; [|discriminate].
    destruct (decide _); [discriminate|]. intros _. eapply Hpl. exact He.
  - apply Hpl.
  - unfold recvPersist. destruct (Chan.recv (persistCh c)) as [[op ch]|]; apply Hpl.
  - unfold Close in Hop. destruct (stopped c); simplify_eq. apply Hpl.
Qed.

Lemma placed_runOps (os : list cacheOp) :
  forall c c' : Cache,
    countInv c -> placed c -> runOps c os = Some c' -> placed c'.
Proof.
  induction os as [|o os IH]; intros c c' Hinv Hpl Hrun; simpl in Hrun.
  - simplify_eq. exact Hpl.
  - destruct (applyOp c o) as [c1|] eqn:Hop; [|discriminate].
    apply (IH c1 c'); [|eapply placed_applyOp; eauto using countInv_wf|exact Hrun].
    eapply countInv_applyOp; eauto.
Qed.

(** X8. Whatever operations run on a cache made by New, a key is bound in
    at most one shard, the one getShard selects for it: every binding the
    cache holds is the one Get looks at. *)
Theorem X8_bindings_sit_in_their_shard
        (ttl0 : Z) (ratio : spec_float) (now0 : Z) (os : list cacheOp) (c : Cache) :
  runOps (New ttl0 ratio now0) os = Some c ->
  forall (i : nat) (k : string) (e : entry),
    shardAt c i !! k = Some e -> i = shardIndex k /\ getShard c k !! k = Some e.
Proof.
  intros Hrun i k e He.
  assert (Hpl : placed c).
  { apply (placed_runOps os (New ttl0 ratio now0) c); [apply countInv_New| |exact Hrun].
    intros j k' e' H. unfold New, shardAt in H. cbn [shards] in H.
    destruct (decide (j < shardCount)%nat) as [Hj|Hj].
    - rewrite lookup_replicate_2 in H by exact Hj. simpl in H.
      rewrite lookup_empty in H. discriminate.
    - rewrite lookup_ge_None_2 in H by (rewrite length_replicate; lia).
      simpl in H. rewrite lookup_empty in H. discriminate. }
  pose proof (Hpl i k e He) as ->. split; [reflexivity|exact He].
Qed.

Lemma X4_Delete_witness :
  let c := Set_ (New 10 Float64.zero 0) 0 "1.2.3" "beijing_ct" in
  Get (CachePkg.Delete c "1.2.3") "1.2.3" = ("", false, false, 0).
Proof.
  intros c.
  refine (proj1 (X4_Delete_then_Get c "1.2.3" _)).
  split; vm_compute; reflexivity.
Defined.

Lemma X6_capacity_witness :
  0 <= Count (Set_ (New 10 Float64.zero 0) 0 "1.2.3" "beijing_ct") <= 512000.
Proof.
  refine (proj2 (X6_capacity_is_never_exceeded 10 Float64.zero 0
                   [OpSet 0 "1.2.3" "beijing_ct"] _ _)).
  reflexivity.
Defined.

Lemma X8_placement_witness :
  shardIndex "1.2.3" = shardIndex "1.2.3"
  /\ getShard (Set_ (New 10 Float64.zero 0) 0 "1.2.3" "beijing_ct") "1.2.3" !! "1.2.3"
     = Some (mkEntry "beijing_ct" 10 10).
Proof.
  refine (X8_bindings_sit_in_their_shard 10 Float64.zero 0
            [OpSet 0 "1.2.3" "beijing_ct"] _ _
            (shardIndex "1.2.3") "1.2.3" (mkEntry "beijing_ct" 10 10) _).
  - reflexivity.
  - vm_compute. reflexivity.
Defined.

(** ** The store *)

Lemma execOp_lookup (db : table) (op : persistenceOp) (k : string) :
  execOp db op !! k =
  if decide (Key op = k)
  then (if IsDelete op then None else Some (mkRow (Value op) (Exp op) (RefreshAt op)))
  else db !! k.
Proof.
  unfold execOp. destruct (IsDelete op).
  - destruct (decide (Key op = k)) as [<-|Hne];
      [apply lookup_delete_eq|apply lookup_delete_ne; exact Hne].
  - destruct (decide (Key op = k)) as [<-|Hne];
      [apply lookup_insert_eq|apply lookup_insert_ne; exact Hne].
Qed.


(** The loop of flushBatch writes the ops whose Exec succeeded. *)
Lemma execRound_executed (failed : list nat) (l : list (nat * persistenceOp)) (db : table) :
  fold_left (execRound failed) l db
  = fold_left execOp (filter (fun iop : nat * persistenceOp => iop.1 ∉ failed) l).*2 db.
Proof.
  revert db. induction l as [|iop l IH]; intros db; [reflexivity|].
  cbn [fold_left]. rewrite IH. unfold execRound.
  destruct (bool_decide_reflect (iop.1 ∈ failed)) as [Hin|Hout].
  - rewrite filter_cons_False by (intros H; apply H; exact Hin). reflexivity.
  - rewrite filter_cons_True by exact Hout. reflexivity.
Qed.

Lemma imap_pair_snd {A} (f : nat -> nat) (l : list A) :
  (imap (fun i x => (f i, x)) l).*2 = l.
Proof.
  revert f. induction l as [|x l IH]; intros f; [reflexivity|].
  cbn [imap fmap list_fmap snd]. f_equal. apply (IH (f ∘ S)).
Qed.

Lemma filter_all {A} (P : A -> Prop) `{forall x, Decision (P x)} (l : list A) :
  Forall P l -> filter P l = l.
Proof.
  induction 1 as [|x l Hx _ IH]; [reflexivity|].
  rewrite filter_cons_True by exact Hx. rewrite IH. reflexivity.
Qed.

Lemma executed_nil (batch : list persistenceOp) : executed [] batch = batch.
Proof.
  unfold executed. rewrite filter_all.
  - apply (imap_pair_snd id).
  - apply Forall_forall. intros iop _. apply not_elem_of_nil.
Qed.



Lemma flushBatch_spec (db : table) (batch : list persistenceOp) (tx : txOutcome) :
  flushBatch db batch tx
  = if txOk tx then (fold_left execOp (executed (execFailed tx) batch) db, true)
    else (db, false).
Proof.
  unfold flushBatch, txOk, executed.
  destruct (beginOk tx), (prepareInsertOk tx), (prepareDeleteOk tx), (commitOk tx);
    cbn [negb andb]; rewrite ?execRound_executed; reflexivity.
Qed.

Lemma lossless_inv (tx : txOutcome) :
  lossless tx = true -> txOk tx = true /\ execFailed tx = [].
Proof.
  unfold lossless. intros H. apply andb_true_iff in H as [H1 H2].
  apply bool_decide_eq_true in H2. split; assumption.
Qed.

Lemma flushBatch_lossless (db : table) (batch : list persistenceOp) (tx : txOutcome) :
  lossless tx = true -> flushBatch db batch tx = (fold_left execOp batch db, true).
Proof.
  intros H. apply lossless_inv in H as [Hok Hex].
  rewrite flushBatch_spec, Hok, Hex, executed_nil. reflexivity.
Qed.


(** *** The writer loop *)

Lemma flush_committed (w : Writer) (tx : txOutcome) :
  lossless tx = true ->
  db (flush w tx) = fold_left execOp (batch w) (db w)
  /\ batch (flush w tx) = [] /\ exited (flush w tx) = exited w.
Proof.
  intros Hok. unfold flush. destruct (batch w) as [|op b] eqn:Hb.
  - rewrite Hb. repeat split; reflexivity.
  - rewrite (flushBatch_lossless _ _ tx Hok). repeat split; reflexivity.
Qed.



(** What is durable or on its way to the store: the table with the batch
    and then the channel applied to it. A turn of the loop in whose
    transaction nothing fails, and that does not clean, leaves it as it
    is. *)
Lemma writerStep_durable (c : Cache) (w : Writer) (ev : writerEvent) (tx : txOutcome) :
  lossless tx = true ->
  (forall t deleted, ev <> WCleanup t deleted) ->
  let c' := (writerStep (c, w) ev tx).1 in
  let w' := (writerStep (c, w) ev tx).2 in
  fold_left execOp (batch w' ++ persistCh c') (db w')
  = fold_left execOp (batch w ++ persistCh c) (db w).
Proof.
  intros Hok Hev. unfold writerStep. destruct (exited w); [reflexivity|].
  destruct ev as [| |t deleted|].
  - unfold Chan.recv. destruct (persistCh c) as [|op ch] eqn:Hch.
    + simpl. rewrite Hch. reflexivity.
    + cbn [fst snd withPersistCh persistCh].
      destruct (persistBatchSize <=? length (batch (mkWriter (db w) (batch w ++ [op]) false)))%nat.
      * destruct (flush_committed (mkWriter (db w) (batch w ++ [op]) false) tx Hok)
          as (Hd & Hb & _).
        rewrite Hd, Hb. cbn [db batch app].
        rewrite <- fold_left_app, <- app_assoc. reflexivity.
      * cbn [db batch]. rewrite <- app_assoc. reflexivity.
  - cbn [fst snd]. destruct (flush_committed w tx Hok) as (Hd & Hb & _).
    rewrite Hd, Hb. cbn [app]. rewrite <- fold_left_app. reflexivity.
  - exfalso. apply (Hev t deleted). reflexivity.
  - destruct (stopped c); [|reflexivity]. cbn [fst snd db batch].
    destruct (flush_committed w tx Hok) as (Hd & Hb & _).
    rewrite Hd, Hb. cbn [app]. rewrite <- fold_left_app. reflexivity.
Qed.




(** *** Loading the store *)

Lemma SetWithTime_frame (c : Cache) (seed : nat) (key val : string) (ex ra : Z) :
  ttl (SetWithTime c seed key val ex ra) = ttl c
  /\ refreshWindow (SetWithTime c seed key val ex ra) = refreshWindow c
  /\ now (SetWithTime c seed key val ex ra) = now c
  /\ closed (SetWithTime c seed key val ex ra) = closed c
  /\ persistCh (SetWithTime c seed key val ex ra) = persistCh c
  /\ droppedUpdates (SetWithTime c seed key val ex ra) = droppedUpdates c.
Proof.
  unfold SetWithTime.
  destruct (shardAt (emit c [EvLock (shardIndex key)]) (shardIndex key) !! key).
  - repeat split; reflexivity.
  - cbn [emit ttl refreshWindow now closed persistCh droppedUpdates].
    match goal with |- context [insertNew ?c0 ?sd ?k ?e] =>
      destruct (insertNew_frame c0 sd k e) as (G1 & G2 & _ & G3 & G4 & G5 & _ & G6 & _) end.
    rewrite G1, G2, G3, G4, G5, G6. repeat split; reflexivity.
Qed.

(** SetWithTime of a key that is new, into a shard with room. *)
Lemma SetWithTime_new (c : Cache) (seed : nat) (key val : string) (ex ra : Z) :
  countInv c -> getShard c key !! key = None ->
  Z.of_nat (size (getShard c key)) < defaultShardCapacity ->
  let c1 := SetWithTime c seed key val ex ra in
  (forall j, shardAt c1 j =
             if decide (j = shardIndex key) then <[key := mkEntry val ex ra]> (shardAt c j)
             else shardAt c j)
  /\ count c1 = count c + 1.
Proof.
  intros Hinv Hnone Hroom c1.
  pose proof (countInv_wf c Hinv) as Hwf.
  assert (Hcap : shardCap c = defaultShardCapacity) by apply Hinv.
  split.
  - intros j. apply map_eq. intros k.
    unfold c1.
    rewrite (upsert_lookup c _ seed key _ j k Hwf (SetWithTime_shards c seed key val ex ra)).
    destruct (decide (j = shardIndex key)) as [->|Hj]; [|reflexivity].
    destruct (decide (k = key)) as [->|Hk]; [rewrite lookup_insert_eq; reflexivity|].
    rewrite lookup_insert_ne by congruence.
    rewrite decide_False; [reflexivity|]. intros (_ & H & _). lia.
  - unfold c1, SetWithTime.
    change (shardAt (emit c [EvLock (shardIndex key)]) (shardIndex key))
      with (getShard c key).
    rewrite Hnone. cbn [emit count].
    set (c0 := emit c [EvLock (shardIndex key)]).
    assert (Hwf0 : wf c0) by exact Hwf.
    pose proof (insertNew_shard c0 seed key (mkEntry val ex ra) Hwf0) as Hins.
    simpl in Hins. change (getShard c0 key) with (getShard c key) in Hins.
    change (shardCap c0) with (shardCap c) in Hins.
    change (count c0) with (count c) in Hins.
    destruct (decide (shardCap c <= Z.of_nat (size (getShard c key)))) as [Hfull|_]; [lia|].
    destruct Hins as [_ Hc]. rewrite Hc.
    apply add64_exact.
    pose proof (countInv_bounds c 0 Hinv ltac:(unfold shardCount; lia)) as (Hb & _).
    unfold isInt64, minInt64, maxInt64. lia.
Qed.

Lemma rowsInto_cons (i : nat) (k : string) (r : row) (rows : list (string * row)) :
  rowsInto i ((k, r) :: rows)
  = ((if decide (shardIndex k = i) then 1 else 0) + rowsInto i rows)%nat.
Proof.
  unfold rowsInto. destruct (decide (shardIndex k = i)) as [H|H].
  - rewrite filter_cons_True by exact H. reflexivity.
  - rewrite filter_cons_False by exact H. reflexivity.
Qed.

Lemma loadRows_spec (seeds : nat -> nat) (rows : list (string * row)) :
  forall (c : Cache) (n : nat),
    countInv c -> NoDup rows.*1 ->
    (forall k r, (k, r) ∈ rows -> getShard c k !! k = None) ->
    (forall i, Z.of_nat (size (shardAt c i) + rowsInto i rows) <= defaultShardCapacity) ->
    let c' := loadRows c n seeds rows in
    countInv c'
    /\ (forall j k,
          shardAt c' j !! k =
          match (list_to_map rows : gmap string row) !! k with
          | Some r => if decide (j = shardIndex k) then Some (rowEntry r)
                      else shardAt c j !! k
          | None => shardAt c j !! k
          end)
    /\ count c' = count c + Z.of_nat (length rows)
    /\ now c' = now c /\ refreshWindow c' = refreshWindow c
    /\ persistCh c' = persistCh c /\ droppedUpdates c' = droppedUpdates c.
Proof.
  induction rows as [|[k0 r0] rows IH]; intros c n Hinv Hnd Hnew Hcap; cbv zeta.
  - cbn [loadRows]. split; [exact Hinv|]. split; [|repeat split; simpl; lia].
    intros j k. rewrite list_to_map_nil, lookup_empty. reflexivity.
  - cbn [loadRows].
    set (c1 := SetWithTime c (seeds n) k0 (rValue r0) (rExp r0) (rRefreshAt r0)).
    rewrite fmap_cons in Hnd. apply NoDup_cons in Hnd as [Hfresh Hnd].
    assert (Hnone : getShard c k0 !! k0 = None) by (apply (Hnew k0 r0); left).
    assert (Hroom : Z.of_nat (size (getShard c k0)) < defaultShardCapacity).
    { specialize (Hcap (shardIndex k0)). rewrite rowsInto_cons in Hcap.
      rewrite decide_True in Hcap by reflexivity. unfold getShard. lia. }
    destruct (SetWithTime_new c (seeds n) k0 (rValue r0) (rExp r0) (rRefreshAt r0)
                Hinv Hnone Hroom) as [Hsh1 Hc1].
    fold c1 in Hsh1, Hc1.
    destruct (SetWithTime_frame c (seeds n) k0 (rValue r0) (rExp r0) (rRefreshAt r0))
      as (_ & Hw1 & Hn1 & _ & Hp1 & Hd1).
    fold c1 in Hw1, Hn1, Hp1, Hd1.
    assert (Hinv1 : countInv c1) by (apply countInv_SetWithTime; exact Hinv).
    assert (Hnew1 : forall k r, (k, r) ∈ rows -> getShard c1 k !! k = None).
    { intros k r Hin. unfold getShard. rewrite Hsh1.
      assert (Hk : k <> k0).
      { intros ->. apply Hfresh. apply list_elem_of_fmap. exists (k0, r). split;
          [reflexivity|exact Hin]. }
      destruct (decide (shardIndex k = shardIndex k0)).
      - rewrite lookup_insert_ne by congruence. apply (Hnew k r). right. exact Hin.
      - apply (Hnew k r). right. exact Hin. }
    assert (Hcap1 : forall i,
               Z.of_nat (size (shardAt c1 i) + rowsInto i rows) <= defaultShardCapacity).
    { intros i. specialize (Hcap i). rewrite rowsInto_cons in Hcap. rewrite Hsh1.
      destruct (decide (i = shardIndex k0)) as [->|Hi].
      - rewrite decide_True in Hcap by reflexivity.
        rewrite map_size_insert_None by exact Hnone. lia.
      - rewrite decide_False in Hcap by congruence. lia. }
    destruct (IH c1 (S n) Hinv1 Hnd Hnew1 Hcap1) as (Hi' & Hl' & Hc' & Hn' & Hw' & Hp' & Hd').
    split; [exact Hi'|]. split; [|cbn [length]; repeat split; try congruence; lia].
    intros j k. rewrite Hl', list_to_map_cons, Hsh1. cbn [fst snd].
    destruct (decide (k = k0)) as [->|Hk].
    + rewrite lookup_insert_eq.
      rewrite (not_elem_of_list_to_map_1 _ _ Hfresh).
      destruct (decide (j = shardIndex k0)); [|reflexivity].
      rewrite lookup_insert_eq. reflexivity.
    + rewrite lookup_insert_ne by congruence.
      assert (Hsame : (if decide (j = shardIndex k0)
                       then <[k0:=mkEntry (rValue r0) (rExp r0) (rRefreshAt r0)]> (shardAt c j)
                       else shardAt c j) !! k = shardAt c j !! k).
      { destruct (decide (j = shardIndex k0)); [|reflexivity].
        apply lookup_insert_ne. congruence. }
      rewrite Hsame. reflexivity.
Qed.

Lemma liveRows_lookup (db : table) (t : Z) (k : string) :
  liveRows db t !! k =
  match db !! k with
  | Some r => if decide (t < rExp r) then Some r else None
  | None => None
  end.
Proof.
  unfold liveRows, table in *. rewrite map_lookup_filter.
  destruct (db !! k) as [r|]; simpl; [|reflexivity].
  destruct (decide (t < rExp r)) as [Hlt|Hge].
  - rewrite option_guard_True by exact Hlt. reflexivity.
  - rewrite option_guard_False by exact Hge. reflexivity.
Qed.

Lemma list_to_map_answer (db : table) (t : Z) (rows : list (string * row)) :
  queryAnswer db t rows ->
  NoDup rows.*1 /\ (list_to_map rows : gmap string row) = liveRows db t
  /\ length rows = size (liveRows db t).
Proof.
  intros Hq. unfold queryAnswer in Hq.
  assert (Hnd : NoDup rows.*1).
  { rewrite Hq. apply NoDup_fst_map_to_list. }
  split; [exact Hnd|]. split.
  - rewrite <- (list_to_map_to_list (liveRows db t)).
    apply list_to_map_proper; [exact Hnd|exact Hq].
  - rewrite Hq. apply length_map_to_list.
Qed.

Lemma load_spec (ttl0 : Z) (ratio : spec_float) (now0 : Z)
      (db : table) (t : Z) (rows : list (string * row)) (seeds : nat -> nat) :
  queryAnswer db t rows ->
  (forall i, Z.of_nat (rowsInto i rows) <= defaultShardCapacity) ->
  let c := LoadFromSQLite (New ttl0 ratio now0) rows seeds in
  (forall k,
      getShard c k !! k =
      match db !! k with
      | Some r => if decide (t < rExp r) then Some (rowEntry r) else None
      | None => None
      end)
  /\ count c = Z.of_nat (size (liveRows db t))
  /\ now c = now0 /\ refreshWindow c = refreshWindow (New ttl0 ratio now0)
  /\ persistCh c = [] /\ droppedUpdates c = 0.
Proof.
  intros Hq Hcap c.
  destruct (list_to_map_answer db t rows Hq) as (Hnd & Hmap & Hlen).
  pose (c0 := New ttl0 ratio now0).
  assert (Hempty : forall i k, shardAt c0 i !! k = None).
  { intros i k. unfold c0, New, shardAt. cbn [shards].
    destruct (decide (i < shardCount)%nat) as [Hi|Hi].
    - rewrite lookup_replicate_2 by exact Hi. simpl. apply lookup_empty.
    - rewrite lookup_ge_None_2 by (rewrite length_replicate; lia). simpl. apply lookup_empty. }
  assert (Hsize : forall i, size (shardAt c0 i) = 0%nat).
  { intros i. replace (shardAt c0 i) with (∅ : gmap string entry);
      [apply map_size_empty|].
    symmetry. apply map_eq. intros k. rewrite Hempty, lookup_empty. reflexivity. }
  destruct (loadRows_spec seeds rows c0 0 (countInv_New ttl0 ratio now0) Hnd)
    as (Hinv & Hl & Hc & Hn & Hw & Hp & Hd).
  { intros k r _. apply Hempty. }
  { intros i. rewrite Hsize. apply Hcap. }
  change (loadRows c0 0 seeds rows) with c in Hinv, Hl, Hc, Hn, Hw, Hp, Hd.
  split; [|split; [|split; [|split; [|split]]]].
  - intros k. unfold getShard. rewrite Hl, Hmap, liveRows_lookup.
    destruct (db !! k) as [r|]; [|apply Hempty].
    destruct (decide (t < rExp r)) as [Hlt|Hge]; [|apply Hempty].
    rewrite decide_True by reflexivity. reflexivity.
  - rewrite Hc, Hlen. reflexivity.
  - exact Hn.
  - exact Hw.
  - rewrite Hp. reflexivity.
  - rewrite Hd. reflexivity.
Qed.

(** X11. LoadFromSQLite into a cache made by New restores exactly the
    rows its query selected (those with exp > t), each with the value,
    expiry and refresh time the store has: Get then serves such a row iff
    it has not expired by the clock of the cache, with exp - now remaining.
    Count becomes the number of rows loaded and nothing is sent back to the
    persistence channel. This holds when no shard is sent more rows than
    its capacity; the order in which the database returns the rows does
    not matter. *)
Theorem X11_load_restores_the_live_rows
        (ttl0 : Z) (ratio : spec_float) (now0 : Z)
        (db : table) (t : Z) (rows : list (string * row)) (seeds : nat -> nat) :
  queryAnswer db t rows ->
  (forall i, Z.of_nat (rowsInto i rows) <= defaultShardCapacity) ->
  let c := LoadFromSQLite (New ttl0 ratio now0) rows seeds in
  (forall k,
      getShard c k !! k =
      match db !! k with
      | Some r => if decide (t < rExp r) then Some (rowEntry r) else None
      | None => None
      end)
  /\ (forall k,
        Get c k =
        match db !! k with
        | Some r =>
            if decide (t < rExp r /\ now0 < rExp r)
            then (rValue r, true,
                  bool_decide (0 < refreshWindow (New ttl0 ratio now0)
                               /\ rRefreshAt r <= now0),
                  sub64 (rExp r) now0)
            else ("", false, false, 0)
        | None => ("", false, false, 0)
        end)
  /\ Count c = Z.of_nat (size (liveRows db t))
  /\ persistCh c = [] /\ DroppedCount c = 0.
Proof.
  intros Hq Hcap c.
  destruct (load_spec ttl0 ratio now0 db t rows seeds Hq Hcap)
    as (Hlook & Hc & Hn & Hw & Hp & Hd).
  fold c in Hlook, Hc, Hn, Hw, Hp, Hd.
  split; [exact Hlook|]. split; [|split; [|split]]; [|exact Hc|exact Hp|exact Hd].
  intros k. unfold Get. rewrite Hlook, Hn, Hw.
  destruct (db !! k) as [r|]; [|reflexivity].
  destruct (decide (t < rExp r)) as [Hlt|Hge].
  - cbn [rowEntry exp value refreshAt].
    destruct (decide (t < rExp r /\ now0 < rExp r)) as [[_ Hlive]|Hdead].
    + replace (rExp r <=? now0) with false by (symmetry; apply Z.leb_gt; lia).
      f_equal. f_equal.
      destruct (bool_decide_reflect (0 < refreshWindow (New ttl0 ratio now0)
                                     /\ rRefreshAt r <= now0)) as [[H1 H2]|Hno].
      * apply andb_true_intro. split; [apply Z.ltb_lt|apply Z.leb_le]; assumption.
      * apply andb_false_iff.
        destruct (decide (0 < refreshWindow (New ttl0 ratio now0))) as [H1|H1].
        -- right. apply Z.leb_gt. lia.
        -- left. apply Z.ltb_ge. lia.
    + replace (rExp r <=? now0) with true by (symmetry; apply Z.leb_le; lia).
      reflexivity.
  - rewrite decide_False by (intros [H _]; contradiction). reflexivity.
Qed.

Lemma X11_load_witness :
  let r := mkRow "beijing_ct" 100 90 in
  Get (LoadFromSQLite (New 10 Float64.zero 5) [("1.2.3", r)] (fun _ => 0%nat)) "1.2.3"
  = ("beijing_ct", true, false, 95).
Proof.
  intros r.
  pose proof (X11_load_restores_the_live_rows 10 Float64.zero 5
                {["1.2.3" := r]} 7 [("1.2.3", r)] (fun _ => 0%nat)) as H.
  cbv zeta in H. refine (eq_trans (proj1 (proj2 (H _ _)) "1.2.3") _).
  - unfold queryAnswer. vm_compute. reflexivity.
  - intros i. rewrite rowsInto_cons. unfold rowsInto, defaultShardCapacity.
    destruct (decide (shardIndex "1.2.3" = i)); simpl; lia.
  - vm_compute. reflexivity.
Defined.

(** *** The store mirrors the cache *)

Lemma add64_1_ne (d : Z) : add64 d 1 <> d.
Proof.
  unfold add64, wrap64. intros H.
  assert (Hm : (d + 1 + 2 ^ 63) mod 2 ^ 64 = d + 2 ^ 63) by lia.
  pose proof (Z.mod_pos_bound (d + 1 + 2 ^ 63) (2 ^ 64) ltac:(lia)) as Hb.
  pose proof (Z.div_mod (d + 1 + 2 ^ 63) (2 ^ 64) ltac:(lia)) as Hd.
  rewrite Hm in Hd, Hb.
  assert (2 ^ 64 * ((d + 1 + 2 ^ 63) / 2 ^ 64) = 1) by lia.
  lia.
Qed.

(** If the drop counter did not move, the op went into the channel. *)
Lemma sendToPersist_kept (c : Cache) (op : persistenceOp) :
  droppedUpdates (sendToPersist c op) = droppedUpdates c ->
  persistCh (sendToPersist c op) = persistCh c ++ [op].
Proof.
  unfold sendToPersist, Chan.trySend. cbn [emit closed persistCh droppedUpdates].
  destruct (closed c =? 1).
  - cbn [withDropped droppedUpdates]. intros H. apply add64_1_ne in H. contradiction.
  - destruct (length (persistCh c) <? persistChCap)%nat.
    + reflexivity.
    + cbn [withDropped droppedUpdates]. intros H. apply add64_1_ne in H. contradiction.
Qed.

Lemma Set_channel (c : Cache) (seed : nat) (key val : string) :
  let ex := add64 (now c) (ttl c) in
  let e := mkEntry val ex (sub64 ex (refreshWindow c)) in
  persistCh (Set_ c seed key val) = persistCh (sendToPersist c (upsertOp key val e))
  /\ droppedUpdates (Set_ c seed key val)
     = droppedUpdates (sendToPersist c (upsertOp key val e)).
Proof.
  intros ex e. unfold Set_. fold ex. fold e.
  destruct (shardAt (emit c [EvLock (shardIndex key)]) (shardIndex key) !! key).
  - apply sendToPersist_ch_ext; reflexivity.
  - match goal with |- context [insertNew ?c0 ?sd ?k ?e0] =>
      destruct (insertNew_frame c0 sd k e0) as (_ & _ & _ & G1 & _ & G2 & _ & G3 & _) end.
    apply sendToPersist_ch_ext; cbn [emit closed persistCh droppedUpdates]; assumption.
Qed.

Lemma Delete_channel (c : Cache) (key : string) :
  match getShard c key !! key with
  | None => persistCh (CachePkg.Delete c key) = persistCh c
            /\ droppedUpdates (CachePkg.Delete c key) = droppedUpdates c
  | Some _ =>
      persistCh (CachePkg.Delete c key) = persistCh (sendToPersist c (mkOp true key "" 0 0))
      /\ droppedUpdates (CachePkg.Delete c key)
         = droppedUpdates (sendToPersist c (mkOp true key "" 0 0))
  end.
Proof.
  unfold CachePkg.Delete, getShard.
  change (shardAt (emit c [EvLock (shardIndex key)]) (shardIndex key))
    with (shardAt c (shardIndex key)).
  destruct (shardAt c (shardIndex key) !! key) as [old|].
  - cbn [emit persistCh droppedUpdates].
    apply sendToPersist_ch_ext; reflexivity.
  - split; reflexivity.
Qed.

Lemma cleanupShard_frame (c : Cache) (i : nat) (t : Z) :
  persistCh (cleanupShard c i t) = persistCh c
  /\ droppedUpdates (cleanupShard c i t) = droppedUpdates c
  /\ now (cleanupShard c i t) = now c
  /\ refreshWindow (cleanupShard c i t) = refreshWindow c
  /\ closed (cleanupShard c i t) = closed c.
Proof.
  unfold cleanupShard.
  destruct (fold_left (cleanupStep t) _ _) as [s' cnt]. repeat split; reflexivity.
Qed.

Lemma durable_snoc (w : Writer) (ch : list persistenceOp) (op : persistenceOp) :
  fold_left execOp (batch w ++ ch ++ [op]) (db w)
  = execOp (fold_left execOp (batch w ++ ch) (db w)) op.
Proof. rewrite app_assoc, fold_left_app. reflexivity. Qed.

(** Every binding of the cache has its row in the durable table. *)
Lemma mirrored_step (c : Cache) (w : Writer) (l : plabel) (c' : Cache) (w' : Writer) :
  wf c -> faithful l -> pstep (c, w) l = Some (c', w') ->
  DroppedCount c' = DroppedCount c ->
  (forall k e, getShard c k !! k = Some e ->
               durable (c, w) !! k = Some (mkRow (value e) (exp e) (refreshAt e))) ->
  forall k e, getShard c' k !! k = Some e ->
              durable (c', w') !! k = Some (mkRow (value e) (exp e) (refreshAt e)).
Proof.
  intros Hwf Hf Hstep Hdrop HJ k e Hk. unfold durable in *. cbn [fst snd] in *.
  destruct l as [op|ev tx]; cbn [pstep fst snd] in Hstep.
  - destruct (applyOp c op) as [c1|] eqn:Hop; [|discriminate]. simplify_eq.
    destruct op as [seed key val|seed key val ex ra|key|j t|t| |];
      simpl in Hop, Hf; simplify_eq; try contradiction.
    + (* Set *)
      destruct (Set_channel c seed key val) as [Hch Hdr]. cbv zeta in Hch, Hdr.
      unfold DroppedCount in Hdrop. rewrite Hdr in Hdrop.
      rewrite Hch, (sendToPersist_kept _ _ Hdrop), durable_snoc, execOp_lookup.
      cbn [upsertOp Key IsDelete Value Exp RefreshAt].
      pose proof (upsert_lookup c _ seed key _ (shardIndex k) k Hwf
                    (Set_shards c seed key val)) as Hl.
      fold (getShard (Set_ c seed key val) k) in Hl. rewrite Hk in Hl.
      destruct (decide (key = k)) as [->|Hne].
      * destruct (decide (shardIndex k = shardIndex k)) as [_|Hn]; [|contradiction].
        rewrite decide_True in Hl by reflexivity. simplify_eq. reflexivity.
      * apply HJ. unfold getShard.
        destruct (decide (shardIndex k = shardIndex key)); [|congruence].
        rewrite decide_False in Hl by congruence.
        destruct (decide _); [discriminate|congruence].
    + (* Delete *)
      pose proof (Delete_channel c key) as Hch.
      unfold getShard in Hk. rewrite Delete_lookup in Hk by exact Hwf.
      destruct (decide (shardIndex k = shardIndex key /\ k = key)) as [|Hne];
        [discriminate|].
      destruct (getShard c key !! key) as [old|] eqn:Hold.
      * destruct Hch as [Hch Hdr]. unfold DroppedCount in Hdrop. rewrite Hdr in Hdrop.
        rewrite Hch, (sendToPersist_kept _ _ Hdrop), durable_snoc, execOp_lookup.
        cbn [Key IsDelete].
        destruct (decide (key = k)) as [->|Hkk].
        -- exfalso. apply Hne. split; reflexivity.
        -- apply HJ. exact Hk.
      * destruct Hch as [Hch _]. rewrite Hch. apply HJ. exact Hk.
    + (* sweep *)
      destruct (cleanupShard_frame c j t) as (Hch & _). rewrite Hch.
      apply HJ. unfold getShard in *. rewrite cleanupShard_lookup in Hk.
      destruct (shardAt c (shardIndex k) !! k) as [e'|]; [|discriminate].
      destruct (decide _); [discriminate|exact Hk].
    + (* tick *) apply HJ. exact Hk.
    + (* Close *)
      unfold Close in Hop. destruct (stopped c); simplify_eq. apply HJ. exact Hk.
  - simplify_eq. simpl in Hf.
    assert (Hev : forall t deleted, ev <> WCleanup t deleted).
    { intros t deleted ->. exact Hf. }
    assert (Hok : lossless tx = true) by (destruct ev; try exact Hf; contradiction).
    pose proof (writerStep_durable c w ev tx Hok Hev) as Hd. cbv zeta in Hd.
    rewrite Hstep in Hd. cbn [fst snd] in Hd. rewrite Hd.
    apply HJ.
    assert (Hsh : shards c' = shards c).
    { unfold writerStep in Hstep. destruct (exited w); [congruence|].
      destruct ev; simplify_eq; try reflexivity.
      - unfold Chan.recv in Hstep. destruct (persistCh c); simplify_eq; reflexivity.
      - destruct (stopped c); simplify_eq; reflexivity. }
    unfold getShard, shardAt in *. rewrite <- Hsh. exact Hk.
Qed.

Lemma writerStep_cache (c : Cache) (w : Writer) (ev : writerEvent) (cm : txOutcome) :
  (writerStep (c, w) ev cm).1 = c \/ (writerStep (c, w) ev cm).1 = recvPersist c.
Proof.
  unfold writerStep, recvPersist. destruct (exited w); [left; reflexivity|].
  destruct ev.
  - destruct (Chan.recv (persistCh c)) as [[op ch]|]; [right|left]; reflexivity.
  - left; reflexivity.
  - left; reflexivity.
  - destruct (stopped c); left; reflexivity.
Qed.

Lemma countInv_pstep (cw cw' : Cache * Writer) (l : plabel) :
  countInv cw.1 -> pstep cw l = Some cw' -> countInv cw'.1.
Proof.
  intros Hinv Hstep. destruct cw as [c w]. destruct l as [op|ev cm]; cbn [pstep fst] in *.
  - destruct (applyOp c op) as [c1|] eqn:Hop; [|discriminate]. simplify_eq.
    eapply countInv_applyOp; eauto.
  - simplify_eq. destruct (writerStep_cache c w ev cm) as [->| ->]; [exact Hinv|].
    apply (countInv_applyOp c _ OpRecvPersist Hinv). reflexivity.
Qed.

Lemma mirrored_run (ls : list plabel) :
  forall (c : Cache) (w : Writer) (c' : Cache) (w' : Writer),
    countInv c -> steady (c, w) ls -> prun (c, w) ls = Some (c', w') ->
    (forall k e, getShard c k !! k = Some e ->
                 durable (c, w) !! k = Some (mkRow (value e) (exp e) (refreshAt e))) ->
    forall k e, getShard c' k !! k = Some e ->
                durable (c', w') !! k = Some (mkRow (value e) (exp e) (refreshAt e)).
Proof.
  induction ls as [|l ls IH]; intros c w c' w' Hinv Hst Hrun HJ.
  - cbn [prun] in Hrun. simplify_eq. exact HJ.
  - cbn [prun steady] in Hrun, Hst. destruct Hst as [Hf Hst].
    destruct (pstep (c, w) l) as [[c1 w1]|] eqn:Hstep; [|discriminate].
    destruct Hst as [Hdrop Hst]. cbn [fst] in Hdrop.
    apply (IH c1 w1 c' w'); [|exact Hst|exact Hrun|].
    + apply (countInv_pstep (c, w) (c1, w1) l Hinv Hstep).
    + apply (mirrored_step c w l c1 w1 (countInv_wf c Hinv) Hf Hstep Hdrop HJ).
Qed.

Lemma mirrored_from_New (ttl0 : Z) (ratio : spec_float) (now0 : Z) (db0 : table)
      (ls : list plabel) (c : Cache) (w : Writer) :
  steady (New ttl0 ratio now0, mkWriter db0 [] false) ls ->
  prun (New ttl0 ratio now0, mkWriter db0 [] false) ls = Some (c, w) ->
  forall k e, getShard c k !! k = Some e ->
              durable (c, w) !! k = Some (mkRow (value e) (exp e) (refreshAt e)).
Proof.
  intros Hst Hrun.
  apply (mirrored_run ls _ _ c w (countInv_New ttl0 ratio now0) Hst Hrun).
  intros k e Hk. exfalso. unfold getShard, New, shardAt in Hk. cbn [shards] in Hk.
  pose proof (shardIndex_lt k) as Hi.
  rewrite lookup_replicate_2 in Hk by exact Hi. simpl in Hk.
  rewrite lookup_empty in Hk. discriminate.
Qed.

Lemma Get_found (c : Cache) (k : string) :
  (Get c k).1.1.2 = true ->
  exists e, getShard c k !! k = Some e /\ now c < exp e /\ (Get c k).1.1.1 = value e.
Proof.
  unfold Get. destruct (getShard c k !! k) as [e|]; [|discriminate].
  destruct (exp e <=? now c) eqn:Hexp; [discriminate|].
  intros _. exists e. split; [reflexivity|]. split; [apply Z.leb_gt; exact Hexp|reflexivity].
Qed.

(** The map GetAllItems builds from an answer to its query, when every
    Scan succeeds. *)
Lemma scanRows_lookup (rows : list (string * string * bool)) :
  forall m : gmap string string,
    Forall (fun r : string * string * bool => r.2 = true) rows ->
    NoDup rows.*1.*1 ->
    forall k,
      fold_left (fun res (r : string * string * bool) =>
                   if r.2 then <[r.1.1 := r.1.2]> res else res) rows m !! k
      = match (list_to_map rows.*1 : gmap string string) !! k with
        | Some v => Some v
        | None => m !! k
        end.
Proof.
  induction rows as [|[[k0 v0] b0] rows IH]; intros m Hall Hnd k.
  - cbn [fold_left fmap list_fmap]. rewrite list_to_map_nil, lookup_empty. reflexivity.
  - apply Forall_cons in Hall as [Hb Hall]. cbn [snd] in Hb. subst b0.
    rewrite !fmap_cons in Hnd. cbn [fst] in Hnd. apply NoDup_cons in Hnd as [Hfresh Hnd].
    cbn [fold_left fst snd]. rewrite (IH _ Hall Hnd).
    rewrite fmap_cons. cbn [fst]. rewrite list_to_map_cons.
    destruct (decide (k = k0)) as [->|Hk].
    + rewrite (not_elem_of_list_to_map_1 _ _ Hfresh), !lookup_insert_eq. reflexivity.
    + rewrite !lookup_insert_ne by congruence. reflexivity.
Qed.

Lemma scanRows_answer (db : table) (t : Z) (rows : list (string * string * bool)) :
  selectAnswer db t rows ->
  Forall (fun r : string * string * bool => r.2 = true) rows ->
  scanRows rows = rValue <$> liveRows db t.
Proof.
  intros Hq Hall. unfold selectAnswer in Hq.
  assert (Hnd : NoDup rows.*1.*1).
  { rewrite Hq. apply NoDup_fst_map_to_list. }
  apply map_eq. intros k. unfold scanRows.
  rewrite (scanRows_lookup rows ∅ Hall Hnd k), lookup_empty.
  rewrite <- (list_to_map_to_list (rValue <$> liveRows db t)).
  rewrite (list_to_map_proper _ _ Hnd Hq).
  destruct (_ !! k); reflexivity.
Qed.

Lemma GetAllItems_items (c : Cache) (cn cn' : Conn) (io : readIO)
      (items : gmap string string) :
  GetAllItems c cn io = (cn', Some items) ->
  exists rows, queried io = Some rows /\ items = scanRows rows.
Proof.
  unfold GetAllItems. destruct (ensureReadOnlyDB c cn (openOk io)) as [cn1 [|]];
    cbn [negb]; [|discriminate].
  destruct (closedMeanwhile io); [discriminate|].
  destruct (queried io) as [rows|]; [|discriminate].
  intros H. simplify_eq. exists rows. split; reflexivity.
Qed.

(** X13. The store mirrors the cache. Start from a cache made by New and
    a writer with an empty batch, and let Set, Delete, sweeps, ticks, Close
    and the turns of the writer loop run in any order, as long as
    DroppedCount never moves, nothing fails in the transactions of the
    flushes (neither Begin, a Prepare, Commit nor an Exec) and the store is
    not cleaned. Then every binding the cache holds has its row, with the
    same value, expiry and refresh time, in the table once the batch and
    the channel are written to it. So when the writer has caught up
    (channel and batch empty) and GetAllItems succeeds on an answer to its
    query whose rows all scan, every key that Get serves is listed with
    the tag Get returns. The condition on Exec is needed: after one Set
    whose Exec fails in a transaction that commits, the cache holds the
    binding, the writer has caught up and the table has no row for it. *)
Theorem X13_store_mirrors_the_cache
        (ttl0 : Z) (ratio : spec_float) (now0 : Z) (db0 : table)
        (ls : list plabel) (c : Cache) (w : Writer) :
  steady (New ttl0 ratio now0, mkWriter db0 [] false) ls ->
  prun (New ttl0 ratio now0, mkWriter db0 [] false) ls = Some (c, w) ->
  (forall k e, getShard c k !! k = Some e ->
               durable (c, w) !! k = Some (mkRow (value e) (exp e) (refreshAt e)))
  /\ (persistCh c = [] -> batch w = [] ->
      forall cn cn' io rows items k,
        queried io = Some rows ->
        selectAnswer (db w) (now c) rows ->
        Forall (fun r : string * string * bool => r.2 = true) rows ->
        GetAllItems c cn io = (cn', Some items) ->
        (Get c k).1.1.2 = true -> items !! k = Some (Get c k).1.1.1)
  /\ (let bad := mkTx true true true [0%nat] true in
      let cw := writerRun (Set_ (New 10 Float64.zero 5) 0 "1.2.3" "beijing_ct",
                           mkWriter ∅ [] false) [(WOp, bad); (WTick, bad)] in
      txOk bad = true
      /\ getShard cw.1 "1.2.3" !! "1.2.3" = Some (mkEntry "beijing_ct" 15 15)
      /\ persistCh cw.1 = [] /\ batch cw.2 = []
      /\ db cw.2 !! "1.2.3" = None).
Proof.
  intros Hst Hrun.
  pose proof (mirrored_from_New ttl0 ratio now0 db0 ls c w Hst Hrun) as HJ.
  split; [exact HJ|].
  split; [|vm_compute; repeat split; reflexivity].
  intros Hch Hb cn cn' io rows items k Hq Hsel Hscan Hall Hget.
  destruct (Get_found c k Hget) as (e & Hk & Hlive & Hv).
  specialize (HJ k e Hk). unfold durable in HJ. cbn [fst snd] in HJ.
  rewrite Hch, Hb in HJ. cbn [app fold_left] in HJ.
  destruct (GetAllItems_items c cn cn' io items Hall) as (rows' & Hq' & ->).
  rewrite Hq in Hq'. simplify_eq.
  rewrite (scanRows_answer (db w) (now c) rows' Hsel Hscan).
  rewrite lookup_fmap, liveRows_lookup, HJ. cbn [rExp rValue].
  rewrite decide_True by exact Hlive. simpl. rewrite Hv. reflexivity.
Qed.

Lemma X13_mirror_witness :
  let ok := mkTx true true true [] true in
  let cw := writerRun (Set_ (New 10 Float64.zero 5) 0 "1.2.3" "beijing_ct",
                       mkWriter ∅ [] false) [(WOp, ok); (WTick, ok)] in
  durable (cw.1, cw.2) !! "1.2.3" = Some (mkRow "beijing_ct" 15 15).
Proof.
  intros ok cw.
  refine (proj1 (X13_store_mirrors_the_cache 10 Float64.zero 5 ∅
            [PCache (OpSet 0 "1.2.3" "beijing_ct"); PWriter WOp ok; PWriter WTick ok]
            cw.1 cw.2 _ _) "1.2.3" (mkEntry "beijing_ct" 15 15) _).
  - vm_compute. repeat split; reflexivity.
  - vm_compute. reflexivity.
  - vm_compute. reflexivity.
Defined.

Lemma rowEntry_row (e : entry) : rowEntry (mkRow (value e) (exp e) (refreshAt e)) = e.
Proof. destruct e. reflexivity. Qed.

(** X12. A restart restores what was flushed. Let the cache and the
    writer run as long as DroppedCount never moves, nothing fails in the
    transactions of the flushes (neither Begin, a Prepare, Commit nor an
    Exec) and the store is not cleaned. Once the writer has caught up, load
    the table into a new cache (any TTL, ratio and clock) from an answer to
    the query of LoadFromSQLite: every binding the old cache held whose
    expiry is after the time of that query is in the new cache, with the
    same value, expiry and refresh time, provided no shard is sent more
    rows than its capacity. *)
Theorem X12_restart_restores_what_was_flushed
        (ttl0 : Z) (ratio : spec_float) (now0 : Z) (db0 : table)
        (ls : list plabel) (c : Cache) (w : Writer)
        (ttl1 : Z) (ratio1 : spec_float) (now1 t : Z)
        (rows : list (string * row)) (seeds : nat -> nat) :
  steady (New ttl0 ratio now0, mkWriter db0 [] false) ls ->
  prun (New ttl0 ratio now0, mkWriter db0 [] false) ls = Some (c, w) ->
  persistCh c = [] -> batch w = [] ->
  queryAnswer (db w) t rows ->
  (forall i, Z.of_nat (rowsInto i rows) <= defaultShardCapacity) ->
  forall k e,
    getShard c k !! k = Some e -> t < exp e ->
    getShard (LoadFromSQLite (New ttl1 ratio1 now1) rows seeds) k !! k = Some e.
Proof.
  intros Hst Hrun Hch Hb Hq Hcap k e Hk Hlive.
  pose proof (mirrored_from_New ttl0 ratio now0 db0 ls c w Hst Hrun k e Hk) as HJ.
  unfold durable in HJ. cbn [fst snd] in HJ.
  rewrite Hch, Hb in HJ. cbn [app fold_left] in HJ.
  destruct (load_spec ttl1 ratio1 now1 (db w) t rows seeds Hq Hcap) as (Hlook & _).
  rewrite Hlook, HJ. cbn [rExp]. rewrite decide_True by exact Hlive.
  rewrite rowEntry_row. reflexivity.
Qed.

Lemma X12_restart_witness :
  let ok := mkTx true true true [] true in
  let cw := writerRun (Set_ (New 10 Float64.zero 5) 0 "1.2.3" "beijing_ct",
                       mkWriter ∅ [] false) [(WOp, ok); (WTick, ok)] in
  getShard (LoadFromSQLite (New 1 Float64.zero 0) [("1.2.3", mkRow "beijing_ct" 15 15)]
                           (fun _ => 0%nat)) "1.2.3" !! "1.2.3"
  = Some (mkEntry "beijing_ct" 15 15).
Proof.
  intros ok cw.
  refine (X12_restart_restores_what_was_flushed 10 Float64.zero 5 ∅
            [PCache (OpSet 0 "1.2.3" "beijing_ct"); PWriter WOp ok; PWriter WTick ok]
            cw.1 cw.2 1 Float64.zero 0 7 [("1.2.3", mkRow "beijing_ct" 15 15)]
            (fun _ => 0%nat) _ _ _ _ _ _ "1.2.3" (mkEntry "beijing_ct" 15 15) _ _).
  - vm_compute. repeat split; reflexivity.
  - vm_compute. reflexivity.
  - vm_compute. reflexivity.
  - vm_compute. reflexivity.
  - unfold queryAnswer. vm_compute. reflexivity.
  - intros i. rewrite rowsInto_cons. unfold rowsInto, defaultShardCapacity.
    destruct (decide (shardIndex "1.2.3" = i)); simpl; lia.
  - vm_compute. reflexivity.
  - simpl. lia.
Defined.

Lemma cleaned_lookup (d : table) (t : Z) (k : string) :
  filter (fun kr : string * row => ~ rExp kr.2 < t) d !! k =
  match d !! k with
  | Some r => if decide (rExp r < t) then None else Some r
  | None => None
  end.
Proof.
  unfold table in *. rewrite map_lookup_filter.
  destruct (d !! k) as [r|]; simpl; [|reflexivity].
  destruct (decide (rExp r < t)) as [Hlt|Hge].
  - rewrite option_guard_False by (simpl; lia). reflexivity.
  - rewrite option_guard_True by (simpl; lia). reflexivity.
Qed.

(** X14. The cleaning of the store, which the writer runs every 30
    minutes with the wall clock t, removes the rows with exp < t and keeps
    a row whose expiry is exactly t; it leaves the batch alone, and when
    its DELETE fails nothing changes and nothing is reported. A query
    WHERE exp > t' on the cleaned table selects what it would select on
    the table before with the clock max(t', t - 1): nothing changes for a
    clock that is at t - 1 or later, as the time.Now() of a later
    LoadFromSQLite is. The cached clock GetAllItems reads can lag behind
    t: then the cleaning has removed the rows with t' < exp < t, which
    that query would still have selected; every row it removes had expired
    by the wall clock. *)
Theorem X14_cleanExpired_and_the_queries (w : Writer) (t : Z) :
  (forall k, db (cleanExpired w t true) !! k =
             match db w !! k with
             | Some r => if decide (rExp r < t) then None else Some r
             | None => None
             end)
  /\ (forall t', liveRows (db (cleanExpired w t true)) t'
                 = liveRows (db w) (Z.max t' (t - 1)))
  /\ (forall t', t - 1 <= t' ->
                 liveRows (db (cleanExpired w t true)) t' = liveRows (db w) t')
  /\ (forall t' k r,
        db w !! k = Some r -> t' < rExp r -> rExp r < t ->
        liveRows (db w) t' !! k = Some r
        /\ liveRows (db (cleanExpired w t true)) t' !! k = None)
  /\ (forall t' k r,
        liveRows (db w) t' !! k = Some r ->
        liveRows (db (cleanExpired w t true)) t' !! k = None -> rExp r < t)
  /\ (forall deleted, batch (cleanExpired w t deleted) = batch w
                      /\ exited (cleanExpired w t deleted) = exited w)
  /\ cleanExpired w t false = w
  /\ (forall c tx, (writerStep (c, w) (WCleanup t true) tx).1 = c
                   /\ (exited w = false ->
                       (writerStep (c, w) (WCleanup t true) tx).2 = cleanExpired w t true)).
Proof.
  assert (Hl : forall k, db (cleanExpired w t true) !! k =
                         match db w !! k with
                         | Some r => if decide (rExp r < t) then None else Some r
                         | None => None
                         end).
  { intros k. unfold cleanExpired. cbn [db]. apply cleaned_lookup. }
  assert (Hmax : forall t', liveRows (db (cleanExpired w t true)) t'
                            = liveRows (db w) (Z.max t' (t - 1))).
  { intros t'. apply map_eq. intros k. rewrite !liveRows_lookup, Hl.
    destruct (db w !! k) as [r|]; [|reflexivity].
    destruct (decide (rExp r < t)) as [Hlt|Hge].
    - rewrite decide_False by lia. reflexivity.
    - destruct (decide (t' < rExp r)) as [H1|H1].
      + rewrite decide_True by lia. reflexivity.
      + rewrite decide_False by lia. reflexivity. }
  split; [exact Hl|]. split; [exact Hmax|].
  split; [intros t' Hle; rewrite Hmax, Z.max_l by lia; reflexivity|].
  split.
  { intros t' k r Hk H1 H2. rewrite Hmax, !liveRows_lookup, Hk.
    rewrite decide_True by exact H1. rewrite decide_False by lia.
    split; reflexivity. }
  split.
  { intros t' k r. rewrite Hmax, !liveRows_lookup.
    destruct (db w !! k) as [r'|]; [|discriminate].
    destruct (decide (t' < rExp r')) as [H1|H1]; [|discriminate].
    intros H. simplify_eq.
    destruct (decide (Z.max t' (t - 1) < rExp r)) as [H2|H2]; [discriminate|].
    intros _. lia. }
  split; [intros [|]; split; reflexivity|]. split; [reflexivity|].
  intros c tx. unfold writerStep. destruct (exited w).
  - split; [reflexivity|discriminate].
  - split; reflexivity.
Qed.

(** ** The handler and the service *)

Lemma enqueue_shape (m : Manager) (key raw : string) :
  let r := enqueue m key raw in
  cache r.1.1 = cache m /\ concurrency r.1.1 = concurrency m
  /\ (queue r.1.1 = queue m \/ queue r.1.1 = queue m ++ [raw])
  /\ (length (queue m) <= QueueSize -> length (queue r.1.1) <= QueueSize)%nat.
Proof.
  destruct (decide (length (queue m) < QueueSize)%nat) as [Hroom|Hfull].
  - rewrite enqueue_room by exact Hroom. simpl.
    repeat split; [right; reflexivity|]. intros _. rewrite length_app. simpl. lia.
  - rewrite enqueue_full by exact Hfull. simpl.
    repeat split; [left; reflexivity|]. auto.
Qed.

(** X15. What the handler refuses, and what it never touches. The status
    is 400 exactly for an empty path, favicon.ico, a string net.ParseIP
    does not accept, or an address that is not IPv4; then the manager is
    left as it was and neither the inflight set nor the queue is called.
    Whatever the request, the handler does not write to the cache, and the
    queue is as before or one item longer, that item being the raw IP. *)
Theorem X15_HandleUpdate_refusals (m : Manager) (path : string) :
  let rawIP := Strings.TrimPrefix path "/" in
  let r := HandleUpdate m path in
  (status r.1.2 = StatusBadRequest <->
   rawIP = "" \/ rawIP = "favicon.ico" \/ Netip.ParseIP rawIP = None
   \/ exists ip, Netip.ParseIP rawIP = Some ip /\ Netip.To4 ip = None)
  /\ (status r.1.2 = StatusBadRequest -> r.1.1 = m /\ r.2 = [])
  /\ cache r.1.1 = cache m
  /\ concurrency r.1.1 = concurrency m
  /\ (queue r.1.1 = queue m \/ queue r.1.1 = queue m ++ [rawIP]).
Proof.
  intros rawIP r. unfold r, HandleUpdate. fold rawIP.
  destruct (seqb rawIP "" || seqb rawIP "favicon.ico") eqn:Htriv.
  { cbn [fst snd status]. split; [|repeat split; auto].
    split; [intros _|reflexivity].
    apply orb_true_iff in Htriv as [H|H]; apply bool_decide_eq_true in H; auto. }
  apply orb_false_iff in Htriv as [H1 H2].
  apply bool_decide_eq_false in H1. apply bool_decide_eq_false in H2.
  destruct (Netip.ParseIP rawIP) as [ip|] eqn:Hp.
  2:{ cbn [fst snd status]. split; [|repeat split; auto].
      split; [intros _; auto|reflexivity]. }
  destruct (Netip.To4 ip) as [ip4|] eqn:H4.
  2:{ cbn [fst snd status]. split; [|repeat split; auto].
      split; [intros _; right; right; right; exists ip; auto|reflexivity]. }
  assert (Hvalid : ~ (rawIP = "" \/ rawIP = "favicon.ico" \/ Some ip = None
                      \/ exists ip', Some ip = Some ip' /\ Netip.To4 ip' = None)).
  { intros [H|[H|[H|(ip' & H & H')]]]; try contradiction; try discriminate.
    simplify_eq. }
  destruct (Get (cache m) (getCacheKey rawIP)) as [[[tag found] needsRefresh] remaining].
  destruct (TryAdd (inflight m) (getCacheKey rawIP)) as [added s0] eqn:Hadd.
  pose proof (enqueue_shape (withInflight m s0) (getCacheKey rawIP) rawIP) as He.
  cbv zeta in He.
  destruct (enqueue (withInflight m s0) (getCacheKey rawIP) rawIP) as [[m' sent] evs].
  cbn [fst snd] in He. destruct He as (Hc & Hn & Hq & _). cbn [withInflight cache concurrency queue] in *.
  destruct found, needsRefresh, added, sent; cbn [negb fst snd status];
    (split; [split; [intros H; unfold StatusOK, StatusAccepted, StatusTooManyRequests,
                       StatusBadRequest in H; discriminate
                    |intros H; contradiction]|]);
    (split; [intros H; unfold StatusOK, StatusAccepted, StatusTooManyRequests,
               StatusBadRequest in H; discriminate|]);
    repeat split; auto.
Qed.

Lemma handlerEntry_shape (m : Manager) (path : string) :
  cache (handlerEntry m path).1.1 = cache m
  /\ queue (handlerEntry m path).1.1 = queue m
  /\ concurrency (handlerEntry m path).1.1 = concurrency m.
Proof.
  unfold handlerEntry.
  destruct (seqb _ "" || seqb _ "favicon.ico"); [repeat split; reflexivity|].
  destruct (Netip.ParseIP _) as [ip|]; [|repeat split; reflexivity].
  destruct (Netip.To4 ip) as [ip4|]; [|repeat split; reflexivity].
  destruct (Get (cache m) _) as [[[tag found] needsRefresh] remaining].
  destruct (found && negb needsRefresh); [repeat split; reflexivity|].
  destruct (TryAdd (inflight m) _) as [[|] s0]; repeat split; reflexivity.
Qed.

Lemma workerItem_shape (m : Manager) (rawIP : string) (res : fetchResult) (seed : nat) :
  queue (workerItem m rawIP res seed).1.1 = queue m
  /\ concurrency (workerItem m rawIP res seed).1.1 = concurrency m.
Proof.
  unfold workerItem.
  destruct (workerBody_frame m rawIP res seed) as (_ & Hq & Hn).
  destruct (workerBody m rawIP res seed) as [m' ex]. simpl in *. split; assumption.
Qed.

Lemma step_bounds (s : Sys) (l : label) :
  concurrency (mgr (step s l).1) = concurrency (mgr s)
  /\ ((length (queue (mgr s)) <= QueueSize)%nat ->
      (length (queue (mgr (step s l).1)) <= QueueSize)%nat)
  /\ ((length (busy s) <= concurrency (mgr s))%nat ->
      (length (busy (step s l).1) <= concurrency (mgr s))%nat).
Proof.
  unfold step. destruct (crashed s); [repeat split; auto|].
  destruct l as [path|n| |n res seed|op].
  - destruct (handlerEntry_shape (mgr s) path) as (_ & Hq & Hn).
    destruct (handlerEntry (mgr s) path) as [[m' p] evs]. simpl in *.
    rewrite Hq, Hn. repeat split; auto.
  - destruct (pending s !! n) as [raw|]; [|repeat split; auto].
    pose proof (enqueue_shape (mgr s) (getCacheKey raw) raw) as He. cbv zeta in He.
    destruct (enqueue (mgr s) (getCacheKey raw) raw) as [[m' sent] evs]. simpl in *.
    destruct He as (_ & Hn & _ & Hq). rewrite Hn. repeat split; auto.
  - destruct (length (busy s) <? concurrency (mgr s))%nat eqn:Hlt; [|repeat split; auto].
    apply Nat.ltb_lt in Hlt. unfold Chan.recv.
    destruct (queue (mgr s)) as [|raw q] eqn:Hq;
      [simpl; rewrite ?Hq; repeat split; auto|].
    simpl. repeat split.
    + intros H. simpl in H. lia.
    + intros _. rewrite length_app. simpl. lia.
  - destruct (busy s !! n) as [raw|] eqn:Hn; [|repeat split; auto].
    destruct (workerItem_shape (mgr s) raw res seed) as (Hq & Hc).
    destruct (workerItem (mgr s) raw res seed) as [[m' ex] evs]. simpl in *.
    rewrite Hq, Hc. repeat split; auto.
    intros H. rewrite length_delete by (rewrite Hn; eauto). lia.
  - destruct (applyOp (cache (mgr s)) op) as [c'|]; simpl; repeat split; auto.
Qed.

Lemma run_bounds (ls : list label) :
  forall s : Sys,
    (length (queue (mgr s)) <= QueueSize)%nat ->
    (length (busy s) <= concurrency (mgr s))%nat ->
    concurrency (mgr (run s ls).1) = concurrency (mgr s)
    /\ (length (queue (mgr (run s ls).1)) <= QueueSize)%nat
    /\ (length (busy (run s ls).1) <= concurrency (mgr s))%nat.
Proof.
  induction ls as [|l ls IH]; intros s Hq Hb; cbn [run].
  - repeat split; auto.
  - destruct (step_bounds s l) as (Hc1 & Hq1 & Hb1).
    destruct (step s l) as [s1 evs1]. cbn [fst] in *.
    destruct (IH s1 (Hq1 Hq) ltac:(rewrite Hc1; auto)) as (Hc2 & Hq2 & Hb2).
    destruct (run s1 ls) as [s2 evs2]. cbn [fst] in *.
    rewrite Hc2, Hc1. rewrite Hc1 in Hb2. repeat split; auto.
Qed.

(** ** Dotted decimal addresses *)

Import Dotted.

Lemma sbytes_app (s1 s2 : string) : sbytes (s1 +:+ s2) = sbytes s1 ++ sbytes s2.
Proof. induction s1 as [|a s1 IH]; simpl; [reflexivity|]. rewrite IH. reflexivity. Qed.

Lemma dots_app (s1 s2 : string) : dots (s1 +:+ s2) = (dots s1 + dots s2)%nat.
Proof. induction s1 as [|a s1 IH]; simpl; [reflexivity|]. rewrite IH. lia. Qed.

Lemma octets_ok : Forall octetOk (N.of_nat <$> seq 0 256).
Proof.
  repeat (apply Forall_cons; split;
          [split; [intros; reflexivity|split; [discriminate|split; reflexivity]]|]).
  constructor.
Qed.

Lemma octet_ok (a : N) : (a < 256)%N -> octetOk a.
Proof.
  intros Ha. pose proof octets_ok as H. rewrite Forall_forall in H. apply H.
  apply list_elem_of_fmap. exists (N.to_nat a). split; [lia|].
  apply elem_of_seq. lia.
Qed.

Lemma scan_digits (all ds rest : list Z) :
  forallb Netip.isDigit ds = true ->
  Netip.parseAddrScan all (ds ++ 0x2E :: rest) = Netip.parseIPv4 all.
Proof.
  induction ds as [|b ds IH]; intros Hd; [reflexivity|].
  cbn [forallb] in Hd. apply andb_true_iff in Hd as [Hb Hd].
  cbn [app Netip.parseAddrScan].
  unfold Netip.isDigit in Hb. apply andb_true_iff in Hb as [H1 H2].
  apply Z.leb_le in H1, H2.
  replace (b =? 46) with false by (symmetry; apply Z.eqb_neq; lia).
  replace (b =? 58) with false by (symmetry; apply Z.eqb_neq; lia).
  replace (b =? 37) with false by (symmetry; apply Z.eqb_neq; lia).
  apply IH. exact Hd.
Qed.

(** The step of parseIPv4Fields at a dot that ends a field and is
    followed by something. *)
Lemma field_dot (rest : list Z) (val : Z) (digLen : nat) (fields : list Z) :
  rest <> [] -> (length fields < 3)%nat ->
  Netip.parseIPv4Fields (0x2E :: rest) false false val digLen fields
  = Netip.parseIPv4Fields rest false true 0 0%nat (fields ++ [val]).
Proof.
  intros Hne Hlen. cbn [Netip.parseIPv4Fields]. 
  change (Netip.isDigit 46) with false. cbn [orb].
  destruct rest as [|b rest]; [contradiction|].
  replace (length fields =? 3)%nat with false by (symmetry; apply Nat.eqb_neq; lia).
  reflexivity.
Qed.

Lemma parse_dotted (a b c d : N) :
  (a < 256)%N -> (b < 256)%N -> (c < 256)%N -> (d < 256)%N ->
  Netip.ParseIP (dotted a b c d)
  = Some (Netip.v4InV6Prefix ++ [Z.of_N a; Z.of_N b; Z.of_N c; Z.of_N d]).
Proof.
  intros Ha Hb Hc Hd.
  destruct (octet_ok a Ha) as (Pa & Na & Da & _).
  destruct (octet_ok b Hb) as (Pb & Nb & Db & _).
  destruct (octet_ok c Hc) as (Pc & Nc & Dc & _).
  destruct (octet_ok d Hd) as (Pd & Nd & Dd & _).
  unfold Netip.ParseIP, dotted. rewrite !sbytes_app.
  change (sbytes ".") with [0x2E]. cbn [app].
  set (A := sbytes (pretty a)) in *. set (B := sbytes (pretty b)) in *.
  set (C := sbytes (pretty c)) in *. set (D := sbytes (pretty d)) in *.
  rewrite scan_digits by exact Da.
  unfold Netip.parseIPv4.
  assert (HB : B ++ 46 :: C ++ 46 :: D <> []) by (destruct B; [contradiction|discriminate]).
  assert (HC : C ++ 46 :: D <> []) by (destruct C; [contradiction|discriminate]).
  rewrite Pa, field_dot by (simpl; first [exact HB|lia]).
  rewrite Pb, field_dot by (simpl; first [exact HC|lia]).
  rewrite Pc, field_dot by (simpl; first [exact Nd|lia]).
  rewrite <- (app_nil_r D). rewrite Pd. reflexivity.
Qed.

Lemma getCacheKey_prefix (p rest : string) :
  dots p = 2%nat -> getCacheKey (p +:+ "." +:+ rest) = p.
Proof.
  intros Hp. unfold getCacheKey.
  assert (H : forall q i d, (d + dots q = 2)%nat ->
              thirdDot (q +:+ "." +:+ rest) i d = Some (i + String.length q)%nat).
  { induction q as [|x q IH]; intros i d Hd; simpl in Hd.
    - change ("" +:+ "." +:+ rest) with (String "."%char rest). cbn [thirdDot]. change (Ascii.eqb "." ".")%char with true. cbv iota.
      replace (S d =? 3)%nat with true by (symmetry; apply Nat.eqb_eq; lia).
      f_equal. simpl. lia.
    - change (String x q +:+ "." +:+ rest) with (String x (q +:+ "." +:+ rest)).
      cbn [thirdDot]. destruct (Ascii.eqb x "."%char).
      + replace (S d =? 3)%nat with false by (symmetry; apply Nat.eqb_neq; lia).
        rewrite IH by lia. f_equal. simpl. lia.
      + rewrite IH by lia. f_equal. simpl. lia. }
  rewrite (H p 0%nat 0%nat) by lia. simpl.
  clear. induction p as [|x p IH]; [reflexivity|].
  change (String x p +:+ "." +:+ rest) with (String x (p +:+ "." +:+ rest)).
  simpl. rewrite IH. reflexivity.
Qed.

Lemma split_at_dot (s1 s2 r1 r2 : string) :
  dots s1 = 0%nat -> dots s2 = 0%nat ->
  s1 +:+ "." +:+ r1 = s2 +:+ "." +:+ r2 -> s1 = s2 /\ r1 = r2.
Proof.
  revert s2. induction s1 as [|x s1 IH]; intros s2 H1 H2 H.
  - destruct s2 as [|y s2]; [simpl in H; simplify_eq; auto|].
    exfalso. simpl in H. injection H as Hy _. subst y.
    simpl in H2. discriminate.
  - destruct s2 as [|y s2].
    + exfalso. simpl in H. injection H as Hx _. subst x. simpl in H1. discriminate.
    + change (String x (s1 +:+ "." +:+ r1) = String y (s2 +:+ "." +:+ r2)) in H.
      injection H as -> H. simpl in H1, H2.
      destruct (Ascii.eqb y "."%char); [discriminate|].
      destruct (IH s2 H1 H2 H) as [-> ->]. auto.
Qed.

Lemma prefix24_inj (a b c a' b' c' : N) :
  (a < 256)%N -> (b < 256)%N -> (c < 256)%N ->
  (a' < 256)%N -> (b' < 256)%N -> (c' < 256)%N ->
  prefix24 a b c = prefix24 a' b' c' -> a = a' /\ b = b' /\ c = c'.
Proof.
  intros Ha Hb Hc Ha' Hb' Hc' H. unfold prefix24 in H.
  destruct (octet_ok a Ha) as (_ & _ & _ & Za). destruct (octet_ok a' Ha') as (_ & _ & _ & Za').
  destruct (octet_ok b Hb) as (_ & _ & _ & Zb). destruct (octet_ok b' Hb') as (_ & _ & _ & Zb').
  apply split_at_dot in H as [H1 H]; [|assumption..].
  apply split_at_dot in H as [H2 H3]; [|assumption..].
  apply (inj pretty) in H1, H2, H3. auto.
Qed.

Lemma sapp_assoc (s1 s2 s3 : string) : (s1 +:+ s2) +:+ s3 = s1 +:+ s2 +:+ s3.
Proof.
  induction s1 as [|a s1 IH]; [reflexivity|].
  change (String a ((s1 +:+ s2) +:+ s3) = String a (s1 +:+ s2 +:+ s3)).
  rewrite IH. reflexivity.
Qed.

Lemma TrimPrefix_slash (s : string) : Strings.TrimPrefix ("/" +:+ s) "/" = s.
Proof. reflexivity. Qed.

Lemma HandleUpdate_valid_status (m : Manager) (path : string) (ip ip4 : list Z) :
  Netip.ParseIP (Strings.TrimPrefix path "/") = Some ip -> Netip.To4 ip = Some ip4 ->
  status (HandleUpdate m path).1.2 <> StatusBadRequest.
Proof.
  intros Hp H4. rewrite (HandleUpdate_valid m path ip ip4 Hp H4). cbv zeta.
  destruct (Get (cache m) _) as [[[tag found] needsRefresh] remaining].
  destruct (TryAdd (inflight m) _) as [added s0].
  destruct (enqueue (withInflight m s0) _ _) as [[m' sent] evs].
  destruct found, needsRefresh, added, sent; cbn [negb fst snd status]; discriminate.
Qed.

(** X17. Every IPv4 address in dotted decimal is accepted, and its cache
    key is its /24: for octets a, b, c, d below 256, net.ParseIP reads
    a.b.c.d as that address, To4 gives the four octets, the handler does
    not answer 400, and getCacheKey gives a.b.c. Two such addresses have
    the same key exactly when their first three octets agree, so the
    lookups and cache entries are shared by /24 and by nothing wider. *)
Theorem X17_dotted_addresses_are_keyed_by_24 (a b c d : N) :
  (a < 256)%N -> (b < 256)%N -> (c < 256)%N -> (d < 256)%N ->
  let ip := Netip.v4InV6Prefix ++ [Z.of_N a; Z.of_N b; Z.of_N c; Z.of_N d] in
  Netip.ParseIP (dotted a b c d) = Some ip
  /\ Netip.To4 ip = Some [Z.of_N a; Z.of_N b; Z.of_N c; Z.of_N d]
  /\ getCacheKey (dotted a b c d) = prefix24 a b c
  /\ (forall m, status (HandleUpdate m ("/" +:+ dotted a b c d)).1.2 <> StatusBadRequest)
  /\ (forall a' b' c' d',
        (a' < 256)%N -> (b' < 256)%N -> (c' < 256)%N -> (d' < 256)%N ->
        getCacheKey (dotted a b c d) = getCacheKey (dotted a' b' c' d')
        <-> a = a' /\ b = b' /\ c = c').
Proof.
  intros Ha Hb Hc Hd ip.
  assert (Hkey : forall a b c d, (a < 256)%N -> (b < 256)%N -> (c < 256)%N ->
                   getCacheKey (dotted a b c d) = prefix24 a b c).
  { clear. intros a b c d Ha Hb Hc. unfold dotted, prefix24.
    destruct (octet_ok a Ha) as (_ & _ & _ & Za).
    destruct (octet_ok b Hb) as (_ & _ & _ & Zb).
    destruct (octet_ok c Hc) as (_ & _ & _ & Zc).
    replace (pretty a +:+ "." +:+ pretty b +:+ "." +:+ pretty c +:+ "." +:+ pretty d)
      with ((pretty a +:+ "." +:+ pretty b +:+ "." +:+ pretty c) +:+ "." +:+ pretty d).
    - apply getCacheKey_prefix. rewrite !dots_app, Za, Zb, Zc. reflexivity.
    - rewrite !sapp_assoc. reflexivity. }
  split; [apply parse_dotted; assumption|]. split; [reflexivity|].
  split; [apply Hkey; assumption|]. split.
  - intros m. apply (HandleUpdate_valid_status m _ ip [Z.of_N a; Z.of_N b; Z.of_N c; Z.of_N d]);
      [|reflexivity].
    rewrite TrimPrefix_slash. apply parse_dotted; assumption.
  - intros a' b' c' d' Ha' Hb' Hc' Hd'. rewrite !Hkey by assumption. split.
    + apply prefix24_inj; assumption.
    + intros (-> & -> & ->). reflexivity.
Qed.

Lemma X17_dotted_witness :
  getCacheKey (dotted 203 0 113 17) = prefix24 203 0 113.
Proof.
  refine (proj1 (proj2 (proj2 (X17_dotted_addresses_are_keyed_by_24 203 0 113 17 _ _ _ _))));
    reflexivity.
Defined.

(** ** From a miss to a hit *)

Import WorkerLoop.

Lemma gset_add_remove (s : gset string) (k : string) :
  k ∉ s -> ({[k]} ∪ s) ∖ {[k]} = s.
Proof.
  intros Hk. apply set_eq. intros x.
  rewrite elem_of_difference, elem_of_union, elem_of_singleton. split.
  - intros [[->|H] Hne]; [contradiction|exact H].
  - intros H. split; [right; exact H|]. intros ->. contradiction.
Qed.

(** X18. From a miss to a hit. On a manager whose queue is empty and that
    has a worker, a request for a valid IPv4 address whose /24 is neither
    cached nor in flight is answered 202 and queued; once a worker has
    received it and its fetch has succeeded, every request for an address
    with the same cache key is answered 200 with the tag of the fetched
    information, without touching the queue or the inflight set, and the
    key is in flight no more. (The TTL is positive with the refresh window
    within it, and now + ttl fits int64.) *)
Theorem X18_miss_then_fetch_then_hit
        (m : Manager) (path path2 : string) (ip ip4 ip' ip4' : list Z)
        (info : Model.IPInfo) (seed : nat) :
  let rawIP := Strings.TrimPrefix path "/" in
  let rawIP2 := Strings.TrimPrefix path2 "/" in
  let key := getCacheKey rawIP in
  Netip.ParseIP rawIP = Some ip -> Netip.To4 ip = Some ip4 ->
  Netip.ParseIP rawIP2 = Some ip' -> Netip.To4 ip' = Some ip4' ->
  getCacheKey rawIP2 = key ->
  wf (cache m) -> isInt64 (now (cache m)) -> isInt64 (ttl (cache m)) ->
  isInt64 (now (cache m) + ttl (cache m)) ->
  0 <= refreshWindow (cache m) < ttl (cache m) ->
  (Get (cache m) key).1.1.2 = false ->
  key ∉ inflight m -> queue m = [] -> (0 < concurrency m)%nat ->
  let r1 := HandleUpdate m path in
  let s2 := (run (mkSys r1.1.1 [] [] false) [LReceive; LWork 0 (FetchOk info) seed]).1 in
  r1.1.2 = mkResp StatusAccepted ""
  /\ queue r1.1.1 = [rawIP]
  /\ HandleUpdate (mgr s2) path2
     = (mgr s2, mkResp StatusOK (Model.ToTag (Model.Standardize info)), [])
  /\ inflight (mgr s2) = inflight m
  /\ queue (mgr s2) = [] /\ busy s2 = [] /\ crashed s2 = false.
Proof.
  intros rawIP rawIP2 key Hp H4 Hp2 H42 Hkey Hwf Hnow Httl Hexp Hwin Hmiss Hout Hq Hconc r1 s2.
  assert (Hr1 : r1 = (mkManager (cache m) [rawIP] ({[key]} ∪ inflight m) (concurrency m),
                      mkResp StatusAccepted "", [TryAddOk key; Sent rawIP])).
  { unfold r1. rewrite (HandleUpdate_valid m path ip ip4 Hp H4). cbv zeta.
    fold rawIP. fold key.
    destruct (Get (cache m) key) as [[[tag found] needsRefresh] remaining].
    cbn [fst snd] in Hmiss. subst found.
    rewrite TryAdd_absent by exact Hout. cbn [negb].
    rewrite enqueue_room by (cbn [withInflight queue]; rewrite Hq; unfold QueueSize; simpl; lia).
    cbn [withInflight withQueue cache queue inflight concurrency]. rewrite Hq. reflexivity. }
  set (m1 := mkManager (cache m) [rawIP] ({[key]} ∪ inflight m) (concurrency m)) in *.
  set (m2 := mkManager (cache m) [] ({[key]} ∪ inflight m) (concurrency m)).
  set (m3 := mkManager (Set_ (cache m) seed key (Model.ToTag (Model.Standardize info)))
                       [] (inflight m) (concurrency m)).
  assert (Hst1 : step (mkSys m1 [] [] false) LReceive = (mkSys m2 [] [rawIP] false, [])).
  { unfold step. cbn [crashed busy mgr m1 concurrency length].
    replace (0 <? concurrency m)%nat with true by (symmetry; apply Nat.ltb_lt; exact Hconc).
    reflexivity. }
  assert (Hst2 : step (mkSys m2 [] [rawIP] false) (LWork 0 (FetchOk info) seed)
                 = (mkSys m3 [] [] false, [Deleted key])).
  { unfold step. cbn [crashed busy mgr]. change ([rawIP] !! 0%nat) with (Some rawIP).
    unfold workerItem, workerBody. fold key. cbn [m2 cache].
    destruct (Get (cache m) key) as [[[tag found] needsRefresh] remaining].
    cbn [fst snd] in Hmiss. subst found. cbn [andb].
    cbn [withCache withInflight cache queue inflight concurrency fst snd pending].
    unfold Worker.Delete, m3, m2. cbn [withCache withInflight cache queue inflight concurrency].
    rewrite gset_add_remove by exact Hout. reflexivity. }
  assert (Hs2 : s2 = mkSys m3 [] [] false).
  { unfold s2. rewrite Hr1. cbn [fst run]. rewrite Hst1, Hst2. reflexivity. }
  rewrite Hr1. cbn [fst snd queue].
  split; [reflexivity|]. split; [reflexivity|].
  rewrite Hs2. cbn [mgr busy crashed]. unfold m3 at 3 4. cbn [queue inflight].
  split; [|repeat split; reflexivity].
  rewrite (HandleUpdate_valid _ path2 ip' ip4' Hp2 H42). cbv zeta.
  fold rawIP2. rewrite Hkey. cbn [m3 cache].
  pose proof (Set_then_Get (cache m) seed key (Model.ToTag (Model.Standardize info)) Hwf) as Hg.
  cbv zeta in Hg.
  unfold isInt64, minInt64, maxInt64 in *.
  rewrite (add64_exact (now (cache m)) (ttl (cache m))) in Hg
    by (unfold isInt64, minInt64, maxInt64; lia).
  rewrite (sub64_exact (now (cache m) + ttl (cache m)) (refreshWindow (cache m))) in Hg
    by (unfold isInt64, minInt64, maxInt64; lia).
  replace (now (cache m) + ttl (cache m) <=? now (cache m)) with false in Hg
    by (symmetry; apply Z.leb_gt; lia).
  replace (now (cache m) + ttl (cache m) - refreshWindow (cache m) <=? now (cache m))
    with false in Hg by (symmetry; apply Z.leb_gt; lia).
  rewrite andb_false_r in Hg. rewrite Hg. reflexivity.
Qed.

Lemma X18_miss_then_hit_witness :
  (HandleUpdate (NewManager 3600 0 8 0) "/203.0.113.17").1.2 = mkResp StatusAccepted "".
Proof.
  refine (proj1 (X18_miss_then_fetch_then_hit
                   (NewManager 3600 0 8 0) "/203.0.113.17" "/203.0.113.99"
                   (Netip.v4InV6Prefix ++ [203; 0; 113; 17]) [203; 0; 113; 17]
                   (Netip.v4InV6Prefix ++ [203; 0; 113; 99]) [203; 0; 113; 99]
                   (Model.newIPInfo "广东省" "中国电信") 0 _ _ _ _ _ _ _ _ _ _ _ _ _ _)).
  - vm_compute. reflexivity.
  - vm_compute. reflexivity.
  - vm_compute. reflexivity.
  - vm_compute. reflexivity.
  - vm_compute. reflexivity.
  - split; vm_compute; [reflexivity|reflexivity].
  - vm_compute. split; discriminate.
  - vm_compute. split; discriminate.
  - vm_compute. split; discriminate.
  - vm_compute. split; [discriminate|reflexivity].
  - vm_compute. reflexivity.
  - apply not_elem_of_empty.
  - reflexivity.
  - simpl. lia.
Defined.

(** ** A worker alone on the queue *)

Lemma workerItem_no_panic (m : Manager) (rawIP : string) (res : fetchResult) (seed : nat) :
  panics (res, seed) = false -> (workerItem m rawIP res seed).1.2 = Returned.
Proof.
  intros Hp. unfold workerItem, workerBody.
  destruct (Get (cache m) (getCacheKey rawIP)) as [[[tag found] needsRefresh] remaining].
  destruct (found && negb needsRefresh); [reflexivity|].
  destruct res; [reflexivity|reflexivity|discriminate].
Qed.

Lemma workerLoop_drains (outcomes : list (fetchResult * nat)) :
  forall s : Sys,
    crashed s = false -> busy s = [] -> (0 < concurrency (mgr s))%nat ->
    length outcomes = length (queue (mgr s)) ->
    forallb (fun o => negb (panics o)) outcomes = true ->
    let r := run s (workerLoop outcomes) in
    queue (mgr r.1) = [] /\ busy r.1 = [] /\ crashed r.1 = false
    /\ pending r.1 = pending s
    /\ concurrency (mgr r.1) = concurrency (mgr s)
    /\ r.2 = (fun raw => Deleted (getCacheKey raw)) <$> queue (mgr s)
    /\ inflight (mgr r.1)
       = inflight (mgr s) ∖ list_to_set (getCacheKey <$> queue (mgr s)).
Proof.
  induction outcomes as [|[res seed] outcomes IH]; intros s Hcr Hb Hc Hlen Hnp.
  - destruct (queue (mgr s)) as [|raw q] eqn:Hq; [|discriminate].
    cbn [workerLoop run fst snd]. rewrite Hq.
    repeat split; auto.
    cbn [fmap list_fmap list_to_set]. apply set_eq. intros x.
    rewrite elem_of_difference. split; [intros H; split; [exact H|]|intros [H _]; exact H].
    apply not_elem_of_empty.
  - destruct (queue (mgr s)) as [|raw q] eqn:Hq; [discriminate|].
    cbn [forallb] in Hnp. apply andb_true_iff in Hnp as [Hp Hnp].
    apply negb_true_iff in Hp.
    cbn [workerLoop run].
    assert (Hst1 : step s LReceive
                   = (mkSys (withQueue (mgr s) q) (pending s) [raw] false, [])).
    { unfold step. rewrite Hcr, Hb. cbn [length].
      replace (0 <? concurrency (mgr s))%nat with true
        by (symmetry; apply Nat.ltb_lt; exact Hc).
      rewrite Hq. reflexivity. }
    rewrite Hst1.
    set (m1 := withQueue (mgr s) q).
    destruct (workerItem_releases m1 raw res seed) as (He & Hi & Hqq).
    destruct (workerItem_shape m1 raw res seed) as (_ & Hcc).
    pose proof (workerItem_no_panic m1 raw res seed Hp) as Hex.
    assert (Hst2 : exists m2,
               step (mkSys m1 (pending s) [raw] false) (LWork 0 res seed)
               = (mkSys m2 (pending s) [] false, [Deleted (getCacheKey raw)])
               /\ queue m2 = q /\ concurrency m2 = concurrency (mgr s)
               /\ inflight m2 = inflight (mgr s) ∖ {[getCacheKey raw]}).
    { unfold step. cbn [crashed busy mgr pending].
      change ([raw] !! 0%nat) with (Some raw). cbv beta iota.
      destruct (workerItem m1 raw res seed) as [[m2 ex] evs].
      cbn [fst snd] in *. subst ex evs. exists m2.
      split; [reflexivity|]. split; [exact Hqq|]. split; [exact Hcc|exact Hi]. }
    destruct Hst2 as (m2 & Hst2 & Hq2 & Hc2 & Hi2). rewrite Hst2.
    specialize (IH (mkSys m2 (pending s) [] false) eq_refl eq_refl).
    cbn [mgr pending] in IH. rewrite Hq2, Hc2, Hi2 in IH.
    specialize (IH Hc ltac:(simpl in Hlen; lia) Hnp). cbv zeta in IH.
    destruct (run (mkSys m2 (pending s) [] false) (workerLoop outcomes)) as [s3 evs3].
    cbn [fst snd] in *.
    destruct IH as (H1 & H2 & H3 & H4 & H5 & H6 & H7).
    repeat split; try assumption.
    + rewrite H6. reflexivity.
    + rewrite H7. cbn [fmap list_fmap list_to_set]. apply set_eq. intros x.
      rewrite !elem_of_difference, elem_of_union, elem_of_singleton. tauto.
Qed.

(** X19. A worker alone on the queue drains it. From a state where no
    worker holds an item, one worker whose fetches do not panic receives
    the queued items in order and, for each, runs the closure and releases
    the key: when it has been through the queue, the queue is empty, no
    item is at a worker, the Deletes are those of the queued items in
    order, and the keys of these items are in flight no more, whatever the
    fetches returned. *)
Theorem X19_a_worker_drains_the_queue (s : Sys) (outcomes : list (fetchResult * nat)) :
  crashed s = false -> busy s = [] -> (0 < concurrency (mgr s))%nat ->
  length outcomes = length (queue (mgr s)) ->
  forallb (fun o => negb (panics o)) outcomes = true ->
  let r := run s (workerLoop outcomes) in
  queue (mgr r.1) = [] /\ busy r.1 = [] /\ crashed r.1 = false
  /\ pending r.1 = pending s
  /\ r.2 = (fun raw => Deleted (getCacheKey raw)) <$> queue (mgr s)
  /\ inflight (mgr r.1) = inflight (mgr s) ∖ list_to_set (getCacheKey <$> queue (mgr s))
  /\ (forall k, k ∈ getCacheKey <$> queue (mgr s) -> k ∉ inflight (mgr r.1)).
Proof.
  intros Hcr Hb Hc Hlen Hnp r.
  destruct (workerLoop_drains outcomes s Hcr Hb Hc Hlen Hnp) as (H1 & H2 & H3 & H4 & _ & H6 & H7).
  fold r in H1, H2, H3, H4, H6, H7.
  repeat split; try assumption.
  intros k Hk. rewrite H7, elem_of_difference, elem_of_list_to_set. tauto.
Qed.

Lemma X19_drain_witness :
  let m := mkManager (New 10 Float64.zero 0) ["1.2.3.4"; "5.6.7.8"]
                     {["1.2.3"; "5.6.7"]} 1 in
  queue (mgr (run (mkSys m [] [] false)
                  (workerLoop [(FetchErr, 0%nat);
                               (FetchOk (Model.newIPInfo "广东" "电信"), 0%nat)])).1) = [].
Proof.
  intros m.
  refine (proj1 (X19_a_worker_drains_the_queue (mkSys m [] [] false)
                   [(FetchErr, 0%nat); (FetchOk (Model.newIPInfo "广东" "电信"), 0%nat)]
                   _ _ _ _ _)).
  - reflexivity.
  - reflexivity.
  - simpl. lia.
  - reflexivity.
  - reflexivity.
Defined.

(** ** One lookup per cache key *)

Lemma getCacheKey_dotted (a b c d : N) :
  (a < 256)%N -> (b < 256)%N -> (c < 256)%N ->
  getCacheKey (dotted a b c d) = prefix24 a b c.
Proof.
  intros Ha Hb Hc. unfold dotted, prefix24.
  destruct (octet_ok a Ha) as (_ & _ & _ & Za).
  destruct (octet_ok b Hb) as (_ & _ & _ & Zb).
  destruct (octet_ok c Hc) as (_ & _ & _ & Zc).
  replace (pretty a +:+ "." +:+ pretty b +:+ "." +:+ pretty c +:+ "." +:+ pretty d)
    with ((pretty a +:+ "." +:+ pretty b +:+ "." +:+ pretty c) +:+ "." +:+ pretty d).
  - apply getCacheKey_prefix. rewrite !dots_app, Za, Zb, Zc. reflexivity.
  - rewrite !sapp_assoc. reflexivity.
Qed.

(** X16. In every state the service reaches from its start, whatever the
    requests and the interleaving: no two of the items held (by a handler
    about to send, in the queue, or at a worker) have the same cache key,
    the text of the raw address up to its third dot. So among the
    addresses written in dotted decimal at most one per /24 is held. The
    key is textual: an IPv4-mapped spelling such as ::ffff:1.2.3.4 has a
    key of its own and is not covered by the entry of 1.2.3.4. The queue
    holds at most QueueSize items, and at most [concurrency] items are at
    the workers (none at all when the configured concurrency is 0). *)
Theorem X16_one_lookup_per_key_within_bounds (m : Manager) (ls : list label) :
  let s := (run (started m) ls).1 in
  NoDup (getCacheKey <$> holders s)
  /\ (forall i j x y,
        holders s !! i = Some x -> holders s !! j = Some y ->
        getCacheKey x = getCacheKey y -> i = j)
  /\ (forall i j a b c d d',
        (a < 256)%N -> (b < 256)%N -> (c < 256)%N ->
        holders s !! i = Some (dotted a b c d) ->
        holders s !! j = Some (dotted a b c d') -> i = j)
  /\ getCacheKey "::ffff:1.2.3.4" <> getCacheKey "1.2.3.4"
  /\ (length (queue (mgr s)) <= QueueSize)%nat
  /\ (length (busy s) <= concurrency m)%nat
  /\ concurrency (mgr s) = concurrency m.
Proof.
  intros s.
  assert (Hstart : balanced (inflight (mgr (started m))) (holders (started m))).
  { split; simpl; [constructor|]. intros k'. split; intros H.
    - apply elem_of_empty in H. contradiction.
    - inversion H. }
  destruct (run_paired ls (started m) "" Hstart) as [[Hnd _] _].
  destruct (run_bounds ls (started m)) as (Hc & Hq & Hb); [simpl; lia|simpl; lia|].
  fold s in Hnd, Hc, Hq, Hb. simpl in Hc, Hb.
  assert (Hpos : forall i j x y,
             holders s !! i = Some x -> holders s !! j = Some y ->
             getCacheKey x = getCacheKey y -> i = j).
  { intros i j x y Hi Hj Hxy.
    apply (proj1 (NoDup_alt _) Hnd i j (getCacheKey x)).
    - rewrite list_lookup_fmap, Hi. reflexivity.
    - rewrite list_lookup_fmap, Hj, Hxy. reflexivity. }
  split; [exact Hnd|]. split; [exact Hpos|]. split.
  { intros i j a b c d d' Ha Hb' Hc' Hi Hj. apply (Hpos i j _ _ Hi Hj).
    rewrite !getCacheKey_dotted by assumption. reflexivity. }
  split; [vm_compute; discriminate|].
  repeat split; assumption.
Qed.

(** ** The monitor *)

Section MonitorFacts.

Import Monitor.

Lemma failuresAtEnd_snoc (os : list outcome) (o : outcome) :
  failuresAtEnd (os ++ [o]) = if isFailure o then S (failuresAtEnd os) else 0%nat.
Proof.
  induction os as [|o' os IH]; cbn [app failuresAtEnd].
  - cbn [forallb length]. destruct (isFailure o); reflexivity.
  - rewrite forallb_app. cbn [forallb]. rewrite andb_true_r, IH, length_app.
    cbn [length]. destruct (isFailure o); cbn [andb];
      [|rewrite andb_false_r; reflexivity].
    rewrite andb_true_r. destruct (forallb isFailure os); [|reflexivity].
    destruct (isFailure o'); [f_equal; lia|reflexivity].
Qed.

Lemma failuresAtEnd_le (os : list outcome) : (failuresAtEnd os <= length os)%nat.
Proof.
  induction os as [|o os IH]; cbn [failuresAtEnd length]; [lia|].
  destruct (forallb isFailure os); [destruct (isFailure o)|]; lia.
Qed.

(** [failuresAtEnd] is the length of the longest run of failures that
    ends the list. *)
Lemma failuresAtEnd_spec (os : list outcome) :
  forall n : nat,
    (n <= failuresAtEnd os)%nat <->
    exists pre suf, os = pre ++ suf /\ length suf = n /\ forallb isFailure suf = true.
Proof.
  induction os as [|o os IH] using rev_ind; intros n.
  - cbn [failuresAtEnd]. split.
    + intros Hn. exists [], []. split; [reflexivity|split; [simpl; lia|reflexivity]].
    + intros (pre & suf & Heq & Hlen & _).
      symmetry in Heq. apply app_eq_nil in Heq as [_ ->]. simpl in Hlen. lia.
  - rewrite failuresAtEnd_snoc. split.
    + intros Hn. destruct n as [|n'].
      * exists (os ++ [o]), []. rewrite app_nil_r.
        split; [reflexivity|split; reflexivity].
      * destruct (isFailure o) eqn:Ho; [|lia].
        destruct (proj1 (IH n') ltac:(lia)) as (pre & suf & -> & Hlen & Hall).
        exists pre, (suf ++ [o]). rewrite <- app_assoc. split; [reflexivity|].
        rewrite length_app, forallb_app. cbn [length forallb].
        rewrite Hall, Ho. split; [lia|reflexivity].
    + intros (pre & suf & Heq & Hlen & Hall).
      destruct suf as [|x suf0] using rev_ind; [simpl in Hlen; lia|]. clear IHsuf0.
      rewrite app_assoc in Heq. apply app_inj_tail in Heq as [-> ->].
      rewrite forallb_app in Hall. cbn [forallb] in Hall.
      apply andb_true_iff in Hall as [Hall Hx]. rewrite andb_true_r in Hx.
      rewrite Hx. rewrite length_app in Hlen. cbn [length] in Hlen.
      assert (Hle : (length suf0 <= failuresAtEnd (pre ++ suf0))%nat).
      { apply IH. exists pre, suf0. split; [reflexivity|split; [reflexivity|exact Hall]]. }
      lia.
Qed.

(** The counters after a run of outcomes, as long as they do not wrap. *)
Lemma record_counters (t : Z) (os : list outcome) :
  Z.of_nat (length os) <= maxInt64 ->
  let m := fold_left record os (New t) in
  TotalRequests m = Z.of_nat (length os)
  /\ SuccessCount m = Z.of_nat (length (filter (fun o => isFailure o = false) os))
  /\ FailCount m = Z.of_nat (length (filter (fun o => isFailure o = true) os))
  /\ ConsecutiveErr m = Z.of_nat (failuresAtEnd os)
  /\ StartTime m = t /\ RemainingRequestNum m = -1 /\ CacheItemCount m = 0.
Proof.
  induction os as [|o os IH] using rev_ind; intros Hlen m.
  - repeat split; reflexivity.
  - rewrite length_app in Hlen. cbn [length] in Hlen.
    destruct (IH ltac:(lia)) as (H1 & H2 & H3 & H4 & H5 & H6 & H7).
    unfold m. rewrite fold_left_app. cbn [fold_left].
    set (m0 := fold_left record os (New t)) in *.
    rewrite !filter_app, !length_app, failuresAtEnd_snoc.
    pose proof (failuresAtEnd_le os) as Hle.
    assert (Hs : (length (filter (fun o => isFailure o = false) os) <= length os)%nat)
      by apply length_filter.
    assert (Hf : (length (filter (fun o => isFailure o = true) os) <= length os)%nat)
      by apply length_filter.
    destruct o as [|ip msg t']; cbn [record RecordSuccess RecordFailure isFailure
      TotalRequests SuccessCount FailCount ConsecutiveErr StartTime RemainingRequestNum
      CacheItemCount].
    + rewrite filter_cons_True by reflexivity.
      rewrite filter_cons_False by discriminate. rewrite !filter_nil. cbn [length].
      rewrite H1, H2, H3.
      rewrite !add64_exact by (unfold isInt64, minInt64, maxInt64 in *; lia).
      repeat split; try assumption; lia.
    + rewrite filter_cons_False by discriminate.
      rewrite filter_cons_True by reflexivity. rewrite !filter_nil. cbn [length].
      rewrite H1, H3, H4.
      rewrite !add64_exact by (unfold isInt64, minInt64, maxInt64 in *; lia).
      repeat split; try assumption; lia.
Qed.

(** X20. The counters of the monitor. After any run of recorded outcomes
    (fewer than 2^63 of them), TotalRequests is their number and equals
    SuccessCount + FailCount, which count the successes and the failures,
    and ConsecutiveErr is the number of failures since the last success.
    The error text, the IP and the time shown are those of the last
    failure; a success does not erase them. *)
Theorem X20_monitor_counters (t : Z) (os : list outcome) :
  Z.of_nat (length os) <= maxInt64 ->
  let m := fold_left record os (New t) in
  TotalRequests m = Z.of_nat (length os)
  /\ TotalRequests m = SuccessCount m + FailCount m
  /\ SuccessCount m = Z.of_nat (length (filter (fun o => isFailure o = false) os))
  /\ FailCount m = Z.of_nat (length (filter (fun o => isFailure o = true) os))
  /\ ConsecutiveErr m = Z.of_nat (failuresAtEnd os)
  /\ (forall os1 os2 ip msg t',
        os = os1 ++ Failed ip msg t' :: os2 -> forallb (fun o => negb (isFailure o)) os2 = true ->
        LastError m = msg /\ LastFailIP m = ip /\ LastErrorTime m = Some t').
Proof.
  intros Hlen m.
  destruct (record_counters t os Hlen) as (H1 & H2 & H3 & H4 & _).
  fold m in H1, H2, H3, H4.
  split; [exact H1|]. split; [|split; [exact H2|split; [exact H3|split; [exact H4|]]]].
  - rewrite H1, H2, H3.
    assert (Hsplit : forall l : list outcome,
               length l = (length (filter (fun o => isFailure o = false) l)
                           + length (filter (fun o => isFailure o = true) l))%nat).
    { induction l as [|o l IHl]; [reflexivity|].
      destruct (isFailure o) eqn:Ho.
      - rewrite filter_cons_False by congruence.
        rewrite filter_cons_True by exact Ho. cbn [length]. lia.
      - rewrite filter_cons_True by exact Ho.
        rewrite filter_cons_False by congruence. cbn [length]. lia. }
    rewrite (Hsplit os) at 1. lia.
  - intros os1 os2 ip msg t' -> Hok. unfold m.
    rewrite fold_left_app. cbn [fold_left].
    set (m1 := record (fold_left record os1 (New t)) (Failed ip msg t')).
    assert (Hkeep : forall l m0, forallb (fun o => negb (isFailure o)) l = true ->
                      LastError (fold_left record l m0) = LastError m0
                      /\ LastFailIP (fold_left record l m0) = LastFailIP m0
                      /\ LastErrorTime (fold_left record l m0) = LastErrorTime m0).
    { induction l as [|o l IHl]; intros m0 Hl; [repeat split; reflexivity|].
      cbn [forallb] in Hl. apply andb_true_iff in Hl as [Ho Hl].
      destruct o; [|discriminate]. cbn [fold_left record].
      destruct (IHl (RecordSuccess m0) Hl) as (E1 & E2 & E3).
      rewrite E1, E2, E3. repeat split; reflexivity. }
    destruct (Hkeep os2 m1 Hok) as (E1 & E2 & E3). rewrite E1, E2, E3.
    repeat split; reflexivity.
Qed.

Lemma X20_monitor_witness :
  let os := [Failed "1.2.3.4" "timeout" 5; Succeeded; Failed "5.6.7.8" "bad json" 9] in
  ConsecutiveErr (fold_left record os (New 0)) = 1.
Proof.
  intros os.
  refine (proj1 (proj2 (proj2 (proj2 (proj2 (X20_monitor_counters 0 os _)))))).
  unfold maxInt64. simpl. lia.
Defined.

(** X21. The status endpoint answers 500 exactly when the last three
    upstream calls recorded all failed, and 200 otherwise: one success is
    enough to be healthy again. The health flag of the report agrees with
    the status. A quota fetcher that returns a negative number (the quota
    could not be read) leaves the last known quota in place; the cache
    count shown is the one just fetched. *)
Theorem X21_status_reports_three_failures
        (t : Z) (os : list outcome) (quota cacheCount : option Z) :
  Z.of_nat (length os) <= maxInt64 ->
  let m := fold_left record os (New t) in
  let r := HandleStatus m quota cacheCount in
  (r.1.2 = StatusInternalServerError <-> (3 <= failuresAtEnd os)%nat)
  /\ (r.1.2 = StatusOK <-> (failuresAtEnd os < 3)%nat)
  /\ ((3 <= failuresAtEnd os)%nat <->
      exists pre suf, os = pre ++ suf /\ length suf = 3%nat
                      /\ forallb isFailure suf = true)
  /\ (HandleStatus (record m Succeeded) quota cacheCount).1.2 = StatusOK
  /\ Healthy r.2 = bool_decide (r.1.2 = StatusOK)
  /\ MonitorData r.2 = r.1.1
  /\ RemainingRequestNum r.1.1
     = match quota with
       | Some q => if decide (0 <= q) then q else RemainingRequestNum m
       | None => RemainingRequestNum m
       end
  /\ CacheItemCount r.1.1 = default (CacheItemCount m) cacheCount.
Proof.
  intros Hlen m r.
  destruct (record_counters t os Hlen) as (_ & _ & _ & H4 & _). fold m in H4.
  assert (Hc : forall m0, ConsecutiveErr (HandleStatus m0 quota cacheCount).1.1
                          = ConsecutiveErr m0).
  { intros m0. unfold HandleStatus. destruct quota as [q|], cacheCount as [n|];
      cbn [fst]; try destruct (0 <=? q); reflexivity. }
  assert (Hst : forall m0, (HandleStatus m0 quota cacheCount).1.2
                           = if ConsecutiveErr m0 <? 3 then StatusOK
                             else StatusInternalServerError).
  { intros m0. unfold HandleStatus. destruct quota as [q|], cacheCount as [n|];
      cbn [fst snd]; try destruct (0 <=? q); reflexivity. }
  unfold r. rewrite !Hst, H4.
  split; [|split; [|split; [|split; [|split; [|split; [|split]]]]]].
  - destruct (Z.of_nat (failuresAtEnd os) <? 3) eqn:E.
    + apply Z.ltb_lt in E. split; [discriminate|lia].
    + apply Z.ltb_ge in E. split; [lia|reflexivity].
  - destruct (Z.of_nat (failuresAtEnd os) <? 3) eqn:E.
    + apply Z.ltb_lt in E. split; [lia|reflexivity].
    + apply Z.ltb_ge in E. split; [discriminate|lia].
  - apply failuresAtEnd_spec.
  - reflexivity.
  - unfold HandleStatus. destruct quota as [q|], cacheCount as [n|];
      cbn [fst snd Healthy]; try destruct (0 <=? q);
      cbn [ConsecutiveErr withQuota withCacheCount]; rewrite ?H4;
      destruct (Z.of_nat (failuresAtEnd os) <? 3); reflexivity.
  - unfold HandleStatus. destruct quota as [q|], cacheCount as [n|];
      cbn [fst snd MonitorData]; try destruct (0 <=? q); reflexivity.
  - unfold HandleStatus. destruct quota as [q|], cacheCount as [n|]; cbn [fst snd].
    + destruct (decide (0 <= q)) as [Hq|Hq].
      * replace (0 <=? q) with true by (symmetry; apply Z.leb_le; exact Hq). reflexivity.
      * replace (0 <=? q) with false by (symmetry; apply Z.leb_gt; lia). reflexivity.
    + destruct (decide (0 <= q)) as [Hq|Hq].
      * replace (0 <=? q) with true by (symmetry; apply Z.leb_le; exact Hq). reflexivity.
      * replace (0 <=? q) with false by (symmetry; apply Z.leb_gt; lia). reflexivity.
    + reflexivity.
    + reflexivity.
  - unfold HandleStatus. destruct quota as [q|], cacheCount as [n|]; cbn [fst snd];
      try destruct (0 <=? q); reflexivity.
Qed.

Lemma X21_status_witness :
  let os := [Succeeded; Failed "a" "e" 1; Failed "b" "e" 2; Failed "c" "e" 3] in
  (HandleStatus (fold_left record os (New 0)) (Some (-1)) (Some 7)).1.2
  = StatusInternalServerError.
Proof.
  intros os.
  refine (proj2 (proj1 (X21_status_reports_three_failures 0 os (Some (-1)) (Some 7) _)) _).
  - unfold maxInt64. simpl. lia.
  - simpl. lia.
Defined.

End MonitorFacts.

(** ** The statistics page *)

Import Statistics.

Lemma sortStrings_sorted (l : list string) : Sorted String.le (sortStrings l).
Proof. apply Sorted_merge_sort. apply _. Qed.

Lemma sortStrings_perm (l : list string) : sortStrings l ≡ₚ l.
Proof. apply merge_sort_Permutation. Qed.

(** The result of sort.Strings does not depend on the order its argument
    had. *)
Lemma sortStrings_order (l1 l2 : list string) :
  l1 ≡ₚ l2 -> sortStrings l1 = sortStrings l2.
Proof.
  intros Hp. apply (Sorted_unique String.le); try apply sortStrings_sorted.
  rewrite !sortStrings_perm. exact Hp.
Qed.

Lemma groupByTag_snoc (its : list (string * string)) (kv : string * string) :
  groupByTag (its ++ [kv]) = addItem (groupByTag its) kv.
Proof. unfold groupByTag. rewrite fold_left_app. reflexivity. Qed.

(** The keys collected under a tag: those of the items with that tag, in
    the order of the iteration. *)
Lemma groupByTag_lookup (its : list (string * string)) (t : string) :
  groupByTag its !! t =
  match (filter (fun kv : string * string => kv.2 = t) its).*1 with
  | [] => None
  | ks => Some ks
  end.
Proof.
  induction its as [|[k v] its IH] using rev_ind; [reflexivity|].
  rewrite groupByTag_snoc. unfold addItem. cbn [fst snd].
  rewrite filter_app, fmap_app.
  destruct (decide (v = t)) as [->|Hne].
  - rewrite lookup_insert_eq, IH.
    rewrite filter_cons_True by reflexivity. rewrite filter_nil. cbn [fmap list_fmap fst].
    destruct ((filter (fun kv : string * string => kv.2 = t) its).*1) as [|k0 ks];
      reflexivity.
  - rewrite lookup_insert_ne by exact Hne. rewrite IH.
    rewrite filter_cons_False by (cbn [snd]; congruence).
    rewrite filter_nil. cbn [fmap list_fmap]. rewrite app_nil_r. reflexivity.
Qed.

Lemma groupByTag_keys (its : list (string * string)) (t : string) :
  default [] (groupByTag its !! t)
  = (filter (fun kv : string * string => kv.2 = t) its).*1.
Proof.
  rewrite groupByTag_lookup.
  destruct ((filter (fun kv : string * string => kv.2 = t) its).*1); reflexivity.
Qed.

Lemma groupByTag_tags (its : list (string * string)) (t : string) :
  t ∈ (map_to_list (groupByTag its)).*1 <-> t ∈ its.*2.
Proof.
  rewrite list_elem_of_fmap. split.
  - intros ([t' ks] & -> & Hin). apply elem_of_map_to_list in Hin.
    rewrite groupByTag_lookup in Hin. cbn [fst].
    destruct ((filter (fun kv : string * string => kv.2 = t') its).*1) as [|k0 ks0] eqn:Hf;
      [discriminate|].
    assert (Hk : k0 ∈ (filter (fun kv : string * string => kv.2 = t') its).*1)
      by (rewrite Hf; left).
    apply list_elem_of_fmap in Hk as ([k v] & _ & Hkv).
    apply list_elem_of_filter in Hkv as [Hv Hkv]. cbn [snd] in Hv. subst v.
    apply list_elem_of_fmap. exists (k, t'). split; [reflexivity|exact Hkv].
  - intros Hin. apply list_elem_of_fmap in Hin as ([k v] & -> & Hkv). cbn [snd].
    assert (Hk : k ∈ (filter (fun kv : string * string => kv.2 = v) its).*1).
    { apply list_elem_of_fmap. exists (k, v). split; [reflexivity|].
      apply list_elem_of_filter. split; [reflexivity|exact Hkv]. }
    destruct ((filter (fun kv : string * string => kv.2 = v) its).*1) as [|k0 ks0] eqn:Hf.
    { apply elem_of_nil in Hk. contradiction. }
    exists (v, k0 :: ks0). split; [reflexivity|].
    apply elem_of_map_to_list. rewrite groupByTag_lookup, Hf. reflexivity.
Qed.

Lemma sortedTags_order (its1 its2 : list (string * string)) :
  its1 ≡ₚ its2 -> sortedTags (groupByTag its1) = sortedTags (groupByTag its2).
Proof.
  intros Hp. unfold sortedTags. apply sortStrings_order.
  apply NoDup_Permutation; try apply NoDup_fst_map_to_list.
  intros t. rewrite !groupByTag_tags, Hp. reflexivity.
Qed.

Lemma statRows_order (its1 its2 : list (string * string)) :
  its1 ≡ₚ its2 -> statRows its1 = statRows its2.
Proof.
  intros Hp. unfold statRows. rewrite (sortedTags_order its1 its2 Hp).
  apply list_fmap_ext. intros _ tag _. f_equal.
  apply sortStrings_order. rewrite !groupByTag_keys, Hp. reflexivity.
Qed.

(** X22. The statistics page does not depend on the order in which Go
    iterates over its maps: for two orders of the same items the rows and
    the page are the same, and so is the whole response for two iteration
    orders of the runtime. The handler answers 500 exactly when GetAllItems
    fails: the cache is closed; there is no read-only connection and no
    path, or sql.Open fails; Close has taken the connection away in
    between; or the query returns an error. Otherwise it answers 200 with
    the page of the rows that scanned; for an answer to the query on the
    table whose rows all scan, that is the page of the rows of the table
    that have not expired by the clock of the cache. *)
Theorem X22_statistics_do_not_depend_on_map_order
        (m : Manager) (cn : Conn) (io : readIO)
        (range1 range2 : gmap string string -> list (string * string)) :
  (forall items, range1 items ≡ₚ map_to_list items) ->
  (forall items, range2 items ≡ₚ map_to_list items) ->
  let r := HandleStatistics m cn io range1 in
  (forall its1 its2 d,
      its1 ≡ₚ its2 ->
      statRows its1 = statRows its2 /\ statisticsPage its1 d = statisticsPage its2 d)
  /\ r = HandleStatistics m cn io range2
  /\ (status r.2 = StatusInternalServerError <->
      closed (cache m) = 1
      \/ (roDB cn = false /\ dbPath cn = "")
      \/ (roDB cn = false /\ openOk io = false)
      \/ closedMeanwhile io = true
      \/ queried io = None)
  /\ (status r.2 = StatusInternalServerError \/ status r.2 = StatusOK)
  /\ (forall rows,
        queried io = Some rows -> status r.2 = StatusOK ->
        r.2 = mkResp StatusOK (statisticsPage (map_to_list (scanRows rows))
                                              (DroppedCount (cache m))))
  /\ (forall db rows,
        queried io = Some rows -> selectAnswer db (now (cache m)) rows ->
        Forall (fun row : string * string * bool => row.2 = true) rows ->
        status r.2 = StatusOK ->
        r.2 = mkResp StatusOK
                (statisticsPage (map_to_list (rValue <$> liveRows db (now (cache m))))
                                (DroppedCount (cache m)))).
Proof.
  intros Hr1 Hr2 r.
  assert (Hpage : forall its1 its2 d,
             its1 ≡ₚ its2 ->
             statRows its1 = statRows its2 /\ statisticsPage its1 d = statisticsPage its2 d).
  { intros its1 its2 d Hp. pose proof (statRows_order its1 its2 Hp) as Hrows.
    split; [exact Hrows|].
    unfold statisticsPage. rewrite Hrows, (Permutation_length Hp). reflexivity. }
  split; [exact Hpage|].
  assert (Hne : StatusOK <> StatusInternalServerError) by discriminate.
  subst r. unfold HandleStatistics, GetAllItems, ensureReadOnlyDB.
  destruct (closed (cache m) =? 1) eqn:Hcl.
  { apply Z.eqb_eq in Hcl. cbn [negb snd status].
    split; [reflexivity|]. split; [split; [auto|reflexivity]|].
    split; [left; reflexivity|]. split; intros; exfalso; apply Hne; congruence. }
  apply Z.eqb_neq in Hcl.
  assert (Hrest : forall cn1 : Conn,
    let r := match (if closedMeanwhile io then (mkConn (dbPath cn1) false, None)
                    else match queried io with
                         | Some rows => (cn1, Some (scanRows rows))
                         | None => (cn1, None)
                         end) with
             | (cn', None) =>
                 (cn', mkResp StatusInternalServerError
                         ("Failed to retrieve statistics from database"
                          +:+ String "010"%char ""))
             | (cn', Some items) =>
                 (cn', mkResp StatusOK
                         (statisticsPage (range1 items) (DroppedCount (cache m))))
             end in
    r = match (if closedMeanwhile io then (mkConn (dbPath cn1) false, None)
               else match queried io with
                    | Some rows => (cn1, Some (scanRows rows))
                    | None => (cn1, None)
                    end) with
        | (cn', None) =>
            (cn', mkResp StatusInternalServerError
                    ("Failed to retrieve statistics from database"
                     +:+ String "010"%char ""))
        | (cn', Some items) =>
            (cn', mkResp StatusOK
                    (statisticsPage (range2 items) (DroppedCount (cache m))))
        end
    /\ (status r.2 = StatusInternalServerError <->
        closedMeanwhile io = true \/ queried io = None)
    /\ (status r.2 = StatusInternalServerError \/ status r.2 = StatusOK)
    /\ (forall rows,
          queried io = Some rows -> status r.2 = StatusOK ->
          r.2 = mkResp StatusOK (statisticsPage (map_to_list (scanRows rows))
                                                (DroppedCount (cache m))))).
  { intros cn1. cbv zeta.
    destruct (closedMeanwhile io) eqn:Hcm.
    { cbn [snd status]. split; [reflexivity|]. split; [split; [auto|reflexivity]|].
      split; [left; reflexivity|]. intros; exfalso; apply Hne; congruence. }
    destruct (queried io) as [rows|] eqn:Hq.
    - cbn [snd status]. split.
      { f_equal. f_equal. apply Hpage. rewrite Hr1, Hr2. reflexivity. }
      split; [split; [intros H; exfalso; apply Hne; exact H
                     |intros [H|H]; discriminate]|].
      split; [right; reflexivity|].
      intros rows' Hrows _. simplify_eq. f_equal. apply Hpage. apply Hr1.
    - cbn [snd status]. split; [reflexivity|]. split; [split; [auto|reflexivity]|].
      split; [left; reflexivity|]. intros; discriminate. }
  assert (Hfinal : forall (r0 : Conn * Response),
    (status r0.2 = StatusInternalServerError <->
        closedMeanwhile io = true \/ queried io = None) ->
    (forall rows,
          queried io = Some rows -> status r0.2 = StatusOK ->
          r0.2 = mkResp StatusOK (statisticsPage (map_to_list (scanRows rows))
                                                 (DroppedCount (cache m)))) ->
    forall db rows,
        queried io = Some rows -> selectAnswer db (now (cache m)) rows ->
        Forall (fun row : string * string * bool => row.2 = true) rows ->
        status r0.2 = StatusOK ->
        r0.2 = mkResp StatusOK
                (statisticsPage (map_to_list (rValue <$> liveRows db (now (cache m))))
                                (DroppedCount (cache m)))).
  { intros r0 _ Hok db rows Hq Hsel Hscan Hst.
    rewrite (Hok rows Hq Hst), (scanRows_answer db _ rows Hsel Hscan). reflexivity. }
  destruct (roDB cn) eqn:Hro.
  { cbn [negb]. destruct (Hrest cn) as (H1 & H2 & H3 & H4). cbv zeta in *.
    split; [exact H1|]. split.
    { rewrite H2. split; [intros [H|H]; auto|].
      intros [H|[[H _]|[[H _]|[H|H]]]]; auto; try contradiction; discriminate. }
    split; [exact H3|]. split; [exact H4|]. apply Hfinal; assumption. }
  destruct (seqb (dbPath cn) "") eqn:Hpath.
  { apply bool_decide_eq_true in Hpath. cbn [negb snd status].
    split; [reflexivity|]. split; [split; [auto|reflexivity]|].
    split; [left; reflexivity|]. split; intros; exfalso; apply Hne; congruence. }
  apply bool_decide_eq_false in Hpath.
  destruct (openOk io) eqn:Hopen.
  - cbn [negb]. destruct (Hrest (mkConn (dbPath cn) true)) as (H1 & H2 & H3 & H4).
    cbv zeta in *.
    split; [exact H1|]. split.
    { rewrite H2. split; [intros [H|H]; auto 6|].
      intros [H|[[_ H]|[[_ H]|[H|H]]]]; auto; try contradiction; discriminate. }
    split; [exact H3|]. split; [exact H4|]. apply Hfinal; assumption.
  - cbn [negb snd status].
    split; [reflexivity|]. split; [split; [auto 6|reflexivity]|].
    split; [left; reflexivity|]. split; intros; exfalso; apply Hne; congruence.
Qed.

Lemma X22_statistics_witness :
  let m := mkManager (CachePkg.New 10 Float64.zero 0) [] ∅ 1 in
  let io := mkReadIO true false
              (Some [("1.2.3", "beijing_ct", true); ("5.6.7", "anhui_cu", true);
                     ("9.9.9", "beijing_ct", true)]) in
  HandleStatistics m (mkConn "cache.db" false) io map_to_list
  = HandleStatistics m (mkConn "cache.db" false) io
                     (fun items => reverse (map_to_list items)).
Proof.
  intros m io.
  refine (proj1 (proj2 (X22_statistics_do_not_depend_on_map_order
                          m (mkConn "cache.db" false) io map_to_list
                          (fun items => reverse (map_to_list items)) _ _))).
  - intros items. reflexivity.
  - intros items. apply reverse_Permutation.
Defined.

Lemma sum_list_cons (a : nat) (l : list nat) : sum_list (a :: l) = (a + sum_list l)%nat.
Proof. reflexivity. Qed.

Lemma sum_list_add {A} (f g : A -> nat) (l : list A) :
  sum_list ((fun t => f t + g t)%nat <$> l) = (sum_list (f <$> l) + sum_list (g <$> l))%nat.
Proof.
  induction l as [|x l IH]; [reflexivity|].
  rewrite !fmap_cons, !sum_list_cons, IH. lia.
Qed.

Lemma sum_list_indicator (v : string) (l : list string) :
  NoDup l ->
  sum_list ((fun t => if decide (v = t) then 1 else 0)%nat <$> l)
  = if decide (v ∈ l) then 1%nat else 0%nat.
Proof.
  induction l as [|x l IH]; intros Hnd.
  - cbn [fmap list_fmap sum_list]. rewrite decide_False; [reflexivity|].
    intros H. apply elem_of_nil in H. exact H.
  - apply NoDup_cons in Hnd as [Hx Hnd]. rewrite fmap_cons, sum_list_cons.
    rewrite (IH Hnd). destruct (decide (v = x)) as [->|Hne].
    + rewrite (decide_False (P := x ∈ l)) by exact Hx.
      rewrite decide_True by left. reflexivity.
    + destruct (decide (v ∈ l)) as [Hin|Hout].
      * rewrite decide_True by (right; exact Hin). reflexivity.
      * rewrite decide_False; [reflexivity|].
        intros H. apply elem_of_cons in H as [H|H]; contradiction.
Qed.

(** Every item is counted under exactly one tag. *)
Lemma count_by_tag (its : list (string * string)) (tags : list string) :
  NoDup tags -> (forall kv, kv ∈ its -> kv.2 ∈ tags) ->
  sum_list ((fun t => length (filter (fun kv : string * string => kv.2 = t) its)) <$> tags)
  = length its.
Proof.
  intros Hnd. induction its as [|[k v] its IH]; intros Hall.
  - cbn [length]. induction tags as [|t tags IHt]; [reflexivity|].
    apply NoDup_cons in Hnd as [_ Hnd]. rewrite fmap_cons, sum_list_cons.
    rewrite filter_nil. cbn [length]. rewrite Nat.add_0_l. apply IHt; [exact Hnd|].
    intros kv Hkv. apply elem_of_nil in Hkv. contradiction.
  - cbn [length]. rewrite <- IH by (intros kv Hkv; apply Hall; right; exact Hkv).
    rewrite <- (Nat.add_1_l (sum_list _)).
    assert (Hv : v ∈ tags) by (apply (Hall (k, v)); left).
    pose proof (sum_list_indicator v tags Hnd) as Hind.
    rewrite decide_True in Hind by exact Hv. rewrite <- Hind.
    rewrite <- sum_list_add. f_equal. apply list_fmap_ext. intros _ t _.
    destruct (decide (v = t)) as [->|Hne].
    + rewrite filter_cons_True by reflexivity. reflexivity.
    + rewrite filter_cons_False by (cbn [snd]; congruence). reflexivity.
Qed.

(** X23. What the statistics page shows. The rows are in increasing order
    of their tags, one row per tag that occurs; the keys of a row are the
    keys of the items with that tag, sorted; so every item is listed under
    its tag and the counts of the rows add up to the total shown at the top
    of the page. A row displays all its keys when there are at most 50 of
    them, and otherwise the first 50 followed by one entry that tells how
    many others there are. *)
Theorem X23_statistics_rows (its : list (string * string)) :
  let rows := statRows its in
  Sorted String.le rows.*1 /\ NoDup rows.*1
  /\ (forall tag, tag ∈ rows.*1 <-> tag ∈ its.*2)
  /\ (forall tag keys, (tag, keys) ∈ rows ->
        Sorted String.le keys
        /\ keys ≡ₚ (filter (fun kv : string * string => kv.2 = tag) its).*1)
  /\ (forall k v, (k, v) ∈ its -> exists keys, (v, keys) ∈ rows /\ k ∈ keys)
  /\ sum_list (length <$> rows.*2) = length its
  /\ (forall keys : list string,
        ((length keys <= 50)%nat -> displayKeys keys = keys)
        /\ ((50 < length keys)%nat ->
            displayKeys keys
            = take 50 keys
              ++ ["... and " +:+ pretty (Z.of_nat (length keys - 50)) +:+ " others"])
        /\ (length (displayKeys keys) <= 51)%nat).
Proof.
  intros rows.
  set (stats := groupByTag its).
  assert (Htags : rows.*1 = sortedTags stats).
  { unfold rows, statRows. fold stats. rewrite <- list_fmap_compose.
    rewrite <- (list_fmap_id (sortedTags stats)) at 2.
    apply list_fmap_ext. intros _ t _. reflexivity. }
  assert (Hperm : sortedTags stats ≡ₚ (map_to_list stats).*1) by apply sortStrings_perm.
  assert (Hnd : NoDup (sortedTags stats)).
  { rewrite Hperm. apply NoDup_fst_map_to_list. }
  assert (Hmem : forall tag, tag ∈ sortedTags stats <-> tag ∈ its.*2).
  { intros tag. rewrite Hperm. apply groupByTag_tags. }
  assert (Hrow : forall tag keys, (tag, keys) ∈ rows ->
             tag ∈ sortedTags stats
             /\ keys = sortStrings ((filter (fun kv : string * string => kv.2 = tag) its).*1)).
  { intros tag keys Hin. unfold rows, statRows in Hin. fold stats in Hin.
    apply list_elem_of_fmap in Hin as (t & Heq & Ht). simplify_eq.
    split; [exact Ht|]. unfold stats. rewrite groupByTag_keys. reflexivity. }
  split; [rewrite Htags; apply sortStrings_sorted|].
  split; [rewrite Htags; exact Hnd|].
  split; [intros tag; rewrite Htags; apply Hmem|].
  split; [|split; [|split]].
  - intros tag keys Hin. destruct (Hrow tag keys Hin) as [_ ->].
    split; [apply sortStrings_sorted|apply sortStrings_perm].
  - intros k v Hkv.
    exists (sortStrings ((filter (fun kv : string * string => kv.2 = v) its).*1)). split.
    + unfold rows, statRows. fold stats. apply list_elem_of_fmap. exists v.
      split; [unfold stats; rewrite groupByTag_keys; reflexivity|].
      apply Hmem. apply list_elem_of_fmap. exists (k, v). split; [reflexivity|exact Hkv].
    + rewrite sortStrings_perm. apply list_elem_of_fmap. exists (k, v).
      split; [reflexivity|]. apply list_elem_of_filter. split; [reflexivity|exact Hkv].
  - rewrite <- (count_by_tag its (sortedTags stats) Hnd).
    + unfold rows, statRows. fold stats. rewrite <- !list_fmap_compose.
      f_equal. apply list_fmap_ext. intros _ t _. cbn [compose snd].
      unfold stats. rewrite groupByTag_keys.
      rewrite (Permutation_length (sortStrings_perm _)), length_fmap. reflexivity.
    + intros [k v] Hkv. apply Hmem. apply list_elem_of_fmap. exists (k, v).
      split; [reflexivity|exact Hkv].
  - intros keys. unfold displayKeys.
    destruct (50 <? length keys)%nat eqn:Hlt.
    + apply Nat.ltb_lt in Hlt. split; [lia|]. split.
      * intros _. replace (Z.of_nat (length keys) - 50) with (Z.of_nat (length keys - 50))
          by lia. reflexivity.
      * rewrite length_app, length_take. cbn [length]. lia.
    + apply Nat.ltb_ge in Hlt. split; [reflexivity|]. split; [lia|lia].
Qed.

(** ** The tags the service can produce *)

(** X24. The tag of a provider answer is always in a fixed vocabulary:
    it is fallback, or a province code of the table followed by an
    underscore and the code of an ISP rule. Whatever text the provider
    returns, no other string is ever stored in the cache by a worker whose
    fetch returned that text. *)
Theorem X24_tags_come_from_the_tables (p s : string) :
  normalize p s = "fallback"
  \/ exists pc ic, pc ∈ cnMap.*2 /\ ic ∈ Code <$> ispRules
                   /\ normalize p s = pc +:+ "_" +:+ ic.
Proof.
  rewrite normalize_unfold. cbv zeta.
  destruct (detectProvinceCode_new_range p s) as [Hp|Hp].
  - left. rewrite Hp. reflexivity.
  - pose proof (detectISPCode_new_range p s) as Hi.
    set (pc := ProvinceCode (detectProvinceCode (newIPInfo p s))) in *.
    set (ic := ISPCode (detectISPCode (newIPInfo p s))) in *.
    destruct (seqb pc "") eqn:Epc; [left; reflexivity|].
    destruct (seqb ic "") eqn:Eic; [left; reflexivity|].
    right. exists pc, ic. split; [exact Hp|]. split; [|reflexivity].
    apply bool_decide_eq_false in Eic.
    apply list_elem_of_In in Hi. apply list_elem_of_In.
    simpl in Hi. simpl. intuition congruence.
Qed.

(** ** The TTL of the configuration *)

(** X26. NewManager converts cache_ttl_seconds to nanoseconds on int64:
    exactly, for 0 to 9223372036 seconds; beyond that the product wraps,
    and 9223372037 seconds already give a negative TTL. With a TTL that
    is zero or negative nothing a worker stores is ever served: Get right
    after Set is a miss. *)
Theorem X26_NewManager_converts_the_ttl
        (secs ratio : Z) (workers : nat) (now0 : Z) :
  let m := NewManager secs ratio workers now0 in
  ttl (cache m) = wrap64 (wrap64 secs * 1000000000)
  /\ (0 <= secs <= 9223372036 -> ttl (cache m) = secs * 1000000000)
  /\ ttl (cache (NewManager 9223372037 ratio workers now0)) = -9223372036709551616
  /\ (0 <= now0 <= maxInt64 -> ttl (cache m) <= 0 ->
      forall seed key val,
        Get (Set_ (cache m) seed key val) key = ("", false, false, 0))
  /\ now (cache m) = now0 /\ queue m = [] /\ inflight m = ∅ /\ concurrency m = workers.
Proof.
  intros m. split; [reflexivity|]. split; [|split; [reflexivity|split]].
  - intros Hs. unfold m, NewManager, CachePkg.New. cbn [cache ttl].
    rewrite (wrap64_id secs) by (unfold isInt64, minInt64, maxInt64; lia).
    apply wrap64_id. unfold isInt64, minInt64, maxInt64. lia.
  - intros Hnow Httl seed key val.
    assert (Hwf : wf (cache m)) by (split; reflexivity).
    rewrite Set_then_Get by exact Hwf. cbv zeta.
    assert (Hr : isInt64 (ttl (cache m)))
      by (unfold m, NewManager, CachePkg.New; cbn [cache ttl]; apply wrap64_range).
    change (now (cache m)) with now0.
    rewrite add64_exact by (unfold isInt64, minInt64, maxInt64 in *; lia).
    replace (now0 + ttl (cache m) <=? now0) with true by (symmetry; apply Z.leb_le; lia).
    reflexivity.
  - repeat split; reflexivity.
Qed.

(** ** The providers *)

Section ProviderFacts.

Import Monitor Provider.

(** X27. Every call of Fetch, of either provider, records exactly one
    outcome on the monitor: a success when it returns the information, a
    failure carrying the IP asked for when it returns an error. It returns
    information exactly when both credentials are set, the body decodes
    and its code is 200; the information is then the province and the ISP
    of the body with empty codes, whatever the success flag of the body
    says. With a credential missing every Fetch fails without an
    exchange. *)
Theorem X27_Fetch_records_one_outcome
        (k : providerKind) (mon : Monitor) (cfg : TencentCloudConfig)
        (ip : string) (net : exchange) (t : Z) :
  let r := Fetch k mon cfg ip net t in
  (exists o, r.1 = record mon o
             /\ isFailure o = bool_decide (r.2 = None)
             /\ (isFailure o = true -> exists msg, o = Failed ip msg t))
  /\ TotalRequests r.1 = add64 (TotalRequests mon) 1
  /\ (r.2 <> None <->
      SecretID cfg <> "" /\ SecretKey cfg <> ""
      /\ exists a, net = Decoded a /\ Code a = 200)
  /\ (forall a, net = Decoded a -> r.2 <> None ->
        r.2 = Some (Model.newIPInfo (Prov a) (ISP a)))
  /\ (SecretID cfg = "" \/ SecretKey cfg = "" -> r.2 = None).
Proof.
  intros r.
  assert (Hcases :
    (exists msg, r = (RecordFailure mon ip msg t, None)
                 /\ ~ (SecretID cfg <> "" /\ SecretKey cfg <> ""
                       /\ exists a, net = Decoded a /\ Code a = 200))
    \/ (exists a, r = (RecordSuccess mon, Some (Model.newIPInfo (Prov a) (ISP a)))
                  /\ net = Decoded a /\ Code a = 200
                  /\ SecretID cfg <> "" /\ SecretKey cfg <> "")).
  { unfold r, Fetch.
    destruct k; [unfold Fetch_38599|unfold Fetch_30498]; unfold DoRequest;
      (destruct (seqb (SecretID cfg) "") eqn:E1;
       [apply bool_decide_eq_true in E1; left; eexists; (split; [reflexivity|]);
        intros (H & _); contradiction|]);
      (destruct (seqb (SecretKey cfg) "") eqn:E2;
       [apply bool_decide_eq_true in E2; left; eexists; (split; [reflexivity|]);
        intros (_ & H & _); contradiction|]);
      apply bool_decide_eq_false in E1; apply bool_decide_eq_false in E2; cbn [orb];
      (destruct net as [err|err body|a];
       [left; eexists; (split; [reflexivity|]); intros (_ & _ & a & H & _); discriminate
       |left; eexists; (split; [reflexivity|]); intros (_ & _ & a & H & _); discriminate
       |]);
      (destruct (Code a =? 200) eqn:Ec;
       [apply Z.eqb_eq in Ec; right; exists a; cbn [negb]; repeat split; auto
       |apply Z.eqb_neq in Ec; left; cbn [negb]; eexists; (split; [reflexivity|]);
        intros (_ & _ & a' & H & Hc); simplify_eq]). }
  destruct Hcases as [(msg & Hr & Hno)|(a & Hr & Hnet & Hc & H1 & H2)]; rewrite Hr;
    cbn [fst snd].
  - split; [exists (Failed ip msg t); split; [reflexivity|split; [reflexivity|eauto]]|].
    split; [reflexivity|]. split; [split; [intros H; contradiction|intros H; contradiction]|].
    split; [intros a _ H; contradiction|]. auto.
  - split; [exists Succeeded; split; [reflexivity|split; [reflexivity|discriminate]]|].
    split; [reflexivity|]. split.
    + split; [intros _|discriminate]. split; [exact H1|]. split; [exact H2|].
      exists a. split; assumption.
    + split; [intros a' Ha _; rewrite Hnet in Ha; simplify_eq; reflexivity|].
      intros [H|H]; contradiction.
Qed.

End ProviderFacts.

(** ** The two versions of the normalizer *)

(** X25. The trie version keeps the tags of the map version on the names
    the maps of that version list: for every province name and every ISP
    name of the two maps, both versions give province code, underscore,
    ISP code, with the codes of the maps. The versions are not equal on
    all inputs: a province followed by a city is fallback for the map
    version and recognised by the trie version, and an ISP text that names
    CERNET and 长城 is gwbn for the one and edu for the other. *)
Theorem X25_trie_version_keeps_the_map_version_tags :
  (forall pv iv, pv ∈ ModelV1.provinceMap -> iv ∈ ModelV1.ispMap ->
     ModelV1.normalize pv.1 iv.1 = pv.2 +:+ "_" +:+ iv.2
     /\ Model.normalize pv.1 iv.1 = pv.2 +:+ "_" +:+ iv.2)
  /\ ModelV1.normalize "广东省广州市" "中国电信" = "fallback"
  /\ Model.normalize "广东省广州市" "中国电信" = "guangdong_ct"
  /\ ModelV1.normalize "北京市" "CERNET 长城" = "beijing_gwbn"
  /\ Model.normalize "北京市" "CERNET 长城" = "beijing_edu".
Proof.
  split; [|vm_compute; repeat split; reflexivity].
  assert (Hall : forallb (fun pv : string * string =>
                   forallb (fun iv : string * string =>
                     seqb (ModelV1.normalize pv.1 iv.1) (pv.2 +:+ "_" +:+ iv.2)
                     && seqb (Model.normalize pv.1 iv.1) (pv.2 +:+ "_" +:+ iv.2))
                     ModelV1.ispMap) ModelV1.provinceMap = true)
    by (vm_compute; reflexivity).
  intros pv iv Hp Hi.
  rewrite forallb_forall in Hall. apply list_elem_of_In in Hp.
  specialize (Hall pv Hp). rewrite forallb_forall in Hall.
  apply list_elem_of_In in Hi. specialize (Hall iv Hi).
  apply andb_true_iff in Hall as [H1 H2].
  apply bool_decide_eq_true in H1. apply bool_decide_eq_true in H2. split; assumption.
Qed.
